(** * numstat: a descriptive-statistics calculator

    Shallow embedding of [numstat.c] and proofs about its compute pipeline
    (read numbers, accumulate, sort, interpolate percentiles, format).

    The numeric engine ([compare_double], [get_percentile],
    [calculate_stats]) is written once over an interface [DoubleOps] of the
    operations the C code applies to [double] values, and is used at two
    instances:
    - [float_ops]: IEEE-754 binary64 with round-to-nearest-even, each
      operation rounded on its own, with neither fused multiply-add nor
      extended precision (Rocq's primitive floats).  This is the arithmetic
      of the compiled program.
    - [real_ops]: the real numbers, every operation exact.  This is the
      arithmetic in which the ordering of the quartiles and the independence
      of the input order hold; both fail in binary64.

    The parts of the C library the program calls ([qsort], [printf],
    [fscanf], [atoi], [malloc], [fopen]) are modelled after ISO C; they are
    no part of the repository.

    Undefined behaviour of the C program (an array read out of bounds, a
    conversion from [double] to [size_t] whose value does not fit, a call of
    [qsort] with a comparator that is no total order on the array) is the
    result [None] of the option monad. *)

From Stdlib Require Import ZArith List Bool Lia Floats String Ascii.
From Stdlib Require Import Permutation Sorted.
From Stdlib Require Import Reals Lra.
Import ListNotations.

(** ** The option monad: [None] is undefined behaviour *)

Definition bind {A B : Type} (m : option A) (k : A -> option B) : option B :=
  match m with
  | Some a => k a
  | None => None
  end.

Declare Scope ub_scope.
Delimit Scope ub_scope with ub.
Notation "x <- m ;; k" := (bind m (fun x => k))
  (at level 61, m at next level, right associativity) : ub_scope.
Notation "' p <- m ;; k" := (bind m (fun x => let p := x in k))
  (at level 61, p pattern, m at next level, right associativity) : ub_scope.
Local Open Scope ub_scope.
Local Open Scope Z_scope.

(** ** Machine integers and arrays *)

(** [size_t] is an unsigned 64-bit integer; arithmetic wraps around. *)
Definition SIZE_MAX : Z := 2 ^ 64 - 1.
Definition size_t_wrap (n : Z) : Z := n mod 2 ^ 64.

(** An array of [double] is the list of its cells; [a[i]] outside the array
    is undefined. *)
Definition load {D : Type} (a : list D) (i : Z) : option D :=
  if i <? 0 then None else nth_error a (Z.to_nat i).

(** [for (size_t i = lo; n iterations; i++) body] with the loop state passed
    from one iteration to the next. *)
Fixpoint for_loop {S : Type} (body : Z -> S -> option S)
    (i : Z) (n : nat) (s : S) : option S :=
  match n with
  | O => Some s
  | Datatypes.S n' => s' <- body i s ;; for_loop body (i + 1) n' s'
  end.

(** ** The operations of [double] used by the program *)

Class DoubleOps (D : Type) : Type := {
  dadd : D -> D -> D;
  dsub : D -> D -> D;
  dmul : D -> D -> D;
  ddiv : D -> D -> D;
  dsqrt : D -> D;
  (** the C comparison [a < b] *)
  dlt : D -> D -> bool;
  (** the conversion [(double) n] of a [size_t] *)
  of_size_t : Z -> D;
  (** the conversion [(size_t) x]: truncation toward zero, undefined when
      the truncated value is not a [size_t] *)
  to_size_t : D -> option Z;
  (** the literals of the program *)
  lit_0 : D;
  lit_1 : D;
  lit_0_25 : D;
  lit_0_50 : D;
  lit_0_75 : D
}.

Declare Scope dbl_scope.
Delimit Scope dbl_scope with dbl.
Infix "+" := dadd : dbl_scope.
Infix "-" := dsub : dbl_scope.
Infix "*" := dmul : dbl_scope.
Infix "/" := ddiv : dbl_scope.
Infix "<?" := dlt : dbl_scope.
Notation "a >? b" := (dlt b a) : dbl_scope.

(** ** Statistics structure *)

Set Implicit Arguments.

Record Stats (D : Type) : Type := {
  count : Z;
  sum : D;
  mean : D;
  min : D;
  max : D;
  range : D;
  median : D;
  q1 : D;
  q3 : D;
  variance : D;
  stddev : D
}.

Unset Implicit Arguments.

(** ** The numeric engine *)

Section Engine.
Context {D : Type} {ops : DoubleOps D}.

(** [compare_double]: the sign of [a - b] as -1, 0 or 1. *)
Definition compare_double (a b : D) : Z :=
  let diff := (a - b)%dbl in
  Z.b2z (diff >? lit_0)%dbl - Z.b2z (diff <? lit_0)%dbl.

(** Insertion sort driven by a comparator: [x] goes before the first element
    it does not exceed. *)
Fixpoint qsort_insert (cmp : D -> D -> Z) (x : D) (l : list D) : list D :=
  match l with
  | [] => [x]
  | y :: l' => if cmp x y <=? 0 then x :: y :: l' else y :: qsort_insert cmp x l'
  end.

Fixpoint insertion_sort (cmp : D -> D -> Z) (l : list D) : list D :=
  match l with
  | [] => []
  | x :: l' => qsort_insert cmp x (insertion_sort cmp l')
  end.

(** The comparator orders the elements of the array consistently: the two
    ways of comparing a pair have opposite signs, and [x <= y], [y <= z] give
    [x <= z]. *)
Definition total_order_on (cmp : D -> D -> Z) (l : list D) : bool :=
  forallb (fun x =>
    forallb (fun y =>
      (Z.sgn (cmp x y) =? - Z.sgn (cmp y x))
      && forallb (fun z =>
           implb ((cmp x y <=? 0) && (cmp y z <=? 0)) (cmp x z <=? 0)) l) l) l.

(** The C library's [qsort].  ISO C (7.22.5) defines the call only when the
    comparator is a total order on the array, and fixes neither the
    algorithm nor the order of elements that compare equal: the call is
    undefined otherwise, and the array is here sorted by insertion, which
    keeps elements that compare equal in their order. *)
Definition qsort (cmp : D -> D -> Z) (l : list D) : option (list D) :=
  if total_order_on cmp l then Some (insertion_sort cmp l) else None.

Definition get_percentile (sorted_values : list D) (count : Z)
    (percentile : D) : option D :=
  if count =? 0 then Some lit_0
  else if count =? 1 then load sorted_values 0
  else
    let index := (percentile * of_size_t (count - 1))%dbl in
    lower <- to_size_t index ;;
    let upper := size_t_wrap (lower + 1) in
    if upper >=? count then load sorted_values (count - 1)
    else
      let weight := (index - of_size_t lower)%dbl in
      a <- load sorted_values lower ;;
      b <- load sorted_values upper ;;
      Some (a * (lit_1 - weight) + b * weight)%dbl.

(** First loop of [calculate_stats]; the state is [(sum, min, max)]. *)
Definition sum_min_max_body (values : list D) (i : Z) (s : D * D * D)
    : option (D * D * D) :=
  let '(sum, min, max) := s in
  v <- load values i ;;
  let sum := (sum + v)%dbl in
  let min := if (v <? min)%dbl then v else min in
  let max := if (v >? max)%dbl then v else max in
  Some (sum, min, max).

(** Second loop of [calculate_stats]; the state is [variance]. *)
Definition variance_body (values : list D) (mean : D) (i : Z) (variance : D)
    : option D :=
  v <- load values i ;;
  let diff := (v - mean)%dbl in
  Some (variance + diff * diff)%dbl.

(** [calculate_stats] returns the array as [qsort] leaves it together with
    the filled-in record. *)
Definition calculate_stats (values : list D) (count : Z)
    : option (list D * Stats D) :=
  v0 <- load values 0 ;;
  ' (sum, min, max) <-
    for_loop (sum_min_max_body values) 0 (Z.to_nat count) (lit_0, v0, v0) ;;
  let mean := (sum / of_size_t count)%dbl in
  let range := (max - min)%dbl in
  variance <- for_loop (variance_body values mean) 0 (Z.to_nat count) lit_0 ;;
  let variance := (variance / of_size_t count)%dbl in
  let stddev := dsqrt variance in
  sorted <- qsort compare_double (firstn (Z.to_nat count) values) ;;
  let values := (sorted ++ skipn (Z.to_nat count) values)%list in
  median <- get_percentile values count lit_0_50 ;;
  q1 <- get_percentile values count lit_0_25 ;;
  q3 <- get_percentile values count lit_0_75 ;;
  Some (values,
        {| count := count; sum := sum; mean := mean; min := min; max := max;
           range := range; median := median; q1 := q1; q3 := q3;
           variance := variance; stddev := stddev |}).

End Engine.

(** ** IEEE-754 binary64 *)

(** Truncation toward zero of a finite binary64 value [m * 2^e]. *)
Definition trunc_mantissa (m : positive) (e : Z) : Z := Z.shiftl (Zpos m) e.

(** [(size_t) x]: defined when the truncated value lies in [0, SIZE_MAX]. *)
Definition double_to_size_t (x : float) : option Z :=
  match Prim2SF x with
  | S754_zero _ => Some 0
  | S754_finite s m e =>
      let t := trunc_mantissa m e in
      if s then (if t =? 0 then Some 0 else None)
      else if t <=? SIZE_MAX then Some t else None
  | S754_infinity _ | S754_nan => None
  end.

(** Zeros, subnormal and normal numbers: neither an infinity nor a NaN. *)
Definition is_finite (x : float) : bool :=
  match Prim2SF x with
  | S754_zero _ | S754_finite _ _ _ => true
  | S754_infinity _ | S754_nan => false
  end.

(** [(double) n]: the integer [n] rounded to the nearest binary64 number,
    ties to even. *)
Definition size_t_to_double (n : Z) : float :=
  SF2Prim (binary_normalize prec emax n 0 false).

#[export] Instance float_ops : DoubleOps float := {
  dadd := PrimFloat.add;
  dsub := PrimFloat.sub;
  dmul := PrimFloat.mul;
  ddiv := PrimFloat.div;
  dsqrt := PrimFloat.sqrt;
  dlt := PrimFloat.ltb;
  of_size_t := size_t_to_double;
  to_size_t := double_to_size_t;
  lit_0 := 0%float;
  lit_1 := 1%float;
  lit_0_25 := 0.25%float;
  lit_0_50 := 0.5%float;
  lit_0_75 := 0.75%float
}.

(** ** The real numbers: every operation exact *)

(** The C comparison [a < b] on reals. *)
Definition Rltb (a b : R) : bool := if Rlt_dec a b then true else false.

(** Truncation toward zero. *)
Definition Rtrunc (x : R) : Z :=
  if Rle_dec 0 x then Int_part x else (- Int_part (- x))%Z.

(** [(size_t) x] on reals: defined when the truncated value lies in
    [0, SIZE_MAX]. *)
Definition real_to_size_t (x : R) : option Z :=
  let t := Rtrunc x in
  if (0 <=? t) && (t <=? SIZE_MAX) then Some t else None.

#[export] Instance real_ops : DoubleOps R := {
  dadd := Rplus;
  dsub := Rminus;
  dmul := Rmult;
  ddiv := Rdiv;
  dsqrt := sqrt;
  dlt := Rltb;
  of_size_t := IZR;
  to_size_t := real_to_size_t;
  lit_0 := 0%R;
  lit_1 := 1%R;
  lit_0_25 := (1 / 4)%R;
  lit_0_50 := (1 / 2)%R;
  lit_0_75 := (3 / 4)%R
}.

(** ** The C library, as far as the program uses it *)

Local Open Scope string_scope.

(** Characters that cannot be written inside a string literal. *)
Definition LF : string := String (ascii_of_nat 10) EmptyString.
Definition DQ : string := String (ascii_of_nat 34) EmptyString.

(** The decimal digit [0 <= d <= 9] as a character. *)
Definition digit_char (d : Z) : ascii := ascii_of_nat (48 + Z.to_nat d).

(** The last [k] decimal digits of [n], most significant first, before
    [acc]. *)
Fixpoint fixed_digits (k : nat) (n : Z) (acc : string) : string :=
  match k with
  | O => acc
  | S k' => fixed_digits k' (n / 10) (String (digit_char (n mod 10)) acc)
  end.

Fixpoint decimal_digits (fuel : nat) (n : Z) (acc : string) : string :=
  match fuel with
  | O => acc
  | S fuel' =>
      let acc' := String (digit_char (n mod 10)) acc in
      if (n <? 10)%Z then acc' else decimal_digits fuel' (n / 10) acc'
  end.

(** [printf("%zu", n)]: the decimal digits of a non-negative integer. *)
Definition printf_zu (n : Z) : string :=
  decimal_digits (S (Z.to_nat (Z.log2 n))) n "".

(** [num / den] rounded to the nearest integer, ties to even. *)
Definition round_half_even (num den : Z) : Z :=
  let q := num / den in
  let r := num mod den in
  match (2 * r ?= den)%Z with
  | Lt => q
  | Gt => q + 1
  | Eq => if Z.even q then q else q + 1
  end.

(** [m * 2^e * 10^p] rounded to an integer. *)
Definition scaled_decimal (m : positive) (e p : Z) : Z :=
  if (0 <=? e)%Z then Zpos m * 2 ^ e * 10 ^ p
  else round_half_even (Zpos m * 10 ^ p) (2 ^ (- e)).

(** The integer [n = value * 10^p] written with [p] digits after the decimal
    point; no decimal point when [p = 0]. *)
Definition format_fixed (neg : bool) (n p : Z) : string :=
  (if neg then "-" else "") ++ printf_zu (n / 10 ^ p)
  ++ (if (p =? 0)%Z then "" else "." ++ fixed_digits (Z.to_nat p) (n mod 10 ^ p) "").

(** [printf("%.*f", precision, x)] in the default rounding mode: the exact
    value of [x] rounded to [precision] decimals; a negative precision
    stands for the default of 6; an infinity is written [inf] or [-inf] and
    a NaN [nan] or, when its sign bit is set, [-nan].  The binary64 values of
    this development have a single NaN, as IEEE 754 leaves the sign of a NaN
    that an operation produces to the implementation; the sign bit of a NaN
    argument is therefore the argument [nan_sign_bit], which plays no part
    for any other value. *)
Definition printf_f (nan_sign_bit : bool) (precision : Z) (x : float) : string :=
  let p := if (precision <? 0)%Z then 6 else precision in
  match Prim2SF x with
  | S754_nan => (if nan_sign_bit then "-" else "") ++ "nan"
  | S754_infinity s => (if s then "-" else "") ++ "inf"
  | S754_zero s => format_fixed s 0 p
  | S754_finite s m e => format_fixed s (scaled_decimal m e p) p
  end.

(** [isspace] and [isdigit] in the C locale. *)
Definition isspace (c : ascii) : bool :=
  let n := nat_of_ascii c in
  (n =? 32)%nat || ((9 <=? n)%nat && (n <=? 13)%nat).

Definition isdigit (c : ascii) : bool :=
  let n := nat_of_ascii c in (48 <=? n)%nat && (n <=? 57)%nat.

Fixpoint skip_spaces (s : string) : string :=
  match s with
  | String c r => if isspace c then skip_spaces r else s
  | EmptyString => s
  end.

(** The value of the leading decimal digits of [s], continuing from [acc]. *)
Fixpoint digits_value (s : string) (acc : Z) : Z :=
  match s with
  | String c r =>
      if isdigit c then digits_value r (10 * acc + (Z.of_nat (nat_of_ascii c) - 48))
      else acc
  | EmptyString => acc
  end.

Definition INT_MIN : Z := - 2 ^ 31.
Definition INT_MAX : Z := 2 ^ 31 - 1.

(** [atoi]: optional white space, an optional sign, decimal digits; [0] when
    there is no digit; undefined when the value is not an [int]. *)
Definition atoi (s : string) : option Z :=
  let s := skip_spaces s in
  let '(neg, s) :=
    match s with
    | String "-" r => (true, r)
    | String "+" r => (false, r)
    | _ => (false, s)
    end in
  let v := digits_value s 0 in
  let r := if neg then - v else v in
  if ((INT_MIN <=? r) && (r <=? INT_MAX))%Z then Some r else None.

(** What one call [fscanf(file, "%lf", &num)] finds in the stream: a number it
    converts, or input that is no number.  The end of the list is the end of
    the stream. *)
Inductive token : Type :=
| Number (num : float)
| Garbage.

Definition EOF : Z := -1.

(** [fscanf(file, "%lf", &num)]: the return value, the number stored and the
    stream left.  A matching failure consumes nothing. *)
Definition fscanf_lf (file : list token) : Z * option float * list token :=
  match file with
  | Number num :: file' => (1, Some num, file')
  | Garbage :: _ => (0, None, file)
  | [] => (EOF, None, file)
  end.

(** The fields of [Stats] that are printed with [%.*f]. *)
Inductive field : Type :=
| FSum | FMean | FMedian | FMin | FMax | FRange | FQ1 | FQ3 | FStdDev.

(** The environment of a run: standard input, the files that can be opened
    for reading, the requests the allocator grants, and the sign bit that a
    field of the record has when the field is a NaN, which is the
    implementation's to choose. *)
Record Env : Type := {
  stdin : list token;
  fopen_r : string -> option (list token);
  alloc_ok : Z -> bool;
  nan_sign : field -> bool
}.


(** ** The program *)

(** Configuration structure *)
Record Config : Type := {
  json_output : Z;
  precision : Z;
  input_file : option string
}.

(** What a run has written so far. *)
Record Streams : Type := {
  out : string;
  err : string
}.

(** A call returns a value, ends the process through [exit], or has no defined
    behaviour. *)
Inductive outcome (A : Type) : Type :=
| Returns (a : A) (s : Streams)
| Exits (code : Z) (s : Streams)
| Undefined.

Arguments Returns {A} a s.
Arguments Exits {A} code s.
Arguments Undefined {A}.

Definition prog (A : Type) : Type := Streams -> outcome A.

Definition ret {A : Type} (a : A) : prog A := fun s => Returns a s.

Definition seq {A B : Type} (m : prog A) (k : A -> prog B) : prog B :=
  fun s =>
    match m s with
    | Returns a s' => k a s'
    | Exits code s' => Exits code s'
    | Undefined => Undefined
    end.

Definition printf (text : string) : prog unit :=
  fun s => Returns tt {| out := out s ++ text; err := err s |}.

Definition fprintf_stderr (text : string) : prog unit :=
  fun s => Returns tt {| out := out s; err := err s ++ text |}.

Definition exit {A : Type} (code : Z) : prog A := fun s => Exits code s.

Definition undefined {A : Type} : prog A := fun _ => Undefined.

Declare Scope prog_scope.
Delimit Scope prog_scope with prog.
Notation "x <- m ;; k" := (seq m (fun x => k))
  (at level 61, m at next level, right associativity) : prog_scope.
Notation "m ;; k" := (seq m (fun _ => k))
  (at level 61, right associativity) : prog_scope.

Definition print_help (program_name : string) : prog unit :=
  (printf ("numstat - Calculate statistics for numerical data" ++ LF ++ LF) ;;
   printf ("Usage: " ++ program_name ++ " [OPTIONS] [FILE]" ++ LF ++ LF) ;;
   printf ("Options:" ++ LF) ;;
   printf ("  -j, --json         Output in JSON format" ++ LF) ;;
   printf ("  -p, --precision N  Set decimal precision (default: 4)" ++ LF) ;;
   printf ("  -h, --help         Show this help message" ++ LF ++ LF) ;;
   printf ("Input:" ++ LF) ;;
   printf ("  If FILE is provided, reads numbers from file" ++ LF) ;;
   printf ("  If no FILE is given, reads from stdin" ++ LF ++ LF) ;;
   printf ("Statistics calculated:" ++ LF) ;;
   printf ("  - Count, Sum, Mean, Median" ++ LF) ;;
   printf ("  - Minimum, Maximum, Range" ++ LF) ;;
   printf ("  - Q1 (25th percentile), Q3 (75th percentile)" ++ LF) ;;
   printf ("  - Standard Deviation (population)" ++ LF ++ LF) ;;
   printf ("Examples:" ++ LF) ;;
   printf ("  " ++ program_name ++ " data.txt              # Read from file" ++ LF) ;;
   printf ("  cat data.txt | " ++ program_name ++ "        # Read from stdin" ++ LF) ;;
   printf ("  echo " ++ DQ ++ "1 2 3" ++ DQ ++ " | " ++ program_name
           ++ "       # Quick calculation" ++ LF) ;;
   printf ("  " ++ program_name ++ " -j data.txt           # JSON output" ++ LF) ;;
   printf ("  " ++ program_name ++ " -p 2 data.txt         # 2 decimal places" ++ LF))%prog.

Definition precision_warning : string :=
  "Warning: Precision should be between 0 and 10. Using default (4)." ++ LF.

(** The loop of [parse_args] over the arguments that remain, [args] being
    [argv[i], ..., argv[argc-1]]. *)
Fixpoint parse_args_from (program_name : string) (args : list string)
    (config : Config) : prog Config :=
  match args with
  | [] => ret config
  | arg :: args' =>
      if (arg =? "-h") || (arg =? "--help") then
        (print_help program_name ;; exit 0)%prog
      else if (arg =? "-j") || (arg =? "--json") then
        parse_args_from program_name args'
          {| json_output := 1; precision := precision config;
             input_file := input_file config |}
      else if (arg =? "-p") || (arg =? "--precision") then
        match args' with
        | value :: args'' =>
            match atoi value with
            | None => undefined
            | Some n =>
                if ((n <? 0) || (n >? 10))%Z then
                  (fprintf_stderr precision_warning ;;
                   parse_args_from program_name args''
                     {| json_output := json_output config; precision := 4;
                        input_file := input_file config |})%prog
                else
                  parse_args_from program_name args''
                    {| json_output := json_output config; precision := n;
                       input_file := input_file config |}
            end
        | [] =>
            (fprintf_stderr ("Error: -p requires a number argument" ++ LF) ;;
             exit 1)%prog
        end
      else if match arg with String "-" _ => true | _ => false end then
        (fprintf_stderr ("Error: Unknown option '" ++ arg ++ "'" ++ LF) ;;
         fprintf_stderr ("Use -h or --help for usage information" ++ LF) ;;
         exit 1)%prog
      else
        match input_file config with
        | Some _ =>
            (fprintf_stderr ("Error: Multiple input files specified" ++ LF) ;;
             exit 1)%prog
        | None =>
            parse_args_from program_name args'
              {| json_output := json_output config; precision := precision config;
                 input_file := Some arg |}
        end
  end.

(** [parse_args]: [argv[0]] is the program name, the loop starts at
    [argv[1]]. *)
Definition parse_args (argv : list string) (config : Config) : prog Config :=
  match argv with
  | program_name :: args => parse_args_from program_name args config
  | [] => ret config
  end.

(** The result of [read_numbers]: the array and [*count], the null pointer,
    or undefined behaviour (a write past the end of the block). *)
Inductive read_result : Type :=
| ReadOk (values : list float) (count : Z)
| ReadNull
| ReadUndefined.

Definition sizeof_double : Z := 8.

(** The loop of [read_numbers].  [values] holds the cells written so far,
    [allocated] the size in bytes of the block they live in.  Every iteration
    consumes a token, so [fuel] above the length of the stream is enough. *)
Fixpoint read_loop (env : Env) (fuel : nat) (file : list token)
    (values : list float) (count capacity allocated : Z) : read_result :=
  match fuel with
  | O => ReadUndefined
  | S fuel' =>
      let '(r, num, file') := fscanf_lf file in
      match (r =? 1)%Z, num with
      | true, Some num =>
          let grow := (count >=? capacity)%Z in
          let capacity := if grow then size_t_wrap (capacity * 2) else capacity in
          let bytes := size_t_wrap (capacity * sizeof_double) in
          if grow && negb (alloc_ok env bytes) then ReadNull
          else
            let allocated := if grow then bytes else allocated in
            if ((count + 1) * sizeof_double <=? allocated)%Z then
              read_loop env fuel' file' (values ++ [num]) (count + 1) capacity allocated
            else ReadUndefined
      | _, _ => ReadOk values count
      end
  end.

Definition read_numbers (env : Env) (file : list token) : read_result :=
  let capacity := 16%Z in
  let bytes := size_t_wrap (capacity * sizeof_double) in
  if negb (alloc_ok env bytes) then ReadNull
  else read_loop env (S (List.length file)) file [] 0 capacity bytes.

(** The printers.  [sign] gives the sign bit of a field that is a NaN. *)
Definition print_stats_text (sign : field -> bool) (stats : Stats float)
    (precision : Z) : prog unit :=
  (printf ("Statistics for " ++ printf_zu (count stats) ++ " numbers:" ++ LF) ;;
   printf ("  Sum:     " ++ printf_f (sign FSum) precision (sum stats) ++ LF) ;;
   printf ("  Mean:    " ++ printf_f (sign FMean) precision (mean stats) ++ LF) ;;
   printf ("  Median:  " ++ printf_f (sign FMedian) precision (median stats) ++ LF) ;;
   printf ("  Minimum: " ++ printf_f (sign FMin) precision (min stats) ++ LF) ;;
   printf ("  Maximum: " ++ printf_f (sign FMax) precision (max stats) ++ LF) ;;
   printf ("  Range:   " ++ printf_f (sign FRange) precision (range stats) ++ LF) ;;
   printf ("  Q1:      " ++ printf_f (sign FQ1) precision (q1 stats) ++ LF) ;;
   printf ("  Q3:      " ++ printf_f (sign FQ3) precision (q3 stats) ++ LF) ;;
   printf ("  StdDev:  " ++ printf_f (sign FStdDev) precision (stddev stats) ++ LF))%prog.

Definition print_stats_json (sign : field -> bool) (stats : Stats float)
    (precision : Z) : prog unit :=
  (printf ("{" ++ LF) ;;
   printf ("  " ++ DQ ++ "count" ++ DQ ++ ": " ++ printf_zu (count stats) ++ "," ++ LF) ;;
   printf ("  " ++ DQ ++ "sum" ++ DQ ++ ": "
           ++ printf_f (sign FSum) precision (sum stats) ++ "," ++ LF) ;;
   printf ("  " ++ DQ ++ "mean" ++ DQ ++ ": "
           ++ printf_f (sign FMean) precision (mean stats) ++ "," ++ LF) ;;
   printf ("  " ++ DQ ++ "median" ++ DQ ++ ": "
           ++ printf_f (sign FMedian) precision (median stats) ++ "," ++ LF) ;;
   printf ("  " ++ DQ ++ "min" ++ DQ ++ ": "
           ++ printf_f (sign FMin) precision (min stats) ++ "," ++ LF) ;;
   printf ("  " ++ DQ ++ "max" ++ DQ ++ ": "
           ++ printf_f (sign FMax) precision (max stats) ++ "," ++ LF) ;;
   printf ("  " ++ DQ ++ "range" ++ DQ ++ ": "
           ++ printf_f (sign FRange) precision (range stats) ++ "," ++ LF) ;;
   printf ("  " ++ DQ ++ "q1" ++ DQ ++ ": "
           ++ printf_f (sign FQ1) precision (q1 stats) ++ "," ++ LF) ;;
   printf ("  " ++ DQ ++ "q3" ++ DQ ++ ": "
           ++ printf_f (sign FQ3) precision (q3 stats) ++ "," ++ LF) ;;
   printf ("  " ++ DQ ++ "stddev" ++ DQ ++ ": "
           ++ printf_f (sign FStdDev) precision (stddev stats) ++ LF) ;;
   printf ("}" ++ LF))%prog.

Definition no_numbers_error : string :=
  "Error: No valid numbers found in input" ++ LF.

Definition allocation_error : string :=
  "Error: Memory allocation failed" ++ LF.

(** [main].  Returning from [main] ends the process with the returned status,
    as [exit] does. *)
Definition main (env : Env) (argv : list string) : prog Z :=
  (config <- parse_args argv
               {| json_output := 0; precision := 4; input_file := None |} ;;
   file <- match input_file config with
           | Some name =>
               match fopen_r env name with
               | Some file => ret file
               | None =>
                   fprintf_stderr ("Error: Cannot open file '" ++ name ++ "'" ++ LF) ;;
                   exit 1
               end
           | None => ret (stdin env)
           end ;;
   match read_numbers env file with
   | ReadUndefined => undefined
   | ReadNull => fprintf_stderr allocation_error ;; exit 1
   | ReadOk values count =>
       if (count =? 0)%Z then fprintf_stderr no_numbers_error ;; exit 1
       else
         match calculate_stats values count with
         | None => undefined
         | Some (_, stats) =>
             (if (json_output config =? 0)%Z
              then print_stats_text (nan_sign env) stats (precision config)
              else print_stats_json (nan_sign env) stats (precision config)) ;;
             ret 0%Z
         end
   end)%prog.

Definition no_output : Streams := {| out := ""; err := "" |}.

(** The exit status and the output of a run, when its behaviour is defined. *)
Definition run (env : Env) (argv : list string) : option (Z * Streams) :=
  match main env argv no_output with
  | Returns code s | Exits code s => Some (code, s)
  | Undefined => None
  end.

(** An environment with the given standard input, no files, an allocator
    that grants every request, and NaN fields with a clear sign bit. *)
Definition stdin_env (input : list token) : Env :=
  {| stdin := input; fopen_r := fun _ => None; alloc_ok := fun _ => true;
     nan_sign := fun _ => false |}.

Local Close Scope string_scope.

(** ** Facts about arrays and loops *)

Lemma load_nth_error {D : Type} (a : list D) (n : nat) :
  load a (Z.of_nat n) = nth_error a n.
Proof.
  unfold load. destruct (Z.ltb_spec (Z.of_nat n) 0); [lia|].
  now rewrite Nat2Z.id.
Qed.

Lemma load_app_here {D : Type} (pre : list D) (v : D) (post : list D) :
  load (pre ++ v :: post) (Z.of_nat (List.length pre)) = Some v.
Proof.
  rewrite load_nth_error, nth_error_app2 by lia.
  now rewrite Nat.sub_diag.
Qed.

Lemma load_in_range {D : Type} (a : list D) (i : Z) (d : D) :
  0 <= i < Z.of_nat (List.length a) -> load a i = Some (nth (Z.to_nat i) a d).
Proof.
  intros Hi. unfold load. destruct (Z.ltb_spec i 0); [lia|].
  apply nth_error_nth'. lia.
Qed.

Lemma for_loop_ext {S : Type} (f g : Z -> S -> option S) :
  (forall i s, f i s = g i s) ->
  forall n i s, for_loop f i n s = for_loop g i n s.
Proof.
  intros Hfg n. induction n as [|n IH]; intros i s; simpl; [reflexivity|].
  rewrite Hfg. destruct (g i s); simpl; auto.
Qed.

(** A loop that reads [a[i]] for [i] from [0] to the length of [a] and
    updates its state with each cell folds the update over the array. *)
Lemma for_loop_fold {D S : Type} (step : S -> D -> S) :
  forall (rest pre : list D) (s : S),
    for_loop (fun i s => v <- load (pre ++ rest) i ;; Some (step s v))
      (Z.of_nat (List.length pre)) (List.length rest) s
    = Some (fold_left step rest s).
Proof.
  induction rest as [|v rest IH]; intros pre s; simpl; [reflexivity|].
  rewrite load_app_here. simpl.
  replace (Z.of_nat (List.length pre) + 1) with (Z.of_nat (List.length (pre ++ [v])))
    by (rewrite length_app; simpl; lia).
  replace (pre ++ v :: rest)%list with ((pre ++ [v]) ++ rest)%list
    by (now rewrite <- app_assoc).
  apply IH.
Qed.

Lemma for_loop_fold_all {D S : Type} (step : S -> D -> S) (a : list D) (s : S) :
  for_loop (fun i s => v <- load a i ;; Some (step s v)) 0 (List.length a) s
  = Some (fold_left step a s).
Proof. exact (for_loop_fold step a [] s). Qed.

(** ** The loops of [calculate_stats] as folds *)

Section EngineFacts.
Context {D : Type} {ops : DoubleOps D}.

(** One iteration of the first loop on the element [v]. *)
Definition sum_min_max_step (s : D * D * D) (v : D) : D * D * D :=
  let '(sum, min, max) := s in
  ((sum + v)%dbl,
   if (v <? min)%dbl then v else min,
   if (v >? max)%dbl then v else max).

(** The updates of [min] and [max] in the first loop. *)
Definition min_step (min v : D) : D := if (v <? min)%dbl then v else min.
Definition max_step (max v : D) : D := if (v >? max)%dbl then v else max.

(** One iteration of the second loop on the element [v]. *)
Definition variance_step (mean : D) (acc v : D) : D :=
  (acc + (v - mean) * (v - mean))%dbl.

Lemma sum_min_max_loop_fold (values : list D) (s : D * D * D) :
  for_loop (sum_min_max_body values) 0 (List.length values) s
  = Some (fold_left sum_min_max_step values s).
Proof.
  rewrite <- for_loop_fold_all.
  apply for_loop_ext. intros i [[sm mn] mx]. reflexivity.
Qed.

Lemma sum_min_max_fold (values : list D) (sum min max : D) :
  fold_left sum_min_max_step values (sum, min, max)
  = (fold_left dadd values sum, fold_left min_step values min,
     fold_left max_step values max).
Proof.
  revert sum min max. induction values as [|v values IH]; intros sm mn mx;
    [reflexivity|].
  cbn [fold_left]. unfold sum_min_max_step at 2. apply IH.
Qed.

Lemma variance_loop_fold (values : list D) (mean acc : D) :
  for_loop (variance_body values mean) 0 (List.length values) acc
  = Some (fold_left (variance_step mean) values acc).
Proof.
  rewrite <- for_loop_fold_all.
  apply for_loop_ext. intros i s. reflexivity.
Qed.

(** The sort rearranges the array. *)
Lemma qsort_insert_perm (cmp : D -> D -> Z) (x : D) (l : list D) :
  Permutation (x :: l) (qsort_insert cmp x l).
Proof.
  induction l as [|y l IH]; simpl; [reflexivity|].
  destruct (cmp x y <=? 0); [reflexivity|].
  rewrite perm_swap. apply perm_skip, IH.
Qed.

Lemma insertion_sort_perm (cmp : D -> D -> Z) (l : list D) :
  Permutation l (insertion_sort cmp l).
Proof.
  induction l as [|x l IH]; simpl; [constructor|].
  rewrite <- qsort_insert_perm. apply perm_skip, IH.
Qed.

Lemma insertion_sort_length (cmp : D -> D -> Z) (l : list D) :
  List.length (insertion_sort cmp l) = List.length l.
Proof. symmetry. apply Permutation_length, insertion_sort_perm. Qed.

(** [qsort] returns exactly when the comparator is a total order on the
    array, and then the array sorted by insertion. *)
Lemma qsort_some (cmp : D -> D -> Z) (l sorted : list D) :
  qsort cmp l = Some sorted
  <-> total_order_on cmp l = true /\ sorted = insertion_sort cmp l.
Proof.
  unfold qsort. destruct (total_order_on cmp l); split.
  - intros H. inversion H. auto.
  - intros [_ ->]. reflexivity.
  - discriminate.
  - intros [H _]. discriminate.
Qed.

Lemma qsort_total (cmp : D -> D -> Z) (l : list D) :
  total_order_on cmp l = true -> qsort cmp l = Some (insertion_sort cmp l).
Proof. intros H. unfold qsort. now rewrite H. Qed.

(** The record [calculate_stats] fills in, given the three percentiles. *)
Definition stats_record (values : list D) (v0 : D) (median q1 q3 : D) : Stats D :=
  let n := of_size_t (Z.of_nat (List.length values)) in
  let sum := fold_left dadd values lit_0 in
  let min := fold_left min_step values v0 in
  let max := fold_left max_step values v0 in
  let mean := (sum / n)%dbl in
  let variance := (fold_left (variance_step mean) values lit_0 / n)%dbl in
  {| count := Z.of_nat (List.length values);
     sum := sum; mean := mean; min := min; max := max;
     range := (max - min)%dbl; median := median; q1 := q1; q3 := q3;
     variance := variance; stddev := dsqrt variance |}.

(** [calculate_stats] on a whole non-empty array, without the loops. *)
Lemma calculate_stats_unfold (v0 : D) (rest : list D) :
  let values := v0 :: rest in
  let n := Z.of_nat (List.length values) in
  calculate_stats values n =
    (sorted <- qsort compare_double values ;;
     median <- get_percentile sorted n lit_0_50 ;;
     q1 <- get_percentile sorted n lit_0_25 ;;
     q3 <- get_percentile sorted n lit_0_75 ;;
     Some (sorted, stats_record values v0 median q1 q3)).
Proof.
  intros values n. unfold calculate_stats.
  change (load values 0) with (Some v0). cbn [bind].
  unfold n. rewrite Nat2Z.id.
  rewrite sum_min_max_loop_fold. cbn [bind].
  unfold stats_record.
  rewrite sum_min_max_fold. cbv beta iota zeta.
  rewrite variance_loop_fold. cbn [bind].
  rewrite firstn_all, skipn_all.
  destruct (qsort compare_double values) as [sorted|]; cbn [bind]; [|reflexivity].
  rewrite app_nil_r. reflexivity.
Qed.

(** The same where [compare_double] is a total order on the array. *)
Lemma calculate_stats_sorted (v0 : D) (rest : list D) :
  let values := v0 :: rest in
  let n := Z.of_nat (List.length values) in
  let sorted := insertion_sort compare_double values in
  total_order_on compare_double values = true ->
  calculate_stats values n =
    (median <- get_percentile sorted n lit_0_50 ;;
     q1 <- get_percentile sorted n lit_0_25 ;;
     q3 <- get_percentile sorted n lit_0_75 ;;
     Some (sorted, stats_record values v0 median q1 q3)).
Proof.
  intros values n sorted Hord. subst sorted n values.
  rewrite calculate_stats_unfold, (qsort_total _ _ Hord). reflexivity.
Qed.

(** [calculate_stats] has no defined behaviour where the comparator is no
    total order on the array: the call of [qsort] has none. *)
Lemma calculate_stats_needs_order (v0 : D) (rest : list D) :
  let values := v0 :: rest in
  total_order_on compare_double values = false ->
  calculate_stats values (Z.of_nat (List.length values)) = None.
Proof.
  intros values Hord. subst values. rewrite calculate_stats_unfold.
  unfold qsort. rewrite Hord. reflexivity.
Qed.

Lemma bind_some {A B : Type} (m : option A) (k : A -> option B) (b : B) :
  bind m k = Some b -> exists a, m = Some a /\ k a = Some b.
Proof.
  destruct m as [a|]; cbn [bind]; intros H; [exists a; auto | discriminate].
Qed.

(** What a returning [calculate_stats] has computed on a whole array: the
    array left is the sorted one and the record is [stats_record] of its
    three percentiles. *)
Lemma calculate_stats_inv (v0 : D) (rest : list D)
    (sorted_values : list D) (st : Stats D) :
  let values := v0 :: rest in
  let n := Z.of_nat (List.length values) in
  calculate_stats values n = Some (sorted_values, st) ->
  sorted_values = insertion_sort compare_double values
  /\ exists median q1 q3,
       get_percentile sorted_values n lit_0_50 = Some median
       /\ get_percentile sorted_values n lit_0_25 = Some q1
       /\ get_percentile sorted_values n lit_0_75 = Some q3
       /\ st = stats_record values v0 median q1 q3.
Proof.
  intros values n H. subst n values. rewrite calculate_stats_unfold in H.
  apply bind_some in H. destruct H as (sorted & Hs & H).
  apply qsort_some in Hs. destruct Hs as [_ ->].
  apply bind_some in H. destruct H as (m & Hm & H).
  apply bind_some in H. destruct H as (a & Ha & H).
  apply bind_some in H. destruct H as (b & Hb & H).
  inversion H. subst. split; [reflexivity|].
  exists m, a, b. repeat split; assumption.
Qed.

(** It returns only where the comparator is a total order on the array. *)
Lemma calculate_stats_some_order (v0 : D) (rest : list D)
    (sorted_values : list D) (st : Stats D) :
  let values := v0 :: rest in
  calculate_stats values (Z.of_nat (List.length values)) = Some (sorted_values, st) ->
  total_order_on compare_double values = true.
Proof.
  intros values H. destruct (total_order_on compare_double values) eqn:E;
    [reflexivity|].
  unfold values in H. rewrite (calculate_stats_needs_order v0 rest E) in H.
  discriminate.
Qed.

Lemma calculate_stats_some (v0 : D) (rest sorted_values : list D) (st : Stats D) :
  let values := v0 :: rest in
  calculate_stats values (Z.of_nat (List.length values)) = Some (sorted_values, st) ->
  exists median q1 q3, st = stats_record values v0 median q1 q3.
Proof.
  intros values H. destruct (calculate_stats_inv v0 rest sorted_values st H)
    as (_ & m & a & b & _ & _ & _ & E).
  now exists m, a, b.
Qed.

End EngineFacts.

(** ** Magnitude of binary64 results

    The conversions and products that compute the fractional rank in
    [get_percentile] stay non-negative and small.  [sf_below b x] says that
    [x] is a zero or a positive finite number below [2^b]; the lemmas follow
    the rounding of the specification of binary64 ([binary_round_aux]) on the
    integer mantissa. *)

Lemma digits2_pos_log2 (p : positive) :
  Zpos (digits2_pos p) = Z.log2 (Zpos p) + 1.
Proof.
  induction p as [p IH|p IH|]; simpl digits2_pos; try reflexivity.
  - rewrite Pos2Z.inj_succ, IH.
    change (Zpos p~1) with (2 * Zpos p + 1).
    rewrite Z.log2_succ_double by lia. lia.
  - rewrite Pos2Z.inj_succ, IH.
    change (Zpos p~0) with (2 * Zpos p).
    rewrite Z.log2_double by lia. lia.
Qed.

Lemma Zdigits2_nonneg_spec (m : Z) :
  0 <= m -> 0 <= Zdigits2 m /\ m < 2 ^ Zdigits2 m /\ (0 < m -> 2 ^ (Zdigits2 m - 1) <= m).
Proof.
  intros Hm. destruct m as [|p|p]; [simpl; lia| |lia].
  simpl Zdigits2. rewrite digits2_pos_log2.
  pose proof (Z.log2_spec (Zpos p) ltac:(lia)) as [H1 H2].
  pose proof (Z.log2_nonneg (Zpos p)).
  replace (Z.log2 (Zpos p) + 1 - 1) with (Z.log2 (Zpos p)) by lia.
  replace (Z.succ (Z.log2 (Zpos p))) with (Z.log2 (Zpos p) + 1) in H2 by lia.
  lia.
Qed.

Lemma shr_1_m (mrs : shr_record) :
  0 <= shr_m mrs -> shr_m (shr_1 mrs) = Z.shiftr (shr_m mrs) 1.
Proof.
  destruct mrs as [m r s]. simpl. intros Hm.
  destruct m as [|[p|p|]|p]; try reflexivity; lia.
Qed.

Lemma iter_shr_1_m (n : positive) :
  forall mrs, 0 <= shr_m mrs ->
    shr_m (SpecFloat.iter_pos shr_1 n mrs) = Z.shiftr (shr_m mrs) (Zpos n).
Proof.
  induction n as [n IH|n IH|]; intros mrs Hm; simpl SpecFloat.iter_pos.
  - assert (H1 : 0 <= shr_m (shr_1 mrs))
      by (rewrite shr_1_m by assumption; apply Z.shiftr_nonneg; assumption).
    assert (H2 : 0 <= shr_m (SpecFloat.iter_pos shr_1 n (shr_1 mrs)))
      by (rewrite IH by assumption; apply Z.shiftr_nonneg; assumption).
    rewrite IH, IH, shr_1_m by assumption.
    rewrite !Z.shiftr_shiftr by lia. f_equal. lia.
  - assert (H2 : 0 <= shr_m (SpecFloat.iter_pos shr_1 n mrs))
      by (rewrite IH by assumption; apply Z.shiftr_nonneg; assumption).
    rewrite IH, IH by assumption.
    rewrite !Z.shiftr_shiftr by lia. f_equal. lia.
  - apply shr_1_m; assumption.
Qed.

Lemma shr_record_of_loc_m m l : shr_m (shr_record_of_loc m l) = m.
Proof. destruct l as [|[| |]]; reflexivity. Qed.

(** [shr_fexp] shifts the mantissa right by the distance to the canonical
    exponent, when that distance is positive. *)
Lemma shr_fexp_spec (m e : Z) (l : location) :
  0 <= m ->
  let t := Z.max 0 (fexp prec emax (Zdigits2 m + e) - e) in
  shr_m (fst (shr_fexp prec emax m e l)) = Z.shiftr m t /\
  snd (shr_fexp prec emax m e l) = e + t.
Proof.
  intros Hm t. unfold shr_fexp, shr. subst t.
  destruct (fexp prec emax (Zdigits2 m + e) - e) as [|p|p] eqn:E; simpl fst; simpl snd.
  - rewrite shr_record_of_loc_m. simpl. split; [reflexivity | lia].
  - rewrite iter_shr_1_m by (rewrite shr_record_of_loc_m; assumption).
    rewrite shr_record_of_loc_m. rewrite Z.max_r by lia. split; reflexivity.
  - rewrite shr_record_of_loc_m. rewrite Z.max_l by lia. simpl. split; [reflexivity | lia].
Qed.

Lemma round_nearest_even_bounds (m : Z) (l : location) :
  m <= round_nearest_even m l <= m + 1.
Proof.
  destruct l as [|[| |]]; simpl; try lia.
  destruct (Z.even m); lia.
Qed.

Definition sf_below (b : Z) (x : spec_float) : Prop :=
  match x with
  | S754_zero _ => True
  | S754_finite false m e => Zpos (digits2_pos m) + e <= b
  | _ => False
  end.

Lemma fexp_binary64 (e : Z) : fexp prec emax e = Z.max (e - 53) (-1074).
Proof. reflexivity. Qed.

Lemma pow2_le_inv (a b : Z) : 0 <= b -> 2 ^ a <= 2 ^ b -> a <= b.
Proof. intros Hb H. apply (Z.pow_le_mono_r_iff 2); lia. Qed.

Lemma shiftr_pow2_bound (m t k : Z) :
  0 <= m -> 0 <= t -> 0 <= k -> m <= 2 ^ k -> 0 < Z.shiftr m t ->
  Zdigits2 (Z.shiftr m t) + t <= k + 1.
Proof.
  intros Hm Ht Hk Hle Hpos.
  destruct (Zdigits2_nonneg_spec (Z.shiftr m t)) as (Hd0 & _ & Hd); [lia|].
  specialize (Hd Hpos).
  rewrite Z.shiftr_div_pow2 in * by lia.
  assert (H2t : 0 < 2 ^ t) by (apply Z.pow_pos_nonneg; lia).
  assert (Hmul : 2 ^ t * (m / 2 ^ t) <= m) by (apply Z.mul_div_le; lia).
  set (d := Zdigits2 (m / 2 ^ t)) in *.
  assert (Hd1 : 0 <= d - 1).
  { destruct (Z.le_gt_cases 1 d); [lia|]. exfalso.
    assert (d = 0) by lia.
    assert (m / 2 ^ t < 2 ^ d) by (apply Zdigits2_nonneg_spec; lia).
    replace d with 0 in * by lia. simpl in *. lia. }
  assert (2 ^ (d - 1 + t) <= 2 ^ k).
  { rewrite Z.pow_add_r by lia. nia. }
  apply pow2_le_inv in H; lia.
Qed.

Lemma binary_round_aux_below (mx ex : Z) (lx : location) (b : Z) :
  0 < mx -> Zdigits2 mx + ex <= b -> -1074 <= b <= 1023 -> ex <= 971 ->
  sf_below (b + 1) (binary_round_aux prec emax false mx ex lx).
Proof.
  intros Hmx Hmag Hb Hex. unfold binary_round_aux.
  destruct (shr_fexp_spec mx ex lx) as [Hm1 He1]; [lia|].
  destruct (shr_fexp prec emax mx ex lx) as [mrs1 e1]. simpl fst in Hm1; simpl snd in He1.
  set (m2 := round_nearest_even (shr_m mrs1) (loc_of_shr_record mrs1)).
  pose proof (round_nearest_even_bounds (shr_m mrs1) (loc_of_shr_record mrs1)) as Hm2.
  fold m2 in Hm2.
  set (T1 := Z.max 0 (fexp prec emax (Zdigits2 mx + ex) - ex)) in *.
  assert (HT1def : T1 = Z.max 0 (Z.max (Zdigits2 mx + ex - 53) (-1074) - ex))
    by reflexivity.
  clearbody T1.
  assert (HT1 : 0 <= T1) by lia.
  assert (Hm1nn : 0 <= shr_m mrs1) by (rewrite Hm1; apply Z.shiftr_nonneg; lia).
  destruct (Zdigits2_nonneg_spec mx) as (Hd0 & Hdub & Hdlb); [lia|].
  set (d := Zdigits2 mx) in *.
  set (K := Z.max (d - T1) 0).
  assert (HK : m2 <= 2 ^ K).
  { rewrite Z.shiftr_div_pow2 in Hm1 by lia.
    assert (H2t : 0 < 2 ^ T1) by (apply Z.pow_pos_nonneg; lia).
    destruct (Z.le_gt_cases T1 d) as [Hle|Hgt].
    - unfold K. rewrite Z.max_l by lia.
      assert (shr_m mrs1 < 2 ^ (d - T1)).
      { rewrite Hm1. apply Z.div_lt_upper_bound; [lia|].
        rewrite <- Z.pow_add_r by lia. replace (T1 + (d - T1)) with d by lia. lia. }
      lia.
    - unfold K. rewrite Z.max_r by lia.
      assert (shr_m mrs1 = 0).
      { rewrite Hm1. apply Z.div_small. split; [lia|].
        apply Z.lt_le_trans with (2 ^ d); [lia|].
        apply Z.pow_le_mono_r; lia. }
      simpl. lia. }
  destruct (shr_fexp_spec m2 e1 loc_Exact) as [Hm3 He3]; [lia|].
  destruct (shr_fexp prec emax m2 e1 loc_Exact) as [mrs2 e3]. simpl fst in Hm3; simpl snd in He3.
  set (T2 := Z.max 0 (fexp prec emax (Zdigits2 m2 + e1) - e1)) in *.
  assert (HT2def : T2 = Z.max 0 (Z.max (Zdigits2 m2 + e1 - 53) (-1074) - e1))
    by reflexivity.
  clearbody T2.
  assert (HT2 : 0 <= T2) by lia.
  destruct (shr_m mrs2) as [|m3|m3] eqn:Em3; [exact I| |].
  2:{ exfalso. assert (0 <= Z.shiftr m2 T2) by (apply Z.shiftr_nonneg; lia). lia. }
  assert (HKe : K + e1 <= b).
  { unfold K. lia. }
  assert (Hd3 : Zdigits2 (Z.shiftr m2 T2) + T2 <= K + 1).
  { apply shiftr_pow2_bound; lia. }
  rewrite <- Hm3 in Hd3. simpl Zdigits2 in Hd3.
  assert (Hm2pos : 0 < m2).
  { destruct (Z.eq_dec m2 0) as [E|]; [|lia]. rewrite E, Z.shiftr_0_l in Hm3. lia. }
  assert (Hd2 : Zdigits2 m2 <= K + 1).
  { destruct (Zdigits2_nonneg_spec m2) as (_ & _ & H); [lia|]. specialize (H Hm2pos).
    assert (2 ^ (Zdigits2 m2 - 1) <= 2 ^ K) by lia.
    apply pow2_le_inv in H0; [lia | unfold K; lia]. }
  assert (He3b : e3 <= 971).
  { unfold K in *. lia. }
  change (emax - prec) with 971.
  destruct (Z.leb_spec e3 971); [|lia].
  cbn [sf_below]. lia.
Qed.

Lemma pos_iter_xO (q k : positive) :
  Zpos (Pos.iter xO q k) = Zpos q * 2 ^ Zpos k.
Proof.
  induction k as [|k IH] using Pos.peano_ind.
  - simpl. lia.
  - rewrite Pos.iter_succ, Pos2Z.inj_xO, IH, Pos2Z.inj_succ, Z.pow_succ_r by lia. lia.
Qed.

Lemma Zdigits2_mul_pow2 (m k : Z) :
  0 < m -> 0 <= k -> Zdigits2 (m * 2 ^ k) = Zdigits2 m + k.
Proof.
  intros Hm Hk.
  assert (0 < m * 2 ^ k) by (apply Z.mul_pos_pos; [lia | apply Z.pow_pos_nonneg; lia]).
  destruct m as [|p|p]; try lia.
  destruct (Z.pos p * 2 ^ k) as [|q|q] eqn:E; try lia.
  simpl Zdigits2. rewrite !digits2_pos_log2, <- E.
  rewrite Z.log2_mul_pow2 by lia. lia.
Qed.

Lemma Zdigits2_mul (a b : positive) :
  Zpos (digits2_pos (a * b)) <= Zpos (digits2_pos a) + Zpos (digits2_pos b).
Proof.
  rewrite !digits2_pos_log2, Pos2Z.inj_mul.
  pose proof (Z.log2_mul_above (Zpos a) (Zpos b) ltac:(lia) ltac:(lia)). lia.
Qed.

(** Rounding a positive integer [q * 2^e] to binary64. *)
Lemma binary_round_below (q : positive) (e b : Z) :
  Zpos (digits2_pos q) + e <= b -> -1074 <= b <= 1023 -> e <= 971 ->
  sf_below (b + 1) (binary_round prec emax false q e).
Proof.
  intros Hmag Hb He. unfold binary_round, shl_align.
  rewrite fexp_binary64.
  destruct (Z.max (Z.pos (digits2_pos q) + e - 53) (-1074) - e) as [|k|k] eqn:E.
  - apply binary_round_aux_below; simpl Zdigits2; lia.
  - apply binary_round_aux_below; simpl Zdigits2; lia.
  - apply binary_round_aux_below; try lia.
    rewrite pos_iter_xO, Zdigits2_mul_pow2 by lia. simpl Zdigits2. lia.
Qed.

Lemma binary_normalize_below (n b : Z) :
  0 <= n < 2 ^ b -> 0 <= b <= 1023 ->
  sf_below (b + 1) (binary_normalize prec emax n 0 false).
Proof.
  intros Hn Hb. destruct n as [|q|q]; [exact I| |lia].
  cbn [binary_normalize]. apply binary_round_below; try lia.
  rewrite digits2_pos_log2.
  assert (Z.log2 (Zpos q) < b) by (apply Z.log2_lt_pow2; lia). lia.
Qed.

Lemma SFmul_below (x y : spec_float) (a b : Z) :
  sf_below a x -> sf_below b y -> -1074 <= a + b <= 973 ->
  sf_below (a + b + 1) (SFmul prec emax x y).
Proof.
  intros Hx Hy Hab.
  destruct x as [sx|sx| |[|] mx ex]; try contradiction;
  destruct y as [sy|sy| |[|] my ey]; try contradiction; try exact I.
  cbn [SFmul sf_below xorb] in *.
  pose proof (Zdigits2_mul mx my).
  assert (0 < Zpos (digits2_pos mx)) by lia.
  assert (0 < Zpos (digits2_pos my)) by lia.
  apply binary_round_aux_below; simpl Zdigits2; lia.
Qed.

(** Below [2^63] this is the conversion of the processor. *)
Lemma size_t_to_double_of_uint63 (n : Z) :
  0 <= n < 2 ^ 63 -> size_t_to_double n = PrimFloat.of_uint63 (Uint63.of_Z n).
Proof.
  intros Hn. unfold size_t_to_double.
  rewrite <- (SF2Prim_Prim2SF (PrimFloat.of_uint63 (Uint63.of_Z n))).
  rewrite of_uint63_spec, Uint63.of_Z_spec, Z.mod_small; [reflexivity|].
  change Uint63.wB with (2 ^ 63). lia.
Qed.

Lemma size_t_to_double_spec (n : Z) :
  0 <= n < 2 ^ 63 ->
  Prim2SF (size_t_to_double n) = binary_normalize prec emax n 0 false.
Proof.
  intros Hn. rewrite size_t_to_double_of_uint63 by assumption.
  rewrite of_uint63_spec, Uint63.of_Z_spec, Z.mod_small; [reflexivity|].
  change Uint63.wB with (2 ^ 63). lia.
Qed.

Lemma size_t_to_double_below (n b : Z) :
  0 <= n < 2 ^ b -> 0 <= b <= 63 ->
  sf_below (b + 1) (Prim2SF (size_t_to_double n)).
Proof.
  intros Hn Hb. rewrite size_t_to_double_spec.
  - apply binary_normalize_below; lia.
  - split; [lia|]. apply Z.lt_le_trans with (2 ^ b); [lia|].
    apply Z.pow_le_mono_r; lia.
Qed.

Lemma trunc_mantissa_below (m : positive) (e b : Z) :
  0 <= b -> Zpos (digits2_pos m) + e <= b -> 0 <= trunc_mantissa m e < 2 ^ b.
Proof.
  intros Hb Hmag. unfold trunc_mantissa.
  destruct (Zdigits2_nonneg_spec (Zpos m)) as (_ & Hub & _); [lia|].
  simpl Zdigits2 in Hub.
  assert (Hd : 0 < Zpos (digits2_pos m)) by lia.
  split; [apply Z.shiftl_nonneg; lia|].
  destruct (Z.le_gt_cases 0 e) as [He|He].
  - rewrite Z.shiftl_mul_pow2 by lia.
    apply Z.lt_le_trans with (2 ^ Zpos (digits2_pos m) * 2 ^ e).
    + apply Z.mul_lt_mono_pos_r; [apply Z.pow_pos_nonneg; lia | lia].
    + rewrite <- Z.pow_add_r by lia. apply Z.pow_le_mono_r; lia.
  - rewrite Z.shiftl_div_pow2 by lia.
    assert (H2 : 0 < 2 ^ (- e)) by (apply Z.pow_pos_nonneg; lia).
    apply Z.div_lt_upper_bound; [lia|].
    apply Z.lt_le_trans with (2 ^ Zpos (digits2_pos m)); [lia|].
    rewrite <- Z.pow_add_r by lia. apply Z.pow_le_mono_r; lia.
Qed.

(** The floor of a finite binary64 value. *)
Definition floor_double (x : float) : option Z :=
  match Prim2SF x with
  | S754_zero _ => Some 0
  | S754_finite s m e => Some (Z.shiftl (cond_Zopp s (Zpos m)) e)
  | S754_infinity _ | S754_nan => None
  end.

(** On a non-negative value below [2^63] the conversion to [size_t] is
    defined and is the floor. *)
Lemma double_to_size_t_below (x : float) :
  sf_below 63 (Prim2SF x) ->
  exists k, double_to_size_t x = Some k /\ floor_double x = Some k /\ 0 <= k < 2 ^ 63.
Proof.
  unfold double_to_size_t, floor_double.
  destruct (Prim2SF x) as [s|s| |[|] m e]; simpl sf_below; try contradiction.
  - intros _. exists 0. repeat split; lia.
  - intros Hmag. pose proof (trunc_mantissa_below m e 63 ltac:(lia) Hmag) as Ht.
    exists (trunc_mantissa m e). cbn [cond_Zopp].
    unfold SIZE_MAX. destruct (Z.leb_spec (trunc_mantissa m e) (2 ^ 64 - 1)); [|lia].
    repeat split; try reflexivity; lia.
Qed.

Lemma Prim2SF_zero : Prim2SF 0 = S754_zero false.
Proof. vm_compute. reflexivity. Qed.

Lemma Prim2SF_one : Prim2SF 1 = S754_finite false 4503599627370496 (-52).
Proof. vm_compute. reflexivity. Qed.

Lemma valid_binary_digits (s : bool) (m : positive) (e : Z) :
  valid_binary (S754_finite s m e) = true ->
  Z.max (Zpos (digits2_pos m) + e - 53) (-1074) = e /\ e <= 971.
Proof.
  cbn [SpecFloat.valid_binary].
  unfold SpecFloat.bounded, SpecFloat.canonical_mantissa.
  rewrite fexp_binary64. intros H. apply andb_prop in H. destruct H as [Hc He].
  apply Z.eqb_eq in Hc. apply Z.leb_le in He. change (emax - prec) with 971 in He.
  split; assumption.
Qed.

Lemma compare_cont_not_gt (m c : positive) :
  match PosDef.Pos.compare_cont Eq m c with Gt => false | _ => true end = true ->
  (m <= c)%positive.
Proof.
  intros Hm Hgt. unfold Pos.compare in Hgt. rewrite Hgt in Hm. discriminate Hm.
Qed.

Lemma digits2_pos_le_mono (m c : positive) :
  (m <= c)%positive -> Zpos (digits2_pos m) <= Zpos (digits2_pos c).
Proof.
  intros Hle. rewrite !digits2_pos_log2.
  apply Z.add_le_mono_r, Z.log2_le_mono. exact Hle.
Qed.

(** A binary64 fraction [0 <= p <= 1] is a zero or a positive number of
    magnitude at most [2^1]. *)
Lemma fraction_below (p : float) :
  (0 <=? p)%float = true -> (p <=? 1)%float = true -> sf_below 1 (Prim2SF p).
Proof.
  rewrite !FloatAxioms.leb_spec, Prim2SF_zero, Prim2SF_one.
  pose proof (Prim2SF_valid p) as Hv.
  destruct (Prim2SF p) as [s|s| |s m e].
  - intros; exact I.
  - destruct s; cbn; discriminate.
  - cbn; discriminate.
  - destruct s; [cbn; discriminate|]. intros _.
    apply valid_binary_digits in Hv. destruct Hv as [Hc _].
    unfold SFleb, SFcompare. cbn [sf_below].
    destruct (Z.compare_spec e (-52)) as [He|He|He]; try discriminate.
    + intros Hm. subst e. apply compare_cont_not_gt in Hm.
      apply digits2_pos_le_mono in Hm.
      replace (Zpos (digits2_pos 4503599627370496)) with 53 in Hm
        by (vm_compute; reflexivity).
      clear Hc. lia.
    + intros _. lia.
Qed.

(** The fractional rank [p * (count - 1)] of a fraction [p] converts to
    [size_t], and the conversion is its floor. *)
Lemma rank_to_size_t (p : float) (n : Z) :
  (0 <=? p)%float = true -> (p <=? 1)%float = true -> 0 <= n < 2 ^ 60 ->
  exists k, double_to_size_t (p * size_t_to_double n) = Some k /\
            floor_double (p * size_t_to_double n) = Some k /\ 0 <= k < 2 ^ 63.
Proof.
  intros H0 H1 Hn. apply double_to_size_t_below.
  rewrite mul_spec. change 63 with (1 + 61 + 1).
  apply SFmul_below; [apply fraction_below; assumption | | lia].
  change 61 with (60 + 1). apply size_t_to_double_below; lia.
Qed.

(** ** Signs and order of binary64 results

    What the operations of the two loops of [calculate_stats] give on
    numbers that are not NaN, read off the specification of binary64. *)

(** [x] is not a NaN and carries the sign [s]. *)
Definition sf_signed (s : bool) (x : spec_float) : Prop :=
  match x with
  | S754_zero s' | S754_infinity s' | S754_finite s' _ _ => s' = s
  | S754_nan => False
  end.

Definition sf_not_nan (x : spec_float) : Prop :=
  match x with S754_nan => False | _ => True end.

(** Zero of either sign, a positive finite number or plus infinity. *)
Definition sf_nonneg (x : spec_float) : Prop :=
  match x with
  | S754_zero _ | S754_finite false _ _ | S754_infinity false => True
  | _ => False
  end.

Definition sf_finite (x : spec_float) : Prop :=
  match x with
  | S754_zero _ | S754_finite _ _ _ => True
  | _ => False
  end.

Lemma sf_signed_not_nan s x : sf_signed s x -> sf_not_nan x.
Proof. destruct x; simpl; auto. Qed.

Lemma sf_signed_nonneg x : sf_signed false x -> sf_nonneg x.
Proof. destruct x as [s|s| |s m e]; simpl; auto; intros ->; exact I. Qed.

Lemma binary_round_aux_signed (s : bool) (mx ex : Z) (lx : location) :
  0 <= mx -> sf_signed s (binary_round_aux prec emax s mx ex lx).
Proof.
  intros Hmx. unfold binary_round_aux.
  destruct (shr_fexp_spec mx ex lx Hmx) as [Hm1 _].
  destruct (shr_fexp prec emax mx ex lx) as [mrs1 e1]. simpl fst in Hm1.
  pose proof (round_nearest_even_bounds (shr_m mrs1) (loc_of_shr_record mrs1)) as Hm2.
  assert (H1 : 0 <= shr_m mrs1) by (rewrite Hm1; apply Z.shiftr_nonneg; exact Hmx).
  set (m2 := round_nearest_even (shr_m mrs1) (loc_of_shr_record mrs1)) in *.
  destruct (shr_fexp_spec m2 e1 loc_Exact) as [Hm3 _]; [lia|].
  destruct (shr_fexp prec emax m2 e1 loc_Exact) as [mrs2 e3]. simpl fst in Hm3.
  assert (H3 : 0 <= shr_m mrs2) by (rewrite Hm3; apply Z.shiftr_nonneg; lia).
  destruct (shr_m mrs2) as [|m3|m3]; [reflexivity| |lia].
  destruct (e3 <=? emax - prec); reflexivity.
Qed.

Lemma binary_round_signed (s : bool) (q : positive) (e : Z) :
  sf_signed s (binary_round prec emax s q e).
Proof.
  unfold binary_round.
  destruct (shl_align q e (fexp prec emax (Z.pos (digits2_pos q) + e))) as [mz ez].
  apply binary_round_aux_signed. lia.
Qed.

Lemma binary_normalize_not_nan (m e : Z) (sz : bool) :
  sf_not_nan (binary_normalize prec emax m e sz).
Proof.
  destruct m as [|q|q]; cbn [binary_normalize]; [exact I| |];
    eapply sf_signed_not_nan, binary_round_signed.
Qed.

Lemma binary_normalize_nonneg (m e : Z) :
  0 <= m -> sf_nonneg (binary_normalize prec emax m e false).
Proof.
  intros Hm. destruct m as [|q|q]; cbn [binary_normalize]; [exact I| |lia].
  apply sf_signed_nonneg, binary_round_signed.
Qed.

Lemma SFadd_not_nan (x y : spec_float) :
  sf_not_nan x -> sf_finite y -> sf_not_nan (SFadd prec emax x y).
Proof.
  destruct x as [sx|sx| |sx mx ex]; try contradiction;
  destruct y as [sy|sy| |sy my ey]; try contradiction; intros _ _;
    cbn [SFadd]; try exact I.
  - destruct sx, sy; exact I.
  - apply binary_normalize_not_nan.
Qed.

Lemma SFsub_not_nan (x y : spec_float) :
  sf_finite x -> sf_not_nan y -> sf_not_nan (SFsub prec emax x y).
Proof.
  destruct x as [sx|sx| |sx mx ex]; try contradiction;
  destruct y as [sy|sy| |sy my ey]; try contradiction; intros _ _;
    cbn [SFsub]; try exact I.
  - destruct sx, sy; exact I.
  - apply binary_normalize_not_nan.
Qed.

Lemma SFmul_square_nonneg (x : spec_float) :
  sf_not_nan x -> sf_nonneg (SFmul prec emax x x).
Proof.
  destruct x as [sx|sx| |sx mx ex]; try contradiction; intros _; cbn [SFmul];
    rewrite xorb_nilpotent; try exact I.
  apply sf_signed_nonneg, binary_round_aux_signed. lia.
Qed.

Lemma SFadd_nonneg (x y : spec_float) :
  sf_nonneg x -> sf_nonneg y -> sf_nonneg (SFadd prec emax x y).
Proof.
  destruct x as [sx|[|]| |[|] mx ex]; try contradiction;
  destruct y as [sy|[|]| |[|] my ey]; try contradiction; intros _ _;
    cbn [SFadd]; try exact I.
  - destruct sx, sy; exact I.
  - apply binary_normalize_nonneg. cbn [cond_Zopp]. lia.
Qed.

Lemma SFdiv_core_binary_nonneg (m1 m2 : positive) (e1 e2 : Z) :
  0 <= fst (fst (SFdiv_core_binary prec emax (Zpos m1) e1 (Zpos m2) e2)).
Proof.
  unfold SFdiv_core_binary.
  set (s := _ - _ - _).
  set (m' := match s with Zpos _ => Z.shiftl (Zpos m1) s | Z0 => Zpos m1 | Zneg _ => 0 end).
  assert (Hm' : 0 <= m').
  { unfold m'. destruct s; try lia. apply Z.shiftl_nonneg. lia. }
  pose proof (Z.div_pos m' (Zpos m2) Hm' ltac:(lia)) as Hq.
  unfold Z.div in Hq. destruct (Z.div_eucl m' (Zpos m2)) as [q r]. exact Hq.
Qed.

Lemma SFdiv_signed (s : bool) (x y : spec_float) :
  sf_signed s x -> (exists my ey, y = S754_finite false my ey) ->
  sf_signed s (SFdiv prec emax x y).
Proof.
  intros Hx (my & ey & ->).
  destruct x as [sx|sx| |sx mx ex]; try contradiction; cbn [sf_signed] in Hx; subst sx;
    cbn [SFdiv]; rewrite xorb_false_r; try reflexivity.
  pose proof (SFdiv_core_binary_nonneg mx my ex ey) as Hq.
  destruct (SFdiv_core_binary prec emax (Zpos mx) ex (Zpos my) ey) as [[mz ez] lz].
  apply binary_round_aux_signed. exact Hq.
Qed.

Definition sf_is_zero (x : spec_float) : bool :=
  match x with S754_zero _ => true | _ => false end.

Lemma shiftr_pos (m t : Z) : 0 < m -> 0 <= t < Zdigits2 m -> 0 < Z.shiftr m t.
Proof.
  intros Hm Ht. destruct (Zdigits2_nonneg_spec m) as (_ & _ & Hlb); [lia|].
  specialize (Hlb Hm). rewrite Z.shiftr_div_pow2 by lia.
  apply Z.div_str_pos. split; [apply Z.pow_pos_nonneg; lia|].
  apply Z.le_trans with (2 ^ (Zdigits2 m - 1)); [|exact Hlb].
  apply Z.pow_le_mono_r; lia.
Qed.

Lemma Zdigits2_pos (m : Z) : 0 < m -> 0 < Zdigits2 m.
Proof. destruct m; simpl; lia. Qed.

(** In the normal range rounding a positive mantissa does not give zero. *)
Lemma binary_round_aux_nonzero (s : bool) (mx ex : Z) (lx : location) :
  0 < mx -> -1074 <= Zdigits2 mx + ex - 53 ->
  sf_is_zero (binary_round_aux prec emax s mx ex lx) = false.
Proof.
  intros Hmx Hnormal. unfold binary_round_aux.
  destruct (shr_fexp_spec mx ex lx) as [Hm1 He1]; [lia|].
  destruct (shr_fexp prec emax mx ex lx) as [mrs1 e1]. simpl fst in Hm1; simpl snd in He1.
  pose proof (round_nearest_even_bounds (shr_m mrs1) (loc_of_shr_record mrs1)) as Hm2.
  set (m2 := round_nearest_even (shr_m mrs1) (loc_of_shr_record mrs1)) in *.
  pose proof (Zdigits2_pos mx Hmx) as Hd.
  set (T1 := Z.max 0 (fexp prec emax (Zdigits2 mx + ex) - ex)) in *.
  assert (HT1 : T1 = Z.max 0 (Zdigits2 mx - 53)).
  { unfold T1. rewrite fexp_binary64. lia. }
  clearbody T1.
  assert (H1 : 0 < shr_m mrs1) by (rewrite Hm1; apply shiftr_pos; lia).
  assert (H2 : 0 < m2) by lia.
  destruct (shr_fexp_spec m2 e1 loc_Exact) as [Hm3 _]; [lia|].
  destruct (shr_fexp prec emax m2 e1 loc_Exact) as [mrs2 e3]. simpl fst in Hm3.
  pose proof (Zdigits2_pos m2 H2) as Hd2.
  set (T2 := Z.max 0 (fexp prec emax (Zdigits2 m2 + e1) - e1)) in *.
  assert (HT2 : 0 <= T2 < Zdigits2 m2).
  { unfold T2. rewrite fexp_binary64. lia. }
  clearbody T2.
  assert (H3 : 0 < shr_m mrs2) by (rewrite Hm3; apply shiftr_pos; lia).
  destruct (shr_m mrs2) as [|m3|m3]; [lia| |lia].
  destruct (e3 <=? emax - prec); reflexivity.
Qed.

Lemma binary_round_nonzero (s : bool) (q : positive) :
  sf_is_zero (binary_round prec emax s q 0) = false.
Proof.
  unfold binary_round, shl_align. rewrite fexp_binary64.
  assert (Hd : 0 < Zpos (digits2_pos q)) by lia.
  destruct (Z.max (Z.pos (digits2_pos q) + 0 - 53) (-1074) - 0) as [|k|k] eqn:E;
    apply binary_round_aux_nonzero; try lia; simpl Zdigits2; lia.
Qed.

(** The conversion of a positive integer below [2^62] is a positive finite
    number. *)
Lemma binary_normalize_positive (n : Z) :
  0 < n < 2 ^ 62 ->
  exists m e, binary_normalize prec emax n 0 false = S754_finite false m e.
Proof.
  intros Hn.
  pose proof (binary_normalize_below n 62 ltac:(lia) ltac:(lia)) as Hb.
  destruct n as [|q|q]; try lia. cbn [binary_normalize] in *.
  pose proof (binary_round_nonzero false q) as Hz.
  destruct (binary_round prec emax false q 0) as [s|s| |[|] m e];
    try contradiction; try discriminate.
  exists m, e. reflexivity.
Qed.

(** The position of a number that is not a NaN in the order of binary64:
    the class (minus infinity, negative, zero, positive, plus infinity), then
    exponent and mantissa. *)
Definition sf_rank (x : spec_float) : Z * Z * Z :=
  match x with
  | S754_infinity true => (-2, 0, 0)
  | S754_finite true m e => (-1, - e, - Zpos m)
  | S754_zero _ | S754_nan => (0, 0, 0)
  | S754_finite false m e => (1, e, Zpos m)
  | S754_infinity false => (2, 0, 0)
  end.

Definition lex_compare (a b : Z * Z * Z) : comparison :=
  let '(a1, a2, a3) := a in
  let '(b1, b2, b3) := b in
  match a1 ?= b1 with
  | Eq => match a2 ?= b2 with Eq => a3 ?= b3 | c => c end
  | c => c
  end.

Lemma SFcompare_rank (x y : spec_float) :
  sf_not_nan x -> sf_not_nan y ->
  SFcompare x y = Some (lex_compare (sf_rank x) (sf_rank y)).
Proof.
  destruct x as [sx|sx| |sx mx ex]; try contradiction;
  destruct y as [sy|sy| |sy my ey]; try contradiction; intros _ _;
    cbn [SFcompare sf_rank lex_compare];
    try (destruct sx; reflexivity); try (destruct sy; reflexivity);
    try (destruct sx, sy; reflexivity).
  destruct sx, sy; try reflexivity.
  unfold lex_compare. change (-1 ?= -1) with Eq. cbv iota.
  change (PosDef.Pos.compare_cont Eq mx my) with (Pos.compare mx my).
  rewrite (Z.compare_opp ex ey), (Z.compare_antisym ey ex).
  destruct (ey ?= ex) eqn:E; reflexivity.
Qed.

Lemma lex_compare_refl (a : Z * Z * Z) : lex_compare a a = Eq.
Proof. destruct a as [[a1 a2] a3]. cbn. now rewrite !Z.compare_refl. Qed.

Lemma lex_compare_le_trans (a b c : Z * Z * Z) :
  lex_compare a b <> Gt -> lex_compare b c <> Gt -> lex_compare a c <> Gt.
Proof.
  destruct a as [[a1 a2] a3], b as [[b1 b2] b3], c as [[c1 c2] c3]. cbn.
  destruct (Z.compare_spec a1 b1), (Z.compare_spec b1 c1), (Z.compare_spec a1 c1);
    try lia; try congruence;
  destruct (Z.compare_spec a2 b2), (Z.compare_spec b2 c2), (Z.compare_spec a2 c2);
    try lia; try congruence;
  destruct (Z.compare_spec a3 b3), (Z.compare_spec b3 c3), (Z.compare_spec a3 c3);
    try lia; try congruence.
Qed.

Lemma SFleb_rank (x y : spec_float) :
  sf_not_nan x -> sf_not_nan y ->
  SFleb x y = true <-> lex_compare (sf_rank x) (sf_rank y) <> Gt.
Proof.
  intros Hx Hy. unfold SFleb. rewrite SFcompare_rank by assumption.
  destruct (lex_compare _ _); split; congruence.
Qed.

Lemma SFltb_rank (x y : spec_float) :
  sf_not_nan x -> sf_not_nan y ->
  SFltb x y = true <-> lex_compare (sf_rank x) (sf_rank y) = Lt.
Proof.
  intros Hx Hy. unfold SFltb. rewrite SFcompare_rank by assumption.
  destruct (lex_compare _ _); split; congruence.
Qed.

Lemma SFleb_refl (x : spec_float) : sf_not_nan x -> SFleb x x = true.
Proof.
  intros Hx. apply SFleb_rank; try assumption. rewrite lex_compare_refl. congruence.
Qed.

Lemma SFleb_trans (x y z : spec_float) :
  sf_not_nan x -> sf_not_nan y -> sf_not_nan z ->
  SFleb x y = true -> SFleb y z = true -> SFleb x z = true.
Proof.
  intros Hx Hy Hz Hxy Hyz.
  apply SFleb_rank in Hxy; try assumption. apply SFleb_rank in Hyz; try assumption.
  apply SFleb_rank; try assumption. eapply lex_compare_le_trans; eassumption.
Qed.

Lemma SFltb_leb (x y : spec_float) :
  sf_not_nan x -> sf_not_nan y -> SFltb x y = true -> SFleb x y = true.
Proof.
  intros Hx Hy H. apply SFltb_rank in H; try assumption.
  apply SFleb_rank; try assumption. congruence.
Qed.

Lemma SFleb_zero_nonneg (x : spec_float) :
  sf_nonneg x -> SFleb (S754_zero false) x = true.
Proof. destruct x as [s|[|]| |[|] m e]; simpl; try contradiction; reflexivity. Qed.

(** ** [get_percentile] on arrays of at least two elements *)

Section PercentileFacts.
Context {D : Type} {ops : DoubleOps D}.

(** The value [get_percentile] computes once the rank has been converted to
    the index [lower]. *)
Definition interpolate (sorted_values : list D) (count : Z) (index : D)
    (lower : Z) (d : D) : D :=
  let upper := lower + 1 in
  let weight := (index - of_size_t lower)%dbl in
  if upper >=? count then nth (Z.to_nat (count - 1)) sorted_values d
  else (nth (Z.to_nat lower) sorted_values d * (lit_1 - weight)
        + nth (Z.to_nat upper) sorted_values d * weight)%dbl.

Lemma get_percentile_at (sorted_values : list D) (p : D) (lower : Z) (d : D) :
  let count := Z.of_nat (List.length sorted_values) in
  2 <= count ->
  to_size_t (p * of_size_t (count - 1))%dbl = Some lower ->
  0 <= lower < 2 ^ 63 ->
  get_percentile sorted_values count p
  = Some (interpolate sorted_values count (p * of_size_t (count - 1))%dbl lower d).
Proof.
  intros count Hc Hcast Hl. unfold get_percentile, interpolate.
  destruct (Z.eqb_spec count 0); [lia|].
  destruct (Z.eqb_spec count 1); [lia|].
  rewrite Hcast. cbn [bind].
  unfold size_t_wrap. rewrite Z.mod_small by lia.
  destruct (lower + 1 >=? count) eqn:Hup.
  - apply load_in_range. lia.
  - assert (lower + 1 < count) by (rewrite Z.geb_leb in Hup; apply Z.leb_gt in Hup; lia).
    rewrite (load_in_range sorted_values lower d) by lia.
    rewrite (load_in_range sorted_values (lower + 1) d) by lia.
    reflexivity.
Qed.

End PercentileFacts.

(** Every binary64 percentile of an array of [2 <= count <= 2^60] elements is
    defined. *)
Lemma get_percentile_float (sorted_values : list float) (p : float) :
  let count := Z.of_nat (List.length sorted_values) in
  let index := (p * size_t_to_double (count - 1))%float in
  2 <= count <= 2 ^ 60 ->
  (0 <=? p)%float = true -> (p <=? 1)%float = true ->
  exists lower,
    floor_double index = Some lower /\ 0 <= lower < 2 ^ 63 /\
    get_percentile sorted_values count p
    = Some (interpolate sorted_values count index lower 0%float).
Proof.
  intros count index Hc H0 H1.
  destruct (rank_to_size_t p (count - 1) H0 H1) as (k & Hk & Hf & Hr); [lia|].
  exists k. repeat split; try assumption; try lia.
  exact (get_percentile_at sorted_values p k 0%float (proj1 Hc) Hk Hr).
Qed.

(** ** [min <= max] and [variance >= 0] in binary64 *)

Lemma is_finite_sf (x : float) : is_finite x = true -> sf_finite (Prim2SF x).
Proof. unfold is_finite. destruct (Prim2SF x); simpl; auto; discriminate. Qed.

Lemma sf_finite_not_nan (x : spec_float) : sf_finite x -> sf_not_nan x.
Proof. destruct x; simpl; auto. Qed.

Lemma sf_not_nan_signed (x : spec_float) :
  sf_not_nan x -> exists s, sf_signed s x.
Proof. destruct x as [s|s| |s m e]; simpl; try contradiction; intros _; now exists s. Qed.

Lemma sf_nonneg_not_nan (x : spec_float) : sf_nonneg x -> sf_not_nan x.
Proof. destruct x as [s|[|]| |[|] m e]; simpl; auto. Qed.

Lemma SFdiv_nonneg (x y : spec_float) :
  sf_nonneg x -> (exists my ey, y = S754_finite false my ey) ->
  sf_nonneg (SFdiv prec emax x y).
Proof.
  intros Hx Hy. destruct x as [s|[|]| |[|] m e]; try contradiction.
  - destruct Hy as (my & ey & ->). exact I.
  - apply sf_signed_nonneg, SFdiv_signed; [reflexivity | exact Hy].
  - apply sf_signed_nonneg, SFdiv_signed; [reflexivity | exact Hy].
Qed.

(** The count of a non-empty array converts to a positive finite number. *)
Lemma size_t_to_double_positive (n : Z) :
  0 < n <= 2 ^ 60 ->
  exists m e, Prim2SF (size_t_to_double n) = S754_finite false m e.
Proof.
  intros Hn. rewrite size_t_to_double_spec by lia.
  apply binary_normalize_positive. lia.
Qed.

Section FloatBounds.
Local Open Scope float_scope.

Lemma float_fold_add_not_nan (l : list float) :
  forallb is_finite l = true ->
  forall acc, sf_not_nan (Prim2SF acc) ->
              sf_not_nan (Prim2SF (fold_left PrimFloat.add l acc)).
Proof.
  induction l as [|v l IH]; intros Hfin acc Hacc; cbn [fold_left]; [exact Hacc|].
  cbn [forallb] in Hfin. apply andb_prop in Hfin. destruct Hfin as [Hv Hl].
  apply IH; [exact Hl|]. rewrite add_spec.
  apply SFadd_not_nan; [exact Hacc | apply is_finite_sf, Hv].
Qed.

Lemma float_fold_variance_nonneg (mean : float) (l : list float) :
  sf_not_nan (Prim2SF mean) -> forallb is_finite l = true ->
  forall acc, sf_nonneg (Prim2SF acc) ->
              sf_nonneg (Prim2SF (fold_left (fun acc v => acc + (v - mean) * (v - mean))
                                    l acc)).
Proof.
  intros Hmean. induction l as [|v l IH]; intros Hfin acc Hacc; cbn [fold_left];
    [exact Hacc|].
  cbn [forallb] in Hfin. apply andb_prop in Hfin. destruct Hfin as [Hv Hl].
  apply IH; [exact Hl|]. rewrite add_spec, mul_spec, sub_spec.
  apply SFadd_nonneg; [exact Hacc|].
  apply SFmul_square_nonneg, SFsub_not_nan; [apply is_finite_sf, Hv | exact Hmean].
Qed.

Lemma float_leb_refl (x : float) : sf_not_nan (Prim2SF x) -> (x <=? x) = true.
Proof. intros H. rewrite FloatAxioms.leb_spec. now apply SFleb_refl. Qed.

Lemma lex_compare_antisym (a b : Z * Z * Z) :
  lex_compare b a = CompOpp (lex_compare a b).
Proof.
  destruct a as [[a1 a2] a3], b as [[b1 b2] b3]. cbn.
  rewrite (Z.compare_antisym a1 b1), (Z.compare_antisym a2 b2),
    (Z.compare_antisym a3 b3).
  destruct (a1 ?= b1)%Z, (a2 ?= b2)%Z, (a3 ?= b3)%Z; reflexivity.
Qed.

(** On numbers that are not NaN [a < b] fails exactly when [b <= a]. *)
Lemma float_ltb_false_leb (a b : float) :
  sf_not_nan (Prim2SF a) -> sf_not_nan (Prim2SF b) ->
  (a <? b) = false -> (b <=? a) = true.
Proof.
  intros Ha Hb H. rewrite FloatAxioms.ltb_spec in H. rewrite FloatAxioms.leb_spec.
  apply SFleb_rank; try assumption.
  unfold SFltb in H. rewrite SFcompare_rank in H by assumption.
  rewrite lex_compare_antisym.
  destruct (lex_compare (sf_rank (Prim2SF a)) (sf_rank (Prim2SF b)));
    cbn [CompOpp]; congruence.
Qed.

Lemma float_leb_antisym (a b : float) :
  sf_not_nan (Prim2SF a) -> sf_not_nan (Prim2SF b) ->
  (a <=? b) = true -> (b <=? a) = true -> (a =? b) = true.
Proof.
  intros Ha Hb H1 H2. rewrite FloatAxioms.leb_spec in H1, H2.
  rewrite FloatAxioms.eqb_spec.
  apply SFleb_rank in H1; try assumption. apply SFleb_rank in H2; try assumption.
  unfold SFeqb. rewrite SFcompare_rank by assumption.
  rewrite lex_compare_antisym in H2.
  destruct (lex_compare (sf_rank (Prim2SF a)) (sf_rank (Prim2SF b)));
    cbn [CompOpp] in *; congruence.
Qed.

Lemma float_leb_trans (a b c : float) :
  sf_not_nan (Prim2SF a) -> sf_not_nan (Prim2SF b) -> sf_not_nan (Prim2SF c) ->
  (a <=? b) = true -> (b <=? c) = true -> (a <=? c) = true.
Proof.
  intros Ha Hb Hc. rewrite !FloatAxioms.leb_spec. now apply SFleb_trans.
Qed.

(** After the first loop [min] is one of the values seen and is below each of
    them; [max] is one of them and is above each of them. *)
Lemma float_fold_min_least (l : list float) :
  forallb is_finite l = true ->
  forall m0, is_finite m0 = true ->
    let m := fold_left (fun min v => if v <? min then v else min) l m0 in
    In m (m0 :: l) /\ forall x, In x (m0 :: l) -> (m <=? x) = true.
Proof.
  induction l as [|v l IH]; intros Hfin m0 Hm0; cbn [fold_left].
  - split; [now left|]. intros x [<-|[]].
    apply float_leb_refl, sf_finite_not_nan, is_finite_sf, Hm0.
  - cbn [forallb] in Hfin. apply andb_prop in Hfin. destruct Hfin as [Hv Hl].
    pose proof (sf_finite_not_nan _ (is_finite_sf v Hv)) as Hvn.
    pose proof (sf_finite_not_nan _ (is_finite_sf m0 Hm0)) as Hmn.
    set (m1 := if v <? m0 then v else m0).
    assert (Hm1 : is_finite m1 = true) by (unfold m1; destruct (v <? m0); assumption).
    assert (Hm1in : m1 = m0 \/ m1 = v) by (unfold m1; destruct (v <? m0); auto).
    assert (Hm1le : (m1 <=? m0) = true /\ (m1 <=? v) = true).
    { unfold m1. destruct (v <? m0) eqn:E.
      - split; [|now apply float_leb_refl].
        rewrite FloatAxioms.ltb_spec in E. rewrite FloatAxioms.leb_spec.
        now apply SFltb_leb.
      - split; [now apply float_leb_refl | now apply float_ltb_false_leb]. }
    destruct (IH Hl m1 Hm1) as [Hin Hle]. cbv zeta in Hin, Hle |- *.
    set (m := fold_left (fun min v => if v <? min then v else min) l m1) in *.
    assert (Hmfin : sf_not_nan (Prim2SF m)).
    { destruct Hin as [<-|Hin]; [apply sf_finite_not_nan, is_finite_sf, Hm1|].
      rewrite forallb_forall in Hl. apply sf_finite_not_nan, is_finite_sf, Hl, Hin. }
    pose proof (sf_finite_not_nan _ (is_finite_sf m1 Hm1)) as Hm1n.
    split.
    + destruct Hin as [Hin|Hin]; [|now right; right].
      rewrite <- Hin. destruct Hm1in as [-> | ->]; [now left | now right; left].
    + intros x [<-|[<-|Hx]].
      * apply float_leb_trans with m1; try assumption; [apply Hle; now left | apply Hm1le].
      * apply float_leb_trans with m1; try assumption; [apply Hle; now left | apply Hm1le].
      * apply Hle. now right.
Qed.

Lemma float_fold_max_greatest (l : list float) :
  forallb is_finite l = true ->
  forall m0, is_finite m0 = true ->
    let m := fold_left (fun max v => if max <? v then v else max) l m0 in
    In m (m0 :: l) /\ forall x, In x (m0 :: l) -> (x <=? m) = true.
Proof.
  induction l as [|v l IH]; intros Hfin m0 Hm0; cbn [fold_left].
  - split; [now left|]. intros x [<-|[]].
    apply float_leb_refl, sf_finite_not_nan, is_finite_sf, Hm0.
  - cbn [forallb] in Hfin. apply andb_prop in Hfin. destruct Hfin as [Hv Hl].
    pose proof (sf_finite_not_nan _ (is_finite_sf v Hv)) as Hvn.
    pose proof (sf_finite_not_nan _ (is_finite_sf m0 Hm0)) as Hmn.
    set (m1 := if m0 <? v then v else m0).
    assert (Hm1 : is_finite m1 = true) by (unfold m1; destruct (m0 <? v); assumption).
    assert (Hm1in : m1 = m0 \/ m1 = v) by (unfold m1; destruct (m0 <? v); auto).
    assert (Hm1le : (m0 <=? m1) = true /\ (v <=? m1) = true).
    { unfold m1. destruct (m0 <? v) eqn:E.
      - split; [|now apply float_leb_refl].
        rewrite FloatAxioms.ltb_spec in E. rewrite FloatAxioms.leb_spec.
        now apply SFltb_leb.
      - split; [now apply float_leb_refl | now apply float_ltb_false_leb]. }
    destruct (IH Hl m1 Hm1) as [Hin Hle]. cbv zeta in Hin, Hle |- *.
    set (m := fold_left (fun max v => if max <? v then v else max) l m1) in *.
    assert (Hmfin : sf_not_nan (Prim2SF m)).
    { destruct Hin as [<-|Hin]; [apply sf_finite_not_nan, is_finite_sf, Hm1|].
      rewrite forallb_forall in Hl. apply sf_finite_not_nan, is_finite_sf, Hl, Hin. }
    pose proof (sf_finite_not_nan _ (is_finite_sf m1 Hm1)) as Hm1n.
    split.
    + destruct Hin as [Hin|Hin]; [|now right; right].
      rewrite <- Hin. destruct Hm1in as [-> | ->]; [now left | now right; left].
    + intros x [<-|[<-|Hx]].
      * apply float_leb_trans with m1; try assumption; [apply Hm1le | apply Hle; now left].
      * apply float_leb_trans with m1; try assumption; [apply Hm1le | apply Hle; now left].
      * apply Hle. now right.
Qed.

End FloatBounds.

(** ** The sign of a binary64 difference *)


(** A positive mantissa whose value is above [2^-1075] does not round to
    zero, subnormal results included. *)
Lemma binary_round_aux_no_underflow (s : bool) (mx ex : Z) (lx : location) :
  0 < mx -> -1074 < Zdigits2 mx + ex ->
  sf_is_zero (binary_round_aux prec emax s mx ex lx) = false.
Proof.
  intros Hmx Hlow. unfold binary_round_aux.
  destruct (shr_fexp_spec mx ex lx) as [Hm1 He1]; [lia|].
  destruct (shr_fexp prec emax mx ex lx) as [mrs1 e1]. simpl fst in Hm1; simpl snd in He1.
  pose proof (round_nearest_even_bounds (shr_m mrs1) (loc_of_shr_record mrs1)) as Hm2.
  set (m2 := round_nearest_even (shr_m mrs1) (loc_of_shr_record mrs1)) in *.
  pose proof (Zdigits2_pos mx Hmx) as Hd.
  set (T1 := Z.max 0 (fexp prec emax (Zdigits2 mx + ex) - ex)) in *.
  assert (HT1 : T1 = Z.max 0 (Z.max (Zdigits2 mx - 53) (-1074 - ex))).
  { unfold T1. rewrite fexp_binary64. lia. }
  clearbody T1.
  assert (H1 : 0 < shr_m mrs1) by (rewrite Hm1; apply shiftr_pos; lia).
  assert (H2 : 0 < m2) by lia.
  destruct (shr_fexp_spec m2 e1 loc_Exact) as [Hm3 _]; [lia|].
  destruct (shr_fexp prec emax m2 e1 loc_Exact) as [mrs2 e3]. simpl fst in Hm3.
  pose proof (Zdigits2_pos m2 H2) as Hd2.
  set (T2 := Z.max 0 (fexp prec emax (Zdigits2 m2 + e1) - e1)) in *.
  assert (HT2 : 0 <= T2 < Zdigits2 m2).
  { unfold T2. rewrite fexp_binary64. lia. }
  clearbody T2.
  assert (H3 : 0 < shr_m mrs2) by (rewrite Hm3; apply shiftr_pos; lia).
  destruct (shr_m mrs2) as [|m3|m3]; [lia| |lia].
  destruct (e3 <=? emax - prec); reflexivity.
Qed.

Lemma binary_round_no_underflow (s : bool) (q : positive) (e : Z) :
  -1074 <= e -> sf_is_zero (binary_round prec emax s q e) = false.
Proof.
  intros He. unfold binary_round, shl_align. rewrite fexp_binary64.
  assert (Hd : 0 < Zpos (digits2_pos q)) by lia.
  destruct (Z.max (Z.pos (digits2_pos q) + e - 53) (-1074) - e) as [|k|k] eqn:E.
  - apply binary_round_aux_no_underflow; [lia|]. simpl Zdigits2. lia.
  - apply binary_round_aux_no_underflow; [lia|]. simpl Zdigits2. lia.
  - apply binary_round_aux_no_underflow; [lia|].
    rewrite pos_iter_xO.
    rewrite Zdigits2_mul_pow2 by lia. simpl Zdigits2. lia.
Qed.

(** The sign of a binary64 value: 0 for the zeros and for NaN. *)
Definition sf_sgn (x : spec_float) : Z :=
  match x with
  | S754_zero _ | S754_nan => 0
  | S754_infinity s | S754_finite s _ _ => if s then -1 else 1
  end.

Lemma binary_normalize_sgn (m e : Z) :
  -1074 <= e -> sf_sgn (binary_normalize prec emax m e false) = Z.sgn m.
Proof.
  intros He. destruct m as [|p|p]; cbn [binary_normalize Z.sgn]; [reflexivity| |].
  - pose proof (binary_round_no_underflow false p e He) as Hz.
    pose proof (binary_round_signed false p e) as Hs.
    destruct (binary_round prec emax false p e) as [s|s| |s m' e'];
      cbn in Hz, Hs |- *; try discriminate; try contradiction; subst; reflexivity.
  - pose proof (binary_round_no_underflow true p e He) as Hz.
    pose proof (binary_round_signed true p e) as Hs.
    destruct (binary_round prec emax true p e) as [s|s| |s m' e'];
      cbn in Hz, Hs |- *; try discriminate; try contradiction; subst; reflexivity.
Qed.

Lemma shl_align_fst (mx : positive) (ex ez : Z) :
  ez <= ex -> Zpos (fst (shl_align mx ex ez)) = Zpos mx * 2 ^ (ex - ez).
Proof.
  intros H. unfold shl_align.
  destruct (ez - ex) as [|d|d] eqn:E; cbn [fst]; try lia.
  - replace (ex - ez) with 0 by lia. lia.
  - rewrite pos_iter_xO. f_equal. f_equal. lia.
Qed.

Definition comparison_sgn (c : comparison) : Z :=
  match c with Lt => -1 | Eq => 0 | Gt => 1 end.

(** The mantissas of two valid numbers aligned on the smaller exponent are
    ordered as the numbers are. *)
Lemma aligned_mantissas_order (mx my : positive) (ex ey : Z) :
  valid_binary (S754_finite false mx ex) = true ->
  valid_binary (S754_finite false my ey) = true ->
  let ez := Z.min ex ey in
  Z.sgn (Zpos mx * 2 ^ (ex - ez) - Zpos my * 2 ^ (ey - ez))
  = comparison_sgn (match ex ?= ey with Eq => Zpos mx ?= Zpos my | c => c end).
Proof.
  intros Vx Vy ez.
  apply valid_binary_digits in Vx. apply valid_binary_digits in Vy.
  destruct Vx as [Cx _]. destruct Vy as [Cy _].
  destruct (Zdigits2_nonneg_spec (Zpos mx)) as (_ & Ux & Lx); [lia|].
  destruct (Zdigits2_nonneg_spec (Zpos my)) as (_ & Uy & Ly); [lia|].
  specialize (Lx ltac:(lia)). specialize (Ly ltac:(lia)).
  cbn [Zdigits2] in *.
  set (dx := Zpos (digits2_pos mx)) in *. set (dy := Zpos (digits2_pos my)) in *.
  assert (Hdx : 0 < dx) by (unfold dx; lia).
  assert (Hdy : 0 < dy) by (unfold dy; lia).
  destruct (Z.compare_spec ex ey) as [E|E|E].
  - subst ey. unfold ez. rewrite Z.min_id, Z.sub_diag. cbn [Z.pow].
    rewrite !Z.mul_1_r.
    destruct (Z.compare_spec (Zpos mx) (Zpos my)) as [E|E|E]; cbn [comparison_sgn]; lia.
  - unfold ez. rewrite Z.min_l by lia. rewrite Z.sub_diag. cbn [Z.pow].
    rewrite Z.mul_1_r. cbn [comparison_sgn].
    assert (Hdy53 : dy = 53) by lia.
    assert (Hx : Zpos mx < 2 ^ 53).
    { apply Z.lt_le_trans with (2 ^ dx); [exact Ux|]. apply Z.pow_le_mono_r; lia. }
    assert (Hy : 2 ^ 52 <= Zpos my) by (rewrite Hdy53 in Ly; exact Ly).
    assert (Hp : 2 ^ 1 <= 2 ^ (ey - ex)) by (apply Z.pow_le_mono_r; lia).
    assert (Zpos mx < Zpos my * 2 ^ (ey - ex)); [|lia].
    apply Z.lt_le_trans with (2 ^ 52 * 2 ^ 1); [exact Hx|].
    apply Z.mul_le_mono_nonneg; lia.
  - unfold ez. rewrite Z.min_r by lia. rewrite Z.sub_diag. cbn [Z.pow].
    rewrite Z.mul_1_r. cbn [comparison_sgn].
    assert (Hdx53 : dx = 53) by lia.
    assert (Hy : Zpos my < 2 ^ 53).
    { apply Z.lt_le_trans with (2 ^ dy); [exact Uy|]. apply Z.pow_le_mono_r; lia. }
    assert (Hx : 2 ^ 52 <= Zpos mx) by (rewrite Hdx53 in Lx; exact Lx).
    assert (Hp : 2 ^ 1 <= 2 ^ (ex - ey)) by (apply Z.pow_le_mono_r; lia).
    assert (Zpos my < Zpos mx * 2 ^ (ex - ey)); [|lia].
    apply Z.lt_le_trans with (2 ^ 52 * 2 ^ 1); [exact Hy|].
    apply Z.mul_le_mono_nonneg; lia.
Qed.

(** The sign of [x - y] is the comparison of [x] with [y]: neither the
    rounding of the difference nor its overflow or underflow changes it.  The
    difference of two equal infinities is a NaN, of sign 0. *)
Lemma SFsub_sgn (x y : spec_float) :
  valid_binary x = true -> valid_binary y = true ->
  sf_not_nan x -> sf_not_nan y ->
  sf_sgn (SFsub prec emax x y)
  = comparison_sgn (lex_compare (sf_rank x) (sf_rank y)).
Proof.
  intros Vx Vy Nx Ny.
  destruct x as [sx|sx| |sx mx ex]; [| |contradiction|];
    (destruct y as [sy|sy| |sy my ey]; [| |contradiction|]);
    try (destruct sx; destruct sy; reflexivity);
    try (destruct sx; reflexivity); try (destruct sy; reflexivity).
  cbn [SFsub].
  pose proof (valid_binary_digits _ _ _ Vx) as [Cx _].
  pose proof (valid_binary_digits _ _ _ Vy) as [Cy _].
  rewrite binary_normalize_sgn by lia.
  rewrite !shl_align_fst by lia.
  assert (Vx' : valid_binary (S754_finite false mx ex) = true) by exact Vx.
  assert (Vy' : valid_binary (S754_finite false my ey) = true) by exact Vy.
  destruct sx, sy; cbn [cond_Zopp sf_rank].
  - (* both negative *)
    pose proof (aligned_mantissas_order my mx ey ex Vy' Vx') as H. cbv zeta in H.
    rewrite (Z.min_comm ey ex) in H.
    replace (- (Zpos mx * 2 ^ (ex - Z.min ex ey)) - - (Zpos my * 2 ^ (ey - Z.min ex ey)))
      with (Zpos my * 2 ^ (ey - Z.min ex ey) - Zpos mx * 2 ^ (ex - Z.min ex ey)) by lia.
    rewrite H. unfold lex_compare. change (-1 ?= -1) with Eq. cbv iota.
    rewrite (Z.compare_opp ex ey), (Z.compare_opp (Zpos mx) (Zpos my)).
    reflexivity.
  - (* negative, positive *)
    assert (0 < Zpos mx * 2 ^ (ex - Z.min ex ey)) by (apply Z.mul_pos_pos; [lia|apply Z.pow_pos_nonneg; lia]).
    assert (0 < Zpos my * 2 ^ (ey - Z.min ex ey)) by (apply Z.mul_pos_pos; [lia|apply Z.pow_pos_nonneg; lia]).
    unfold lex_compare. change (-1 ?= 1) with Lt. cbv iota. cbn [comparison_sgn]. lia.
  - assert (0 < Zpos mx * 2 ^ (ex - Z.min ex ey)) by (apply Z.mul_pos_pos; [lia|apply Z.pow_pos_nonneg; lia]).
    assert (0 < Zpos my * 2 ^ (ey - Z.min ex ey)) by (apply Z.mul_pos_pos; [lia|apply Z.pow_pos_nonneg; lia]).
    unfold lex_compare. change (1 ?= -1) with Gt. cbv iota. cbn [comparison_sgn]. lia.
  - pose proof (aligned_mantissas_order mx my ex ey Vx' Vy') as H. cbv zeta in H.
    rewrite H. unfold lex_compare. change (1 ?= 1) with Eq. cbv iota. reflexivity.
Qed.

Local Open Scope float_scope.

(** No element is a NaN; on such an array [compare_double] is a total order
    ([float_total_order]). *)
Definition no_nan (values : list float) : bool :=
  forallb (fun v => negb (PrimFloat.is_nan v)) values.


Lemma SFcompare_refl (x : spec_float) :
  x <> S754_nan -> SFcompare x x = Some Eq.
Proof.
  destruct x as [s|s| |s m e]; try congruence; intros _; cbn [SFcompare].
  - reflexivity.
  - destruct s; reflexivity.
  - rewrite Z.compare_refl.
    change (PosDef.Pos.compare_cont Eq m m) with (Pos.compare m m).
    rewrite Pos.compare_refl. destruct s; reflexivity.
Qed.

Lemma is_nan_Prim2SF (x : float) :
  PrimFloat.is_nan x = true <-> Prim2SF x = S754_nan.
Proof.
  unfold PrimFloat.is_nan. rewrite FloatAxioms.eqb_spec. unfold SFeqb. split.
  - intros H. destruct (Prim2SF x) eqn:E; try reflexivity;
      rewrite SFcompare_refl in H by congruence; discriminate.
  - intros ->. reflexivity.
Qed.

Lemma SFcompare_nan_r (x : spec_float) : SFcompare x S754_nan = None.
Proof. destruct x; reflexivity. Qed.

(** A comparison [a < b] with a NaN on either side is false. *)
Lemma ltb_nan (a b : float) :
  PrimFloat.is_nan a = true \/ PrimFloat.is_nan b = true -> (a <? b) = false.
Proof.
  rewrite FloatAxioms.ltb_spec. unfold SFltb.
  intros [H | H]; apply is_nan_Prim2SF in H; rewrite H;
    [reflexivity | now rewrite SFcompare_nan_r].
Qed.

Lemma ltb_irrefl (a : float) : (a <? a) = false.
Proof.
  rewrite FloatAxioms.ltb_spec. unfold SFltb.
  destruct (Prim2SF a) eqn:E; try reflexivity;
    rewrite SFcompare_refl by congruence; reflexivity.
Qed.


(** [compare_double] in binary64 is the sign of the rounded difference. *)
Lemma compare_double_sgn (a b : float) :
  compare_double a b = sf_sgn (Prim2SF (a - b)).
Proof.
  unfold compare_double. cbn [dsub dlt lit_0 float_ops].
  rewrite !FloatAxioms.ltb_spec, Prim2SF_zero.
  destruct (Prim2SF (a - b)) as [s|s| |s m e]; try destruct s; reflexivity.
Qed.

Lemma not_nan_Prim2SF (x : float) :
  PrimFloat.is_nan x = false <-> sf_not_nan (Prim2SF x).
Proof.
  split.
  - intros H. destruct (Prim2SF x) eqn:E; cbn; auto.
    apply is_nan_Prim2SF in E. congruence.
  - intros H. destruct (PrimFloat.is_nan x) eqn:E; [|reflexivity].
    apply is_nan_Prim2SF in E. rewrite E in H. contradiction.
Qed.

(** On numbers that are no NaN [compare_double] is the comparison of
    binary64. *)
Lemma compare_double_rank (a b : float) :
  PrimFloat.is_nan a = false -> PrimFloat.is_nan b = false ->
  compare_double a b
  = comparison_sgn (lex_compare (sf_rank (Prim2SF a)) (sf_rank (Prim2SF b))).
Proof.
  intros Ha Hb. rewrite compare_double_sgn, sub_spec.
  apply SFsub_sgn; try apply Prim2SF_valid; now apply not_nan_Prim2SF.
Qed.

Lemma SFsub_nan_r (x : spec_float) : SFsub prec emax x S754_nan = S754_nan.
Proof. destruct x; reflexivity. Qed.

Lemma compare_double_nan_zero (a b : float) :
  PrimFloat.is_nan a = true \/ PrimFloat.is_nan b = true ->
  compare_double a b = 0%Z.
Proof.
  intros H. rewrite compare_double_sgn, sub_spec.
  destruct H as [H|H]; apply is_nan_Prim2SF in H; rewrite H;
    [reflexivity | now rewrite SFsub_nan_r].
Qed.

Lemma float_ltb_rank (a b : float) :
  PrimFloat.is_nan a = false -> PrimFloat.is_nan b = false ->
  (a <? b) = true <-> lex_compare (sf_rank (Prim2SF a)) (sf_rank (Prim2SF b)) = Lt.
Proof.
  intros Ha Hb. rewrite FloatAxioms.ltb_spec.
  apply SFltb_rank; now apply not_nan_Prim2SF.
Qed.

Lemma float_leb_rank (a b : float) :
  PrimFloat.is_nan a = false -> PrimFloat.is_nan b = false ->
  (a <=? b) = true <-> lex_compare (sf_rank (Prim2SF a)) (sf_rank (Prim2SF b)) <> Gt.
Proof.
  intros Ha Hb. rewrite FloatAxioms.leb_spec.
  apply SFleb_rank; now apply not_nan_Prim2SF.
Qed.

Lemma float_eqb_rank (a b : float) :
  PrimFloat.is_nan a = false -> PrimFloat.is_nan b = false ->
  (a =? b) = true <-> lex_compare (sf_rank (Prim2SF a)) (sf_rank (Prim2SF b)) = Eq.
Proof.
  intros Ha Hb. rewrite FloatAxioms.eqb_spec. unfold SFeqb.
  rewrite SFcompare_rank by now apply not_nan_Prim2SF.
  destruct (lex_compare _ _); split; intros; congruence.
Qed.

(** X11.  For numbers that are no NaN, [compare_double] returns -1, 0 or 1 as the
    first number is less than, equal to or greater than the second in
    binary64: the subtraction it is computed by never misorders two
    numbers, whether the difference rounds, overflows to an infinity or falls
    among the subnormal numbers; and swapping the arguments negates it. *)
Theorem compare_double_is_the_binary64_order :
  forall a b : float,
    PrimFloat.is_nan a = false -> PrimFloat.is_nan b = false ->
    (compare_double a b = (-1)%Z <-> (a <? b) = true)
    /\ (compare_double a b = 0%Z <-> (a =? b) = true)
    /\ (compare_double a b = 1%Z <-> (b <? a) = true)
    /\ compare_double b a = (- compare_double a b)%Z.
Proof.
  intros a b Ha Hb.
  rewrite (compare_double_rank a b Ha Hb), (compare_double_rank b a Hb Ha).
  rewrite (float_ltb_rank a b Ha Hb), (float_eqb_rank a b Ha Hb),
    (float_ltb_rank b a Hb Ha).
  rewrite (lex_compare_antisym (sf_rank (Prim2SF a)) (sf_rank (Prim2SF b))).
  destruct (lex_compare (sf_rank (Prim2SF a)) (sf_rank (Prim2SF b)));
    cbn [comparison_sgn CompOpp]; repeat split; intros; try congruence; try lia.
Qed.

Lemma compare_double_is_the_binary64_order_witness :
  (compare_double 0x1p-1074 0x1p-1073 = (-1)%Z <-> (0x1p-1074 <? 0x1p-1073) = true)
  /\ (compare_double 0x1p-1074 0x1p-1073 = 0%Z <-> (0x1p-1074 =? 0x1p-1073) = true)
  /\ (compare_double 0x1p-1074 0x1p-1073 = 1%Z <-> (0x1p-1073 <? 0x1p-1074) = true)
  /\ compare_double 0x1p-1073 0x1p-1074 = (- compare_double 0x1p-1074%float 0x1p-1073%float)%Z.
Proof.
  apply (compare_double_is_the_binary64_order 0x1p-1074 0x1p-1073); reflexivity.
Defined.

(** X12.  With a NaN on either side [compare_double] returns 0: a NaN compares
    equal to every number, also to two numbers that compare different, so
    the comparator is no total order on an array that holds a NaN beside two
    such numbers. *)
Theorem compare_double_nan_compares_equal :
  forall a x y : float,
    PrimFloat.is_nan a = true ->
    compare_double a x = 0%Z /\ compare_double x a = 0%Z
    /\ ((x <? y) = true -> compare_double x y = (-1)%Z).
Proof.
  intros a x y Ha.
  split; [apply compare_double_nan_zero; now left|].
  split; [apply compare_double_nan_zero; now right|].
  intros Hxy.
  assert (Hx : PrimFloat.is_nan x = false).
  { destruct (PrimFloat.is_nan x) eqn:E; [|reflexivity].
    rewrite ltb_nan in Hxy by now left. discriminate. }
  assert (Hy : PrimFloat.is_nan y = false).
  { destruct (PrimFloat.is_nan y) eqn:E; [|reflexivity].
    rewrite ltb_nan in Hxy by now right. discriminate. }
  rewrite (compare_double_rank x y Hx Hy).
  apply (float_ltb_rank x y Hx Hy) in Hxy. rewrite Hxy. reflexivity.
Qed.

Lemma compare_double_nan_compares_equal_witness :
  compare_double nan 1 = 0%Z /\ compare_double 1 nan = 0%Z
  /\ ((1 <? 2) = true -> compare_double 1 2 = (-1)%Z).
Proof.
  apply (compare_double_nan_compares_equal nan 1 2). reflexivity.
Defined.


Definition float_le (a b : float) : Prop := (a <=? b) = true.

Definition not_nan (v : float) : Prop := PrimFloat.is_nan v = false.

Lemma no_nan_Forall (values : list float) :
  no_nan values = true <-> Forall not_nan values.
Proof.
  unfold no_nan. rewrite forallb_forall, Forall_forall. unfold not_nan.
  split; intros H v Hv; specialize (H v Hv).
  - now apply negb_true_iff in H.
  - now apply negb_true_iff.
Qed.

Lemma compare_double_le (a b : float) :
  not_nan a -> not_nan b ->
  (compare_double a b <=? 0)%Z = true <-> float_le a b.
Proof.
  intros Ha Hb. unfold float_le.
  rewrite (compare_double_rank a b Ha Hb), (float_leb_rank a b Ha Hb), Z.leb_le.
  destruct (lex_compare _ _); cbn [comparison_sgn]; split; intros; try congruence; lia.
Qed.

Lemma float_le_total (a b : float) :
  not_nan a -> not_nan b -> float_le a b \/ float_le b a.
Proof.
  intros Ha Hb. unfold float_le.
  rewrite (float_leb_rank a b Ha Hb), (float_leb_rank b a Hb Ha).
  rewrite (lex_compare_antisym (sf_rank (Prim2SF a)) (sf_rank (Prim2SF b))).
  destruct (lex_compare _ _); cbn [CompOpp]; [left|left|right]; congruence.
Qed.

Lemma float_le_trans (a b c : float) :
  not_nan a -> not_nan b -> not_nan c ->
  float_le a b -> float_le b c -> float_le a c.
Proof.
  unfold float_le, not_nan. intros Ha Hb Hc.
  apply float_leb_trans; now apply not_nan_Prim2SF.
Qed.

Lemma qsort_insert_float_sorted (x : float) (l : list float) :
  not_nan x -> Forall not_nan l ->
  StronglySorted float_le l ->
  StronglySorted float_le (qsort_insert compare_double x l).
Proof.
  intros Hx Hl Hs. induction Hs as [|y l Hs IH Hall]; cbn [qsort_insert].
  - repeat constructor.
  - inversion Hl as [|y' l' Hy Hl' E]; subst.
    destruct (compare_double x y <=? 0)%Z eqn:E.
    + apply (compare_double_le x y Hx Hy) in E.
      constructor; [constructor; assumption|].
      constructor; [assumption|].
      rewrite Forall_forall in Hall, Hl' |- *. intros z Hz.
      apply (float_le_trans x y z Hx Hy (Hl' z Hz) E (Hall z Hz)).
    + assert (Hyx : float_le y x).
      { destruct (float_le_total x y Hx Hy) as [H|H]; [|exact H].
        apply (compare_double_le x y Hx Hy) in H. congruence. }
      constructor; [exact (IH Hl')|].
      eapply Permutation_Forall; [apply qsort_insert_perm|].
      constructor; assumption.
Qed.

Lemma insertion_sort_float_sorted (l : list float) :
  Forall not_nan l -> StronglySorted float_le (insertion_sort compare_double l).
Proof.
  induction l as [|x l IH]; cbn [insertion_sort]; [constructor|].
  intros H. inversion H as [|x' l' Hx Hl E]; subst.
  apply qsort_insert_float_sorted; [exact Hx | | exact (IH Hl)].
  eapply Permutation_Forall; [apply insertion_sort_perm | exact Hl].
Qed.

Lemma finite_not_nan (v : float) : is_finite v = true -> not_nan v.
Proof.
  intros H. apply not_nan_Prim2SF, sf_finite_not_nan, is_finite_sf, H.
Qed.

Lemma finite_no_nan (values : list float) :
  forallb is_finite values = true -> no_nan values = true.
Proof.
  intros H. apply no_nan_Forall, Forall_forall. intros x Hx.
  rewrite forallb_forall in H. apply finite_not_nan, H, Hx.
Qed.

Lemma comparison_sgn_opp (c : comparison) :
  Z.sgn (comparison_sgn c) = (- Z.sgn (comparison_sgn (CompOpp c)))%Z.
Proof. destruct c; reflexivity. Qed.

(** On an array without NaN [compare_double] is a total order: the call of
    [qsort] is defined. *)
Lemma float_total_order (values : list float) :
  no_nan values = true -> total_order_on compare_double values = true.
Proof.
  intros Hnn. apply no_nan_Forall in Hnn. rewrite Forall_forall in Hnn.
  unfold total_order_on.
  apply forallb_forall. intros x Hx. apply forallb_forall. intros y Hy.
  pose proof (Hnn x Hx) as Nx. pose proof (Hnn y Hy) as Ny.
  apply andb_true_iff. split.
  - rewrite (compare_double_rank x y Nx Ny), (compare_double_rank y x Ny Nx).
    rewrite (lex_compare_antisym (sf_rank (Prim2SF x)) (sf_rank (Prim2SF y))).
    apply Z.eqb_eq, comparison_sgn_opp.
  - apply forallb_forall. intros z Hz. pose proof (Hnn z Hz) as Nz.
    destruct (compare_double x y <=? 0)%Z eqn:Exy; [|reflexivity].
    destruct (compare_double y z <=? 0)%Z eqn:Eyz; [|reflexivity].
    cbn [andb implb].
    apply (compare_double_le x y Nx Ny) in Exy.
    apply (compare_double_le y z Ny Nz) in Eyz.
    apply (compare_double_le x z Nx Nz).
    exact (float_le_trans x y z Nx Ny Nz Exy Eyz).
Qed.

(** A NaN beside numbers that compare different breaks the order: the call
    of [qsort], and with it [calculate_stats], is undefined.  Beside numbers
    that all compare equal it does not. *)
Lemma qsort_nan_examples :
  qsort compare_double [3; nan; 1; 2] = None
  /\ calculate_stats [3; nan; 1; 2] 4 = None
  /\ total_order_on compare_double [1; nan; 1] = true
  /\ total_order_on compare_double [1; nan; 2] = false.
Proof. repeat split; vm_compute; reflexivity. Qed.

Local Close Scope float_scope.

(** [calculate_stats] returns on every non-empty array of at most [2^60]
    elements (no object of more than [2^63 - 1] bytes is ever allocated) on
    which [compare_double] is a total order, with the record [stats_record]
    of the three percentiles of the sorted array. *)
Lemma calculate_stats_float (v0 : float) (rest : list float) :
  let values := v0 :: rest in
  let n := Z.of_nat (List.length values) in
  let sorted_values := insertion_sort compare_double values in
  n <= 2 ^ 60 -> total_order_on compare_double values = true ->
  exists median q1 q3,
    get_percentile sorted_values n 0.5%float = Some median /\
    get_percentile sorted_values n 0.25%float = Some q1 /\
    get_percentile sorted_values n 0.75%float = Some q3 /\
    calculate_stats values n
    = Some (sorted_values, stats_record values v0 median q1 q3).
Proof.
  intros values n sorted_values Hlen Hord.
  pose proof (calculate_stats_sorted v0 rest Hord) as Hcs.
  cbv zeta in Hcs. fold values n sorted_values in Hcs.
  change (@lit_0_50 float float_ops) with 0.5%float in Hcs.
  change (@lit_0_25 float float_ops) with 0.25%float in Hcs.
  change (@lit_0_75 float float_ops) with 0.75%float in Hcs.
  assert (Hn : n = Z.of_nat (List.length sorted_values))
    by (unfold sorted_values; now rewrite insertion_sort_length).
  assert (Hp : forall p, (0 <=? p)%float = true -> (p <=? 1)%float = true ->
                 exists v, get_percentile sorted_values n p = Some v).
  { intros p H0 H1. destruct rest as [|v1 rest].
    - exists v0. reflexivity.
    - assert (Hc : 2 <= Z.of_nat (List.length sorted_values) <= 2 ^ 60).
      { rewrite <- Hn. split; [|exact Hlen]. unfold n, values. cbn [List.length]. lia. }
      destruct (get_percentile_float sorted_values p Hc H0 H1) as (l & _ & _ & E).
      rewrite <- Hn in E. eexists. exact E. }
  destruct (Hp 0.5%float eq_refl eq_refl) as [m E1].
  destruct (Hp 0.25%float eq_refl eq_refl) as [a E2].
  destruct (Hp 0.75%float eq_refl eq_refl) as [b E3].
  exists m, a, b. rewrite Hcs, E1, E2, E3. repeat split; reflexivity.
Qed.

Section FloatRecord.
Local Open Scope float_scope.

(** In binary64 the record of a non-empty array of finite numbers has
    [min <= max] and [variance >= 0]. *)
Lemma float_stats_bounds (v0 : float) (rest : list float) :
  let values := v0 :: rest in
  let n := Z.of_nat (List.length values) in
  (n <= 2 ^ 60)%Z -> forallb is_finite values = true ->
  exists sorted_values st,
    calculate_stats values n = Some (sorted_values, st) /\
    (min st <=? max st) = true /\ (0 <=? variance st) = true.
Proof.
  intros values n Hlen Hfin.
  destruct (calculate_stats_float v0 rest Hlen
              (float_total_order _ (finite_no_nan _ Hfin)))
    as (m & a & b & _ & _ & _ & E).
  eexists; eexists. split; [exact E|].
  cbn [min max variance stats_record]. fold values n.
  assert (Hv0 : sf_not_nan (Prim2SF v0)).
  { cbn [forallb values] in Hfin. apply andb_prop in Hfin.
    apply sf_finite_not_nan, is_finite_sf, Hfin. }
  assert (Hf0 : is_finite v0 = true)
    by (cbn [forallb values] in Hfin; apply andb_prop in Hfin; apply Hfin).
  assert (Hnn : forall x, In x (v0 :: values) -> sf_not_nan (Prim2SF x)).
  { intros x [<-|Hx]; [exact Hv0|]. rewrite forallb_forall in Hfin.
    apply sf_finite_not_nan, is_finite_sf, Hfin, Hx. }
  split.
  - destruct (float_fold_min_least values Hfin v0 Hf0) as [I1 L1].
    destruct (float_fold_max_greatest values Hfin v0 Hf0) as [I2 L2].
    cbv zeta in I1, L1, I2, L2.
    change (@min_step float float_ops) with (fun min v : float => if v <? min then v else min).
    change (@max_step float float_ops) with (fun max v : float => if max <? v then v else max).
    apply float_leb_trans with v0; auto; [apply L1 | apply L2]; now left.
  - destruct (size_t_to_double_positive n) as (mn & en & Hn).
    { split; [|exact Hlen]. unfold n, values. cbn [List.length]. lia. }
    change (@of_size_t float float_ops n) with (size_t_to_double n).
    change (@ddiv float float_ops) with PrimFloat.div.
    change (@dadd float float_ops) with PrimFloat.add.
    change (@lit_0 float float_ops) with 0.
    change (@variance_step float float_ops)
      with (fun mean acc v : float => acc + (v - mean) * (v - mean)).
    set (mean := fold_left PrimFloat.add values 0 / size_t_to_double n).
    assert (Hmean : sf_not_nan (Prim2SF mean)).
    { unfold mean. rewrite div_spec, Hn.
      pose proof (float_fold_add_not_nan values Hfin 0) as Hsum.
      rewrite Prim2SF_zero in Hsum. specialize (Hsum I).
      destruct (sf_not_nan_signed _ Hsum) as [s Hs].
      eapply sf_signed_not_nan, SFdiv_signed; [exact Hs | eauto]. }
    rewrite FloatAxioms.leb_spec, Prim2SF_zero, div_spec, Hn.
    apply SFleb_zero_nonneg, SFdiv_nonneg; [|eauto].
    apply float_fold_variance_nonneg; [exact Hmean | exact Hfin |].
    rewrite Prim2SF_zero. exact I.
Qed.

End FloatRecord.

(** ** Percentiles, variance and standard deviation in binary64 *)

Local Open Scope float_scope.

(** C1.  For every array of binary64 values with [2 <= count] (and at most
    [2^60] elements) and every fraction [0 <= p <= 1], [get_percentile]
    returns [sorted[count-1]] when [upper >= count] and
    [sorted[lower] * (1 - weight) + sorted[upper] * weight] otherwise, where
    [index = p * (count - 1)], [lower = floor index], [upper = lower + 1] and
    [weight = index - lower]; on the input [1, 2, 3, 4] [calculate_stats]
    yields median 2.5, q1 1.75 and q3 3.25. *)
Theorem get_percentile_linear_interpolation :
  (forall (sorted_values : list float) (p : float),
     let count := Z.of_nat (List.length sorted_values) in
     let index := p * size_t_to_double (count - 1) in
     (2 <= count <= 2 ^ 60)%Z ->
     (0 <=? p) = true -> (p <=? 1) = true ->
     exists lower : Z,
       floor_double index = Some lower /\
       let upper := (lower + 1)%Z in
       let weight := index - size_t_to_double lower in
       get_percentile sorted_values count p
       = Some (if (upper >=? count)%Z
               then nth (Z.to_nat (count - 1)) sorted_values 0
               else nth (Z.to_nat lower) sorted_values 0 * (1 - weight)
                    + nth (Z.to_nat upper) sorted_values 0 * weight))
  /\ (exists sorted_values st,
        calculate_stats [1; 2; 3; 4] 4 = Some (sorted_values, st) /\
        median st = 2.5 /\ q1 st = 1.75 /\ q3 st = 3.25).
Proof.
  split.
  - intros sorted_values p count index Hc H0 H1.
    destruct (get_percentile_float sorted_values p Hc H0 H1) as (lower & Hf & _ & E).
    exists lower. split; [exact Hf | exact E].
  - eexists; eexists. split; [vm_compute; reflexivity|].
    repeat split; vm_compute; reflexivity.
Qed.

Lemma get_percentile_linear_interpolation_witness :
  exists lower : Z,
    floor_double (0.25 * size_t_to_double 3) = Some lower /\
    get_percentile [1; 2; 3; 4] 4 0.25
    = Some (if (lower + 1 >=? 4)%Z then 4
            else nth (Z.to_nat lower) [1; 2; 3; 4] 0
                 * (1 - (0.25 * size_t_to_double 3 - size_t_to_double lower))
                 + nth (Z.to_nat (lower + 1)) [1; 2; 3; 4] 0
                   * (0.25 * size_t_to_double 3 - size_t_to_double lower)).
Proof.
  apply (proj1 get_percentile_linear_interpolation [1; 2; 3; 4] 0.25).
  - vm_compute. split; discriminate.
  - reflexivity.
  - reflexivity.
Defined.

(** The sum of squared deviations from [mean], accumulated from the left as
    the second loop does. *)
Definition sum_sq_dev (mean : float) (values : list float) : float :=
  fold_left (fun acc v => acc + (v - mean) * (v - mean)) values 0.

(** C2.  The second loop of [calculate_stats] accumulates the sum of squared
    deviations from the mean; in every record the function returns,
    [variance] is that sum divided by [count] (not by [count - 1]), over the
    mean [sum / count], and [stddev] is [sqrt variance].  The function returns
    on every non-empty array without NaN of at most [2^60] elements; the input
    [2, 4, 4, 4, 5, 5, 7, 9] yields mean 5, variance 4 and stddev 2. *)
Theorem calculate_stats_population_variance :
  (forall (values : list float) (mean : float),
     for_loop (variance_body values mean) 0 (List.length values) 0
     = Some (sum_sq_dev mean values))
  /\ (forall (values sorted_values : list float) (st : Stats float),
        let n := Z.of_nat (List.length values) in
        calculate_stats values n = Some (sorted_values, st) ->
        count st = n /\
        mean st = fold_left PrimFloat.add values 0 / size_t_to_double n /\
        variance st = sum_sq_dev (mean st) values / size_t_to_double n /\
        stddev st = PrimFloat.sqrt (variance st))
  /\ (forall values : list float,
        values <> [] -> (Z.of_nat (List.length values) <= 2 ^ 60)%Z ->
        no_nan values = true ->
        exists sorted_values st,
          calculate_stats values (Z.of_nat (List.length values))
          = Some (sorted_values, st))
  /\ (exists sorted_values st,
        calculate_stats [2; 4; 4; 4; 5; 5; 7; 9] 8 = Some (sorted_values, st) /\
        mean st = 5 /\ variance st = 4 /\ stddev st = 2 /\
        sum_sq_dev 5 [2; 4; 4; 4; 5; 5; 7; 9] = 32).
Proof.
  split; [|split; [|split]].
  - intros values mean. apply (variance_loop_fold (ops := float_ops)).
  - intros values sorted_values st n H. destruct values as [|v0 rest]; [discriminate|].
    destruct (calculate_stats_some v0 rest sorted_values st H) as (m & a & b & ->).
    repeat split; reflexivity.
  - intros values Hne Hlen Hnn. destruct values as [|v0 rest]; [congruence|].
    destruct (calculate_stats_float v0 rest Hlen (float_total_order _ Hnn))
      as (m & a & b & _ & _ & _ & E).
    eexists; eexists. exact E.
  - eexists; eexists. split; [vm_compute; reflexivity|].
    repeat split; vm_compute; reflexivity.
Qed.

Lemma calculate_stats_population_variance_witness :
  exists sorted_values st,
    calculate_stats [2; 4; 4; 4; 5; 5; 7; 9] 8 = Some (sorted_values, st) /\
    count st = 8%Z /\
    mean st = fold_left PrimFloat.add [2; 4; 4; 4; 5; 5; 7; 9] 0 / size_t_to_double 8 /\
    variance st = sum_sq_dev (mean st) [2; 4; 4; 4; 5; 5; 7; 9] / size_t_to_double 8 /\
    stddev st = PrimFloat.sqrt (variance st).
Proof.
  destruct (proj1 (proj2 (proj2 calculate_stats_population_variance))
              [2; 4; 4; 4; 5; 5; 7; 9]) as (sorted_values & st & E).
  - discriminate.
  - vm_compute. discriminate.
  - reflexivity.
  - exists sorted_values, st. split; [exact E|].
    exact (proj1 (proj2 calculate_stats_population_variance)
             [2; 4; 4; 4; 5; 5; 7; 9] sorted_values st E).
Defined.

(** ** Comparisons with NaN *)

(** C9.  The first loop of [calculate_stats] starts [min] and [max] at the
    first element and replaces them only by an element that is strictly
    less, respectively strictly greater, under the binary64 comparison.  A
    comparison with a NaN on either side is false, so a NaN element replaces
    nothing and a NaN first element is never replaced.  The function returns
    on every non-empty array (of at most [2^60] elements) on which the later
    call of [qsort] is defined, arrays that hold a NaN among them, and the
    [min] and [max] of the record are those the loop leaves. *)
Theorem min_max_tracking_nan_passthrough :
  (forall (v0 : float) (rest : list float),
     let values := v0 :: rest in
     for_loop (sum_min_max_body values) 0 (List.length values) (0, v0, v0)
     = Some (fold_left PrimFloat.add values 0,
             fold_left (fun min v => if v <? min then v else min) rest v0,
             fold_left (fun max v => if max <? v then v else max) rest v0))
  /\ (forall (v0 : float) (rest : list float),
        let values := v0 :: rest in
        (Z.of_nat (List.length values) <= 2 ^ 60)%Z ->
        total_order_on compare_double values = true ->
        exists (sorted_values : list float) (st : Stats float),
          calculate_stats values (Z.of_nat (List.length values))
          = Some (sorted_values, st) /\
          min st = fold_left (fun min v => if v <? min then v else min) rest v0 /\
          max st = fold_left (fun max v => if max <? v then v else max) rest v0)
  /\ (forall (v0 : float) (rest sorted_values : list float) (st : Stats float),
        calculate_stats (v0 :: rest) (Z.of_nat (List.length (v0 :: rest)))
        = Some (sorted_values, st) ->
        min st = fold_left (fun min v => if v <? min then v else min) rest v0 /\
        max st = fold_left (fun max v => if max <? v then v else max) rest v0)
  /\ (forall a b : float,
        PrimFloat.is_nan a = true \/ PrimFloat.is_nan b = true -> (a <? b) = false)
  /\ (forall sum min max v : float,
        PrimFloat.is_nan v = true ->
        sum_min_max_step (sum, min, max) v = (sum + v, min, max))
  /\ (forall sum v0 v : float,
        PrimFloat.is_nan v0 = true ->
        sum_min_max_step (sum, v0, v0) v = (sum + v, v0, v0))
  /\ for_loop (sum_min_max_body [1; nan; 2]) 0 3 (0, 1, 1) = Some (nan, 1, 2)
  /\ for_loop (sum_min_max_body [nan; 1; 2]) 0 3 (0, nan, nan) = Some (nan, nan, nan)
  /\ (exists (sorted_values : list float) (st : Stats float),
        calculate_stats [1; nan; 1] 3 = Some (sorted_values, st) /\
        sum st = nan /\ min st = 1 /\ max st = 1)
  /\ (exists (sorted_values : list float) (st : Stats float),
        calculate_stats [nan; 1] 2 = Some (sorted_values, st) /\
        sum st = nan /\ min st = nan /\ max st = nan).
Proof.
  assert (Hfold : forall (v0 : float) (rest : list float),
            fold_left min_step (v0 :: rest) v0
            = fold_left (fun min v => if v <? min then v else min) rest v0 /\
            fold_left max_step (v0 :: rest) v0
            = fold_left (fun max v => if max <? v then v else max) rest v0).
  { intros v0 rest. cbn [fold_left]. unfold min_step at 2, max_step at 2.
    change (@dlt float float_ops) with PrimFloat.ltb.
    rewrite ltb_irrefl. split; reflexivity. }
  assert (Hrec : forall (v0 : float) (rest sorted_values : list float) (st : Stats float),
            calculate_stats (v0 :: rest) (Z.of_nat (List.length (v0 :: rest)))
            = Some (sorted_values, st) ->
            min st = fold_left (fun min v => if v <? min then v else min) rest v0 /\
            max st = fold_left (fun max v => if max <? v then v else max) rest v0).
  { intros v0 rest sorted_values st H.
    destruct (calculate_stats_some v0 rest sorted_values st H) as (m & a & b & ->).
    cbn [min max stats_record]. apply Hfold. }
  split; [|split; [|split; [|split; [|split; [|split; [|split; [|split; [|split]]]]]]]].
  - intros v0 rest values. unfold values.
    rewrite (sum_min_max_loop_fold (ops := float_ops)), sum_min_max_fold.
    destruct (Hfold v0 rest) as [-> ->]. reflexivity.
  - intros v0 rest values Hlen Hord.
    destruct (calculate_stats_float v0 rest Hlen Hord) as (m & a & b & _ & _ & _ & E).
    eexists; eexists. split; [exact E|]. exact (Hrec v0 rest _ _ E).
  - exact Hrec.
  - exact ltb_nan.
  - intros sm mn mx v Hv. unfold sum_min_max_step.
    change (@dlt float float_ops) with PrimFloat.ltb.
    rewrite !ltb_nan by auto. reflexivity.
  - intros sm v0 v Hv. unfold sum_min_max_step.
    change (@dlt float float_ops) with PrimFloat.ltb.
    rewrite !ltb_nan by auto. reflexivity.
  - vm_compute. reflexivity.
  - vm_compute. reflexivity.
  - eexists; eexists. split; [vm_compute; reflexivity|].
    repeat split; vm_compute; reflexivity.
  - eexists; eexists. split; [vm_compute; reflexivity|].
    repeat split; vm_compute; reflexivity.
Qed.

Lemma min_max_tracking_nan_passthrough_witness :
  exists (sorted_values : list float) (st : Stats float),
    calculate_stats [2; nan; 2; nan] (Z.of_nat (List.length [2; nan; 2; nan]))
    = Some (sorted_values, st) /\
    min st = fold_left (fun min v => if v <? min then v else min) [nan; 2; nan] 2 /\
    max st = fold_left (fun max v => if max <? v then v else max) [nan; 2; nan] 2.
Proof.
  apply (proj1 (proj2 min_max_tracking_nan_passthrough) 2 [nan; 2; nan]).
  - vm_compute. discriminate.
  - vm_compute. reflexivity.
Defined.

Local Close Scope float_scope.

(** ** The engine over the real numbers *)

Section RealEngine.
Local Open Scope R_scope.

Lemma Rltb_true (a b : R) : Rltb a b = true <-> a < b.
Proof. unfold Rltb. destruct (Rlt_dec a b); split; intros; congruence || assumption. Qed.

Lemma Rltb_false (a b : R) : Rltb a b = false <-> b <= a.
Proof.
  unfold Rltb. destruct (Rlt_dec a b); split; intros; try congruence; lra.
Qed.

(** On reals [compare_double] is the usual three-way comparison. *)
Lemma compare_double_real_le (a b : R) :
  (compare_double a b <=? 0)%Z = true <-> a <= b.
Proof.
  unfold compare_double. cbn [dsub dlt lit_0 real_ops].
  rewrite Z.leb_le.
  destruct (Rltb 0 (a - b)) eqn:E1; destruct (Rltb (a - b) 0) eqn:E2;
    try apply Rltb_true in E1; try apply Rltb_true in E2;
    try apply Rltb_false in E1; try apply Rltb_false in E2;
    cbn [Z.b2z]; split; intros; try lra; try lia.
Qed.

Lemma compare_double_real_sgn (a b : R) :
  Z.sgn (compare_double a b) = (- Z.sgn (compare_double b a))%Z.
Proof.
  unfold compare_double. cbn [dsub dlt lit_0 real_ops].
  destruct (Rltb 0 (a - b)) eqn:E1; destruct (Rltb (a - b) 0) eqn:E2;
    destruct (Rltb 0 (b - a)) eqn:E3; destruct (Rltb (b - a) 0) eqn:E4;
    try apply Rltb_true in E1; try apply Rltb_true in E2;
    try apply Rltb_true in E3; try apply Rltb_true in E4;
    try apply Rltb_false in E1; try apply Rltb_false in E2;
    try apply Rltb_false in E3; try apply Rltb_false in E4;
    try reflexivity; exfalso; lra.
Qed.

(** On reals [compare_double] is a total order on every array: the call of
    [qsort] is always defined. *)
Lemma real_total_order (values : list R) :
  total_order_on compare_double values = true.
Proof.
  unfold total_order_on.
  apply forallb_forall. intros x _. apply forallb_forall. intros y _.
  apply andb_true_iff. split.
  - apply Z.eqb_eq, compare_double_real_sgn.
  - apply forallb_forall. intros z _.
    destruct (compare_double x y <=? 0)%Z eqn:Exy; [|reflexivity].
    destruct (compare_double y z <=? 0)%Z eqn:Eyz; [|reflexivity].
    cbn [andb implb].
    apply compare_double_real_le in Exy. apply compare_double_real_le in Eyz.
    apply compare_double_real_le. lra.
Qed.

Lemma qsort_insert_real_sorted (x : R) (l : list R) :
  StronglySorted Rle l -> StronglySorted Rle (qsort_insert compare_double x l).
Proof.
  induction 1 as [|y l Hs IH Hall]; cbn [qsort_insert].
  - repeat constructor.
  - destruct (compare_double x y <=? 0)%Z eqn:E.
    + apply compare_double_real_le in E.
      constructor; [constructor; assumption|].
      constructor; [assumption|].
      eapply Forall_impl; [|exact Hall]. intros z Hz. cbv beta in Hz. lra.
    + assert (Hyx : y <= x).
      { destruct (Rle_dec x y) as [Hle|Hnle]; [|lra].
        apply compare_double_real_le in Hle. congruence. }
      constructor; [exact IH|].
      eapply Permutation_Forall; [apply qsort_insert_perm|].
      constructor; assumption.
Qed.

Lemma insertion_sort_real_sorted (l : list R) :
  StronglySorted Rle (insertion_sort compare_double l).
Proof.
  induction l as [|x l IH]; cbn [insertion_sort]; [constructor|].
  apply qsort_insert_real_sorted, IH.
Qed.

Lemma StronglySorted_nth (l : list R) :
  StronglySorted Rle l ->
  forall (i j : nat) (d : R), (i <= j < List.length l)%nat -> nth i l d <= nth j l d.
Proof.
  induction 1 as [|x l Hs IH Hall]; intros i j d Hij; cbn [List.length] in Hij; [lia|].
  destruct i as [|i], j as [|j]; cbn [nth]; try lra; try lia.
  - rewrite Forall_forall in Hall. apply Hall, nth_In. lia.
  - apply IH. lia.
Qed.

(** Two sorted arrays with the same elements are the same array. *)
Lemma StronglySorted_perm_eq (l1 l2 : list R) :
  StronglySorted Rle l1 -> StronglySorted Rle l2 -> Permutation l1 l2 -> l1 = l2.
Proof.
  intros H1. revert l2. induction H1 as [|x l1 Hs1 IH Hall1]; intros l2 H2 Hp.
  - apply Permutation_nil in Hp. now subst.
  - destruct H2 as [|y l2 Hs2 Hall2].
    + apply Permutation_sym, Permutation_nil in Hp. discriminate.
    + assert (Hxy : x = y).
      { rewrite Forall_forall in Hall1, Hall2.
        assert (Hx : In x (y :: l2)) by (eapply Permutation_in; [exact Hp | now left]).
        assert (Hy : In y (x :: l1))
          by (eapply Permutation_in; [apply Permutation_sym; exact Hp | now left]).
        destruct Hx as [Hx|Hx]; [now subst|].
        destruct Hy as [Hy|Hy]; [now subst|].
        apply Rle_antisym; [apply Hall1, Hy | apply Hall2, Hx]. }
      subst y. f_equal. apply IH; [assumption|].
      eapply Permutation_cons_inv, Hp.
Qed.

Lemma Int_part_bounds (x : R) :
  IZR (Int_part x) <= x < IZR (Int_part x) + 1.
Proof. pose proof (base_Int_part x). lra. Qed.

Lemma Int_part_range (x : R) (n : Z) :
  0 <= x <= IZR n -> (0 <= Int_part x <= n)%Z.
Proof.
  intros Hx. pose proof (Int_part_bounds x) as Hb. split.
  - assert (IZR (-1) < IZR (Int_part x)) by (simpl; lra).
    apply lt_IZR in H. lia.
  - apply le_IZR. lra.
Qed.

Lemma Int_part_mono (x y : R) : x <= y -> (Int_part x <= Int_part y)%Z.
Proof.
  intros Hxy. pose proof (Int_part_bounds x). pose proof (Int_part_bounds y).
  assert (IZR (Int_part x) < IZR (Int_part y + 1)) by (rewrite plus_IZR; lra).
  apply lt_IZR in H1. lia.
Qed.

(** The conversion of a rank [0 <= x <= n] to [size_t] is its floor. *)
Lemma real_to_size_t_rank (x : R) (n : Z) :
  0 <= x <= IZR n -> (n < 2 ^ 63)%Z -> real_to_size_t x = Some (Int_part x).
Proof.
  intros Hx Hn. unfold real_to_size_t, Rtrunc.
  destruct (Rle_dec 0 x) as [_|Hneg]; [|lra].
  pose proof (Int_part_range x n Hx) as Hr.
  destruct (Z.leb_spec 0 (Int_part x)); [|lia].
  unfold SIZE_MAX. destruct (Z.leb_spec (Int_part x) (2 ^ 64 - 1)); [reflexivity|lia].
Qed.

(** The value of the percentile of rank [x] in a sorted array. *)
Definition real_interp (sorted_values : list R) (x : R) : R :=
  interpolate sorted_values (Z.of_nat (List.length sorted_values)) x (Int_part x) 0.

Lemma real_get_percentile (sorted_values : list R) (p : R) :
  let count := Z.of_nat (List.length sorted_values) in
  (2 <= count <= 2 ^ 60)%Z -> 0 <= p <= 1 ->
  get_percentile sorted_values count p
  = Some (real_interp sorted_values (p * IZR (count - 1))).
Proof.
  intros count Hc Hp.
  assert (Hn : 0 <= IZR (count - 1)) by (apply IZR_le; lia).
  assert (Hx : 0 <= p * IZR (count - 1) <= IZR (count - 1)) by nra.
  pose proof (Int_part_range _ _ Hx) as Hr.
  apply (get_percentile_at (ops := real_ops) sorted_values p
           (Int_part (p * IZR (count - 1))) 0).
  - lia.
  - apply real_to_size_t_rank with (n := (count - 1)%Z); [exact Hx | lia].
  - lia.
Qed.

Section SortedArray.
Variable s : list R.
Hypothesis s_sorted : StronglySorted Rle s.
Let count := Z.of_nat (List.length s).
Hypothesis s_count : (2 <= count)%Z.

Lemma sorted_nth_Z (i j : Z) :
  (0 <= i <= j)%Z -> (j < count)%Z -> nth (Z.to_nat i) s 0 <= nth (Z.to_nat j) s 0.
Proof.
  intros Hij Hj. apply StronglySorted_nth; [exact s_sorted|]. unfold count in Hj. lia.
Qed.

(** A percentile lies between the order statistics around its rank. *)
Lemma real_interp_between (x : R) :
  0 <= x <= IZR (count - 1) ->
  nth (Z.to_nat (Int_part x)) s 0 <= real_interp s x <=
  nth (Z.to_nat (Z.min (Int_part x + 1) (count - 1))) s 0.
Proof.
  intros Hx. pose proof (Int_part_range _ _ Hx) as Hr.
  pose proof (Int_part_bounds x) as Hb.
  unfold real_interp, interpolate. fold count.
  cbn [dadd dsub dmul of_size_t lit_1 real_ops].
  set (l := Int_part x) in *.
  destruct (l + 1 >=? count)%Z eqn:E.
  - rewrite Z.geb_leb in E. apply Z.leb_le in E.
    assert (l = count - 1)%Z by lia.
    rewrite Z.min_r by lia. subst l. rewrite H. lra.
  - rewrite Z.geb_leb in E. apply Z.leb_gt in E.
    rewrite Z.min_l by lia.
    pose proof (sorted_nth_Z l (l + 1) ltac:(lia) ltac:(lia)) as Hab.
    set (a := nth (Z.to_nat l) s 0) in *.
    set (b := nth (Z.to_nat (l + 1)) s 0) in *.
    nra.
Qed.

(** Percentiles grow with the rank. *)
Lemma real_interp_mono (x y : R) :
  0 <= x -> x <= y -> y <= IZR (count - 1) -> real_interp s x <= real_interp s y.
Proof.
  intros Hx Hxy Hy.
  pose proof (Int_part_range x (count - 1) ltac:(lra)) as Hrx.
  pose proof (Int_part_range y (count - 1) ltac:(lra)) as Hry.
  pose proof (Int_part_mono x y Hxy) as Hm.
  destruct (Z.eq_dec (Int_part x) (Int_part y)) as [Heq|Hne].
  - pose proof (Int_part_bounds x) as Hbx. pose proof (Int_part_bounds y) as Hby.
    unfold real_interp, interpolate. fold count.
    cbn [dadd dsub dmul of_size_t lit_1 real_ops].
    rewrite <- Heq in *. set (l := Int_part x) in *.
    destruct (l + 1 >=? count)%Z eqn:E; [lra|].
    rewrite Z.geb_leb in E. apply Z.leb_gt in E.
    pose proof (sorted_nth_Z l (l + 1) ltac:(lia) ltac:(lia)) as Hab.
    set (a := nth (Z.to_nat l) s 0) in *.
    set (b := nth (Z.to_nat (l + 1)) s 0) in *.
    nra.
  - pose proof (real_interp_between x ltac:(lra)) as [_ Hux].
    pose proof (real_interp_between y ltac:(lra)) as [Hly _].
    rewrite Z.min_l in Hux by lia.
    pose proof (sorted_nth_Z (Int_part x + 1) (Int_part y) ltac:(lia) ltac:(lia)).
    lra.
Qed.

End SortedArray.

(** The percentile [get_percentile] computes on reals. *)
Definition real_percentile (sorted_values : list R) (p : R) : R :=
  if (Z.of_nat (List.length sorted_values) =? 1)%Z then nth 0 sorted_values 0
  else real_interp sorted_values (p * IZR (Z.of_nat (List.length sorted_values) - 1)).

Lemma real_get_percentile_any (sorted_values : list R) (p : R) :
  let count := Z.of_nat (List.length sorted_values) in
  (1 <= count <= 2 ^ 60)%Z -> 0 <= p <= 1 ->
  get_percentile sorted_values count p = Some (real_percentile sorted_values p).
Proof.
  intros count Hc Hp. unfold real_percentile. fold count.
  destruct (Z.eqb_spec count 1) as [E|E].
  - unfold get_percentile. rewrite E. cbn [Z.eqb Pos.eqb].
    rewrite (load_in_range sorted_values 0 0) by (fold count; lia). reflexivity.
  - apply real_get_percentile; [fold count; lia | exact Hp].
Qed.

(** [calculate_stats] on reals returns on every non-empty array of at most
    [2^60] elements. *)
Lemma real_calculate_stats (v0 : R) (rest : list R) :
  let values := v0 :: rest in
  let n := Z.of_nat (List.length values) in
  let sorted_values := insertion_sort compare_double values in
  (n <= 2 ^ 60)%Z ->
  calculate_stats values n
  = Some (sorted_values,
          stats_record values v0 (real_percentile sorted_values (1 / 2))
            (real_percentile sorted_values (1 / 4))
            (real_percentile sorted_values (3 / 4))).
Proof.
  intros values n sorted_values Hlen.
  unfold n, values. rewrite calculate_stats_sorted by apply real_total_order.
  fold values n sorted_values.
  assert (Hn : n = Z.of_nat (List.length sorted_values))
    by (unfold sorted_values; now rewrite insertion_sort_length).
  assert (Hc : (1 <= Z.of_nat (List.length sorted_values) <= 2 ^ 60)%Z).
  { rewrite <- Hn. split; [|exact Hlen]. unfold n, values. cbn [List.length]. lia. }
  cbn [lit_0_50 lit_0_25 lit_0_75 real_ops].
  rewrite Hn.
  rewrite !real_get_percentile_any by (assumption || lra).
  reflexivity.
Qed.

(** The first loop leaves in [min] a lower bound and in [max] an upper bound
    of the start value and of every element, both taken from these values. *)
Lemma real_fold_min (l : list R) (m0 : R) :
  let m := fold_left min_step l m0 in
  In m (m0 :: l) /\ m <= m0 /\ Forall (fun x => m <= x) l.
Proof.
  revert m0. induction l as [|x l IH]; intros m0; cbn [fold_left].
  - cbv zeta. repeat split; [now left | lra | constructor].
  - specialize (IH (min_step m0 x)). cbv zeta in IH |- *.
    destruct IH as (Hin & Hle & Hall).
    set (m := fold_left min_step l (min_step m0 x)) in *.
    assert (Hstep : min_step m0 x <= m0 /\ min_step m0 x <= x /\
                    (min_step m0 x = m0 \/ min_step m0 x = x)).
    { unfold min_step. cbn [dlt real_ops]. destruct (Rltb x m0) eqn:E.
      - apply Rltb_true in E. lra.
      - apply Rltb_false in E. lra. }
    destruct Hstep as (H1 & H2 & H3).
    repeat split; [| lra | constructor; [lra | exact Hall]].
    destruct Hin as [Hin|Hin]; [|now right; right].
    rewrite <- Hin. destruct H3 as [-> | ->]; [now left | now right; left].
Qed.

Lemma real_fold_max (l : list R) (m0 : R) :
  let m := fold_left max_step l m0 in
  In m (m0 :: l) /\ m0 <= m /\ Forall (fun x => x <= m) l.
Proof.
  revert m0. induction l as [|x l IH]; intros m0; cbn [fold_left].
  - cbv zeta. repeat split; [now left | lra | constructor].
  - specialize (IH (max_step m0 x)). cbv zeta in IH |- *.
    destruct IH as (Hin & Hle & Hall).
    set (m := fold_left max_step l (max_step m0 x)) in *.
    assert (Hstep : m0 <= max_step m0 x /\ x <= max_step m0 x /\
                    (max_step m0 x = m0 \/ max_step m0 x = x)).
    { unfold max_step. cbn [dlt real_ops]. destruct (Rltb m0 x) eqn:E.
      - apply Rltb_true in E. lra.
      - apply Rltb_false in E. lra. }
    destruct Hstep as (H1 & H2 & H3).
    repeat split; [| lra | constructor; [lra | exact Hall]].
    destruct Hin as [Hin|Hin]; [|now right; right].
    rewrite <- Hin. destruct H3 as [-> | ->]; [now left | now right; left].
Qed.

Lemma real_fold_variance_nonneg (mean : R) (l : list R) (acc : R) :
  0 <= acc -> 0 <= fold_left (variance_step mean) l acc.
Proof.
  revert acc. induction l as [|x l IH]; intros acc Hacc; cbn [fold_left]; [exact Hacc|].
  apply IH. change (0 <= acc + Rsqr (x - mean)).
  pose proof (Rle_0_sqr (x - mean)). lra.
Qed.

(** In exact arithmetic the record satisfies the ordering of the quartiles
    and has a non-negative variance. *)
Lemma real_stats_ordered (v0 : R) (rest : list R) :
  let values := v0 :: rest in
  let n := Z.of_nat (List.length values) in
  (n <= 2 ^ 60)%Z ->
  exists sorted_values st,
    calculate_stats values n = Some (sorted_values, st) /\
    min st <= q1 st /\ q1 st <= median st /\ median st <= q3 st /\
    q3 st <= max st /\ 0 <= variance st.
Proof.
  intros values n Hlen.
  pose proof (real_calculate_stats v0 rest Hlen) as Hcs. cbv zeta in Hcs.
  eexists; eexists. split; [exact Hcs|].
  cbn [min q1 median q3 max variance stats_record].
  fold values n.
  set (sorted_values := insertion_sort compare_double values).
  pose proof (insertion_sort_perm compare_double values) as Hperm. fold sorted_values in Hperm.
  pose proof (insertion_sort_real_sorted values) as Hsorted. fold sorted_values in Hsorted.
  assert (Hn : n = Z.of_nat (List.length sorted_values))
    by (unfold n; now rewrite (Permutation_length Hperm)).
  destruct (real_fold_min values v0) as (_ & _ & Hmin).
  destruct (real_fold_max values v0) as (_ & _ & Hmax).
  set (mn := fold_left min_step values v0) in *.
  set (mx := fold_left max_step values v0) in *.
  assert (Hmin' : forall i, (0 <= i < n)%Z -> mn <= nth (Z.to_nat i) sorted_values 0).
  { intros i Hi. apply (Permutation_Forall Hperm) in Hmin.
    rewrite Forall_forall in Hmin. apply Hmin, nth_In. lia. }
  assert (Hmax' : forall i, (0 <= i < n)%Z -> nth (Z.to_nat i) sorted_values 0 <= mx).
  { intros i Hi. apply (Permutation_Forall Hperm) in Hmax.
    rewrite Forall_forall in Hmax. apply Hmax, nth_In. lia. }
  assert (Hvar : 0 <= fold_left (variance_step (fold_left dadd values lit_0 / of_size_t n)%dbl)
                        values lit_0 / IZR n).
  { apply Rmult_le_pos.
    - apply real_fold_variance_nonneg. cbn [lit_0 real_ops]. lra.
    - left. apply Rinv_0_lt_compat. apply IZR_lt. unfold n, values. cbn [List.length]. lia. }
  unfold real_percentile. rewrite <- Hn.
  destruct (Z.eqb_spec n 1) as [E1|E1].
  - pose proof (Hmin' 0%Z ltac:(lia)). pose proof (Hmax' 0%Z ltac:(lia)).
    cbn [Z.to_nat] in *. repeat split; try lra. exact Hvar.
  - assert (Hc : (2 <= Z.of_nat (List.length sorted_values))%Z).
    { rewrite <- Hn. unfold n, values in *. cbn [List.length] in *. lia. }
    assert (Hn1 : 1 <= IZR (n - 1)) by (apply IZR_le; lia).
    pose proof (real_interp_mono sorted_values Hsorted Hc
                  (1 / 4 * IZR (n - 1)) (1 / 2 * IZR (n - 1))) as M1.
    pose proof (real_interp_mono sorted_values Hsorted Hc
                  (1 / 2 * IZR (n - 1)) (3 / 4 * IZR (n - 1))) as M2.
    pose proof (real_interp_between sorted_values Hsorted Hc
                  (1 / 4 * IZR (n - 1))) as B1.
    pose proof (real_interp_between sorted_values Hsorted Hc
                  (3 / 4 * IZR (n - 1))) as B2.
    rewrite <- Hn in M1, M2, B1, B2.
    pose proof (Int_part_range (1 / 4 * IZR (n - 1)) (n - 1) ltac:(lra)) as R1.
    pose proof (Int_part_range (3 / 4 * IZR (n - 1)) (n - 1) ltac:(lra)) as R2.
    specialize (M1 ltac:(lra) ltac:(lra) ltac:(lra)).
    specialize (M2 ltac:(lra) ltac:(lra) ltac:(lra)).
    specialize (B1 ltac:(lra)). specialize (B2 ltac:(lra)).
    destruct B1 as [B1 _]. destruct B2 as [_ B2].
    pose proof (Hmin' (Int_part (1 / 4 * IZR (n - 1))) ltac:(lia)).
    pose proof (Hmax' (Z.min (Int_part (3 / 4 * IZR (n - 1)) + 1) (n - 1)) ltac:(lia)).
    repeat split; try lra. exact Hvar.
Qed.

(** A fold whose steps commute does not depend on the order of the list. *)
Lemma fold_left_perm {A B : Type} (f : B -> A -> B) :
  (forall b x y, f (f b x) y = f (f b y) x) ->
  forall l l', Permutation l l' -> forall b, fold_left f l b = fold_left f l' b.
Proof.
  intros Hf l l' Hp. induction Hp as [|x l l' Hp IH|x y l|l l' l'' H1 IH1 H2 IH2];
    intros b; cbn [fold_left].
  - reflexivity.
  - apply IH.
  - now rewrite Hf.
  - now rewrite IH1, IH2.
Qed.

(** In exact arithmetic the result of [calculate_stats] does not depend on
    the order of the input. *)
Lemma real_stats_permutation (values values' : list R) :
  values <> [] -> Permutation values values' ->
  (Z.of_nat (List.length values) <= 2 ^ 60)%Z ->
  calculate_stats values (Z.of_nat (List.length values))
  = calculate_stats values' (Z.of_nat (List.length values')) /\
  exists sorted_values st,
    calculate_stats values' (Z.of_nat (List.length values')) = Some (sorted_values, st).
Proof.
  intros Hne Hp Hlen.
  destruct values as [|v0 rest]; [congruence|].
  destruct values' as [|v0' rest']; [apply Permutation_sym, Permutation_nil in Hp; discriminate|].
  assert (Hl : List.length (v0' :: rest') = List.length (v0 :: rest))
    by (symmetry; apply Permutation_length, Hp).
  pose proof (real_calculate_stats v0 rest Hlen) as E1. cbv zeta in E1.
  rewrite <- Hl in Hlen.
  pose proof (real_calculate_stats v0' rest' Hlen) as E2. cbv zeta in E2.
  split; [|eexists; eexists; exact E2].
  rewrite E1, E2.
  assert (Hs : insertion_sort compare_double (v0 :: rest) = insertion_sort compare_double (v0' :: rest')).
  { apply StronglySorted_perm_eq; try apply insertion_sort_real_sorted.
    rewrite <- !insertion_sort_perm. exact Hp. }
  rewrite Hs. f_equal. f_equal. unfold stats_record. rewrite Hl.
  assert (Hsum : fold_left dadd (v0 :: rest) lit_0 = fold_left dadd (v0' :: rest') lit_0).
  { apply fold_left_perm; [|exact Hp]. intros b x y. cbn [dadd real_ops]. lra. }
  assert (Hmin : fold_left min_step (v0 :: rest) v0 = fold_left min_step (v0' :: rest') v0').
  { destruct (real_fold_min (v0 :: rest) v0) as (I1 & _ & A1).
    destruct (real_fold_min (v0' :: rest') v0') as (I2 & _ & A2).
    assert (J1 : In (fold_left min_step (v0 :: rest) v0) (v0 :: rest))
      by (destruct I1 as [<-|I1]; [now left | exact I1]).
    assert (J2 : In (fold_left min_step (v0' :: rest') v0') (v0' :: rest'))
      by (destruct I2 as [<-|I2]; [now left | exact I2]).
    rewrite Forall_forall in A1, A2.
    apply Rle_antisym.
    - apply A1. eapply Permutation_in; [apply Permutation_sym, Hp | exact J2].
    - apply A2. eapply Permutation_in; [exact Hp | exact J1]. }
  assert (Hmax : fold_left max_step (v0 :: rest) v0 = fold_left max_step (v0' :: rest') v0').
  { destruct (real_fold_max (v0 :: rest) v0) as (I1 & _ & A1).
    destruct (real_fold_max (v0' :: rest') v0') as (I2 & _ & A2).
    assert (J1 : In (fold_left max_step (v0 :: rest) v0) (v0 :: rest))
      by (destruct I1 as [<-|I1]; [now left | exact I1]).
    assert (J2 : In (fold_left max_step (v0' :: rest') v0') (v0' :: rest'))
      by (destruct I2 as [<-|I2]; [now left | exact I2]).
    rewrite Forall_forall in A1, A2.
    apply Rle_antisym.
    - apply A2. eapply Permutation_in; [exact Hp | exact J1].
    - apply A1. eapply Permutation_in; [apply Permutation_sym, Hp | exact J2]. }
  rewrite Hsum, Hmin, Hmax.
  assert (Hvar : forall mean,
             fold_left (variance_step mean) (v0 :: rest) lit_0
             = fold_left (variance_step mean) (v0' :: rest') lit_0).
  { intros mean. apply fold_left_perm; [|exact Hp].
    intros b x y. unfold variance_step. cbn [dadd dsub dmul real_ops]. lra. }
  rewrite Hvar. reflexivity.
Qed.

End RealEngine.

Local Open Scope string_scope.

(** ** Reading numbers *)

(** The numbers at the front of the stream, up to the first token that is
    no number or to the end of the stream. *)
Fixpoint leading_numbers (file : list token) : list float :=
  match file with
  | Number num :: file' => num :: leading_numbers file'
  | _ => []
  end.

Lemma leading_numbers_app (nums : list float) (file : list token) :
  leading_numbers (map Number nums ++ file) = (nums ++ leading_numbers file)%list.
Proof.
  induction nums as [|num nums IH]; cbn [map app leading_numbers]; [reflexivity|].
  now rewrite IH.
Qed.

Lemma leading_numbers_length (file : list token) :
  (List.length (leading_numbers file) <= List.length file)%nat.
Proof.
  induction file as [|[num|] file IH]; cbn [leading_numbers List.length]; lia.
Qed.

(** The loop keeps [16 <= capacity], [count <= capacity <= max 16 (2 count)]
    and a block of [capacity] cells; it ends with the numbers at the front of
    the stream appended, or with the null pointer when a request is
    refused. *)
Lemma read_loop_spec (env : Env) :
  forall (file : list token) (fuel : nat) (values : list float)
         (count capacity allocated : Z),
    (List.length file < fuel)%nat ->
    count = Z.of_nat (List.length values) ->
    (16 <= capacity)%Z -> (count <= capacity)%Z ->
    (capacity <= Z.max 16 (2 * count))%Z ->
    allocated = (capacity * sizeof_double)%Z ->
    (count + Z.of_nat (List.length (leading_numbers file)) <= 2 ^ 60)%Z ->
    let r := read_loop env fuel file values count capacity allocated in
    let ok := ReadOk (values ++ leading_numbers file)
                (count + Z.of_nat (List.length (leading_numbers file))) in
    (r = ok \/ r = ReadNull) /\ ((forall n, alloc_ok env n = true) -> r = ok).
Proof.
  induction file as [|tok file IH]; intros fuel values count capacity allocated
    Hfuel Hcount Hcap16 Hle Hmax Halloc Hbound;
    (destruct fuel as [|fuel]; [cbn [List.length] in Hfuel; lia|]).
  - cbn. rewrite app_nil_r, Z.add_0_r. split; [left|]; reflexivity.
  - destruct tok as [num|].
    2:{ cbn. rewrite app_nil_r, Z.add_0_r. split; [left|]; reflexivity. }
    cbn [leading_numbers List.length] in Hbound, Hfuel.
    rewrite Nat2Z.inj_succ in Hbound.
    cbn [read_loop fscanf_lf Z.eqb Pos.eqb leading_numbers List.length].
    unfold sizeof_double, size_t_wrap in *.
    assert (Hnn : (0 <= count)%Z) by lia.
    assert (Hnext : forall capacity' allocated',
               (16 <= capacity')%Z -> (count + 1 <= capacity')%Z ->
               (capacity' <= Z.max 16 (2 * (count + 1)))%Z ->
               allocated' = (capacity' * 8)%Z ->
               let r := read_loop env fuel file (values ++ [num]) (count + 1)
                          capacity' allocated' in
               let ok := ReadOk (values ++ num :: leading_numbers file)
                           (count + Z.of_nat (S (List.length (leading_numbers file)))) in
               (r = ok \/ r = ReadNull) /\ ((forall n, alloc_ok env n = true) -> r = ok)).
    { intros capacity' allocated' H1 H2 H3 H4.
      specialize (IH fuel (values ++ [num])%list (count + 1)%Z capacity' allocated').
      rewrite <- app_assoc in IH. cbn [app] in IH.
      replace (count + 1 + Z.of_nat (List.length (leading_numbers file)))%Z
        with (count + Z.of_nat (S (List.length (leading_numbers file))))%Z in IH by lia.
      apply IH; try assumption; try lia.
      rewrite length_app. cbn [List.length]. lia. }
    destruct (count >=? capacity)%Z eqn:Hgrow.
    + rewrite Z.geb_leb in Hgrow. apply Z.leb_le in Hgrow.
      assert (capacity = count) by lia. subst capacity.
      rewrite (Z.mod_small (count * 2)) by lia.
      rewrite (Z.mod_small (count * 2 * 8)) by lia.
      cbn [andb].
      destruct (alloc_ok env (count * 2 * 8)) eqn:Hok; cbn [negb].
      * destruct (Z.leb_spec ((count + 1) * 8) (count * 2 * 8)); [|lia].
        apply Hnext; lia.
      * split; [now right|]. intros Hall. rewrite Hall in Hok. discriminate.
    + rewrite Z.geb_leb in Hgrow. apply Z.leb_gt in Hgrow.
      cbn [andb]. subst allocated.
      destruct (Z.leb_spec ((count + 1) * 8) (capacity * 8)); [|lia].
      apply Hnext; lia.
Qed.

(** The loop sees nothing of the stream past the first token that is no
    number. *)
Lemma read_loop_prefix (env : Env) :
  forall (file : list token) (fuel fuel' : nat) (values : list float)
         (count capacity allocated : Z),
    (List.length file < fuel)%nat ->
    (List.length (leading_numbers file) < fuel')%nat ->
    read_loop env fuel file values count capacity allocated
    = read_loop env fuel' (map Number (leading_numbers file)) values count
        capacity allocated.
Proof.
  induction file as [|tok file IH]; intros fuel fuel' values count capacity allocated
    Hfuel Hfuel'; cbn [List.length leading_numbers] in *;
    (destruct fuel as [|fuel]; [lia|]); (destruct fuel' as [|fuel']; [lia|]).
  - reflexivity.
  - destruct tok as [num|]; [|reflexivity].
    cbn [List.length map] in *.
    cbn [read_loop fscanf_lf Z.eqb Pos.eqb].
    destruct (_ && _); [reflexivity|].
    destruct (_ <=? _)%Z; [|reflexivity].
    apply IH; lia.
Qed.

Lemma read_numbers_prefix (env : Env) (file : list token) :
  read_numbers env file = read_numbers env (map Number (leading_numbers file)).
Proof.
  unfold read_numbers. destruct (negb _); [reflexivity|].
  apply read_loop_prefix; [lia|]. rewrite length_map.
  pose proof (leading_numbers_length file). lia.
Qed.

(** C5.  [read_numbers] appends the numbers it parses, stops at the first
    token that is no number or at the end of the stream, and returns exactly
    the numbers read up to there with their count; what follows the first
    failed parse changes nothing, and the only failure is a refused
    allocation (up to [2^60] numbers, the largest array that can be
    allocated). *)
Theorem read_numbers_stops_at_first_failure :
  forall (env : Env) (file : list token),
    let nums := leading_numbers file in
    (Z.of_nat (List.length nums) <= 2 ^ 60)%Z ->
    (read_numbers env file = ReadOk nums (Z.of_nat (List.length nums))
     \/ read_numbers env file = ReadNull)
    /\ ((forall n, alloc_ok env n = true) ->
        read_numbers env file = ReadOk nums (Z.of_nat (List.length nums)))
    /\ (forall file', leading_numbers file' = nums ->
                      read_numbers env file' = read_numbers env file)
    /\ (forall rest, leading_numbers (map Number nums ++ Garbage :: rest) = nums).
Proof.
  intros env file nums Hlen.
  assert (H12 : (read_numbers env file = ReadOk nums (Z.of_nat (List.length nums))
                 \/ read_numbers env file = ReadNull)
                /\ ((forall n, alloc_ok env n = true) ->
                    read_numbers env file = ReadOk nums (Z.of_nat (List.length nums)))).
  { unfold read_numbers.
    change (size_t_wrap (16 * sizeof_double)) with (16 * sizeof_double)%Z.
    destruct (alloc_ok env (16 * sizeof_double)) eqn:Hok; cbn [negb].
    - pose proof (read_loop_spec env file (S (List.length file)) [] 0 16
                    (16 * sizeof_double)) as Hspec.
      cbn [app Z.add] in Hspec. apply Hspec; try reflexivity; try lia.
      exact Hlen.
    - split; [now right|].
      intros Hall. rewrite Hall in Hok. discriminate. }
  destruct H12 as [H1 H2].
  split; [exact H1|]. split; [exact H2|]. split.
  - intros file' Hf. rewrite (read_numbers_prefix env file'), Hf.
    symmetry. apply read_numbers_prefix.
  - intros rest. rewrite leading_numbers_app. cbn [leading_numbers]. apply app_nil_r.
Qed.

Lemma read_numbers_stops_at_first_failure_witness :
  (read_numbers (stdin_env [Number 1; Number 2; Garbage; Number 3])
     [Number 1; Number 2; Garbage; Number 3]
   = ReadOk [1; 2]%float 2
   \/ read_numbers (stdin_env [Number 1; Number 2; Garbage; Number 3])
        [Number 1; Number 2; Garbage; Number 3] = ReadNull).
Proof.
  apply (read_numbers_stops_at_first_failure
           (stdin_env [Number 1; Number 2; Garbage; Number 3])
           [Number 1; Number 2; Garbage; Number 3]).
  vm_compute. discriminate.
Defined.

(** ** Argument parsing and the main program *)

Definition default_config : Config :=
  {| json_output := 0; precision := 4; input_file := None |}.

(** The input [main] reads: the file named on the command line, or standard
    input. *)
Definition selected_input (env : Env) (config : Config) : option (list token) :=
  match input_file config with
  | Some name => fopen_r env name
  | None => Some (stdin env)
  end.

(** [parse_args] writes to standard output only before it exits. *)
Lemma parse_args_from_out (program_name : string) :
  forall (n : nat) (args : list string) (config config' : Config) (s s' : Streams),
    (List.length args <= n)%nat ->
    parse_args_from program_name args config s = Returns config' s' ->
    out s' = out s.
Proof.
  induction n as [|n IH]; intros args config config' s s' Hn Hret.
  - destruct args; [|cbn [List.length] in Hn; lia].
    cbn in Hret. now inversion Hret.
  - destruct args as [|arg args]; [cbn in Hret; now inversion Hret|].
    cbn [List.length] in Hn. cbn [parse_args_from] in Hret.
    destruct (_ || _) in Hret.
    { unfold seq, exit in Hret. destruct (print_help program_name s); discriminate. }
    destruct (_ || _) in Hret.
    { eapply IH; [|exact Hret]. lia. }
    destruct (_ || _) in Hret.
    { destruct args as [|value args]; [discriminate|].
      cbn [List.length] in Hn.
      destruct (atoi value) as [p|]; [|discriminate].
      destruct (_ || _)%bool in Hret.
      - unfold seq, fprintf_stderr in Hret.
        apply IH in Hret; [exact Hret | lia].
      - eapply IH; [|exact Hret]. lia. }
    destruct (match arg with String "-" _ => true | _ => false end) in Hret;
      [discriminate|].
    destruct (input_file config); [discriminate|].
    eapply IH; [|exact Hret]. lia.
Qed.

Lemma main_after_parse (env : Env) (argv : list string) (config : Config)
    (s0 : Streams) (file : list token) :
  parse_args argv default_config no_output = Returns config s0 ->
  selected_input env config = Some file ->
  main env argv no_output =
    match read_numbers env file with
    | ReadUndefined => Undefined
    | ReadNull => Exits 1 {| out := out s0; err := err s0 ++ allocation_error |}
    | ReadOk values count =>
        if (count =? 0)%Z
        then Exits 1 {| out := out s0; err := err s0 ++ no_numbers_error |}
        else
          match calculate_stats values count with
          | None => Undefined
          | Some (_, stats) =>
              match (if (json_output config =? 0)%Z
                     then print_stats_text (nan_sign env) stats (precision config)
                     else print_stats_json (nan_sign env) stats (precision config)) s0 with
              | Returns _ s => Returns 0%Z s
              | Exits code s => Exits code s
              | Undefined => Undefined
              end
          end
    end.
Proof.
  intros Hparse Hfile. unfold main, seq at 1.
  change {| json_output := 0; precision := 4; input_file := None |} with default_config.
  rewrite Hparse. unfold seq at 1.
  unfold selected_input in Hfile.
  assert (Hsel : match input_file config with
                 | Some name =>
                     match fopen_r env name with
                     | Some file => ret file
                     | None =>
                         (fprintf_stderr ("Error: Cannot open file '" ++ name ++ "'" ++ LF) ;;
                          exit 1)%prog
                     end
                 | None => ret (stdin env)
                 end s0 = Returns file s0).
  { destruct (input_file config) as [name|].
    - rewrite Hfile. reflexivity.
    - inversion Hfile. reflexivity. }
  rewrite Hsel.
  destruct (read_numbers env file) as [values count| |]; try reflexivity.
  destruct (count =? 0)%Z; [reflexivity|].
  destruct (calculate_stats values count) as [[sorted_values stats]|]; reflexivity.
Qed.

(** C6.  When the stream starts with no number (it is empty or starts with
    input that is no number) [read_numbers] returns an array with count 0
    unless the allocation is refused; [main] then ends with status 1 and the
    message "No valid numbers found" on standard error, a message different
    from that of a refused allocation, and writes nothing on standard
    output: no statistics are computed or printed. *)
Theorem no_valid_numbers_reported :
  forall (env : Env) (argv : list string) (config : Config) (s0 : Streams)
         (file : list token),
    parse_args argv default_config no_output = Returns config s0 ->
    selected_input env config = Some file ->
    leading_numbers file = [] ->
    (alloc_ok env (16 * sizeof_double) = true ->
     read_numbers env file = ReadOk [] 0 /\
     run env argv = Some (1, {| out := ""; err := err s0 ++ no_numbers_error |}))
    /\ (alloc_ok env (16 * sizeof_double) = false ->
        read_numbers env file = ReadNull /\
        run env argv = Some (1, {| out := ""; err := err s0 ++ allocation_error |}))
    /\ no_numbers_error <> allocation_error.
Proof.
  intros env argv config s0 file Hparse Hfile Hnone.
  assert (Hout : out s0 = "").
  { unfold parse_args in Hparse. destruct argv as [|program_name args].
    - now inversion Hparse.
    - apply (parse_args_from_out program_name (List.length args)) in Hparse;
        [exact Hparse | lia]. }
  pose proof (main_after_parse env argv config s0 file Hparse Hfile) as Hmain.
  unfold run. rewrite Hmain, Hout.
  assert (Hread : read_numbers env file
                  = if alloc_ok env (16 * sizeof_double) then ReadOk [] 0 else ReadNull).
  { rewrite read_numbers_prefix, Hnone. unfold read_numbers.
    change (size_t_wrap (16 * sizeof_double)) with (16 * sizeof_double)%Z.
    destruct (alloc_ok env (16 * sizeof_double)); reflexivity. }
  rewrite Hread.
  split; [|split].
  - intros Hok. rewrite Hok. split; reflexivity.
  - intros Hno. rewrite Hno. split; reflexivity.
  - vm_compute. discriminate.
Qed.

Lemma no_valid_numbers_reported_witness :
  read_numbers (stdin_env [Garbage; Number 1]) [Garbage; Number 1] = ReadOk [] 0 /\
  run (stdin_env [Garbage; Number 1]) ["numstat"; "-j"]
  = Some (1, {| out := ""; err := "" ++ no_numbers_error |}).
Proof.
  apply (no_valid_numbers_reported (stdin_env [Garbage; Number 1]) ["numstat"; "-j"]
           {| json_output := 1; precision := 4; input_file := None |}
           no_output [Garbage; Number 1]); reflexivity.
Defined.

(** [main] depends on its arguments through [parse_args] only. *)
Lemma main_parse_args (env : Env) (argv argv' : list string) (s s' : Streams) :
  parse_args argv default_config s = parse_args argv' default_config s' ->
  main env argv s = main env argv' s'.
Proof.
  intros H. unfold main.
  change {| json_output := 0; precision := 4; input_file := None |} with default_config.
  unfold seq at 1 3. now rewrite H.
Qed.

Definition with_precision (config : Config) (p : Z) : Config :=
  {| json_output := json_output config; precision := p;
     input_file := input_file config |}.

Definition is_precision_flag (arg : string) : Prop :=
  arg = "-p" \/ arg = "--precision".

(** One step of the loop on [-p value] when [atoi value] is defined. *)
Lemma parse_precision_step (program_name flag value : string) (n : Z)
    (args : list string) (config : Config) (s : Streams) :
  is_precision_flag flag -> atoi value = Some n ->
  parse_args_from program_name (flag :: value :: args) config s
  = if ((n <? 0) || (n >? 10))%Z
    then parse_args_from program_name args (with_precision config 4)
           {| out := out s; err := err s ++ precision_warning |}
    else parse_args_from program_name args (with_precision config n) s.
Proof.
  intros [-> | ->] Hatoi; cbn [parse_args_from String.eqb Ascii.eqb Bool.eqb orb];
    rewrite Hatoi; destruct (_ || _)%bool; reflexivity.
Qed.

(** The integer that the start of a string denotes for [atoi]: optional
    white space, an optional sign and the decimal digits that follow; 0 when
    there is no digit. *)
Definition integer_value (s : string) : Z :=
  match skip_spaces s with
  | String "-" r => (- digits_value r 0)%Z
  | String "+" r => digits_value r 0
  | r => digits_value r 0
  end.

(** [atoi] returns that integer when it is an [int]. *)
Lemma atoi_integer_value (s : string) :
  atoi s = if ((INT_MIN <=? integer_value s) && (integer_value s <=? INT_MAX))%Z
           then Some (integer_value s) else None.
Proof.
  unfold atoi, integer_value.
  destruct (skip_spaces s) as [|c r]; [reflexivity|].
  destruct c as [[] [] [] [] [] [] [] []]; reflexivity.
Qed.

Lemma atoi_none (s : string) :
  atoi s = None <-> (integer_value s < INT_MIN \/ INT_MAX < integer_value s)%Z.
Proof.
  rewrite atoi_integer_value.
  destruct (Z.leb_spec INT_MIN (integer_value s));
    destruct (Z.leb_spec (integer_value s) INT_MAX); cbn [andb];
    split; try discriminate; try reflexivity; lia.
Qed.

(** On [-p value] with a value that is no [int] the call of [atoi] has no
    defined behaviour, and so has the program. *)
Lemma parse_precision_undefined (program_name flag value : string)
    (args : list string) (config : Config) (s : Streams) :
  is_precision_flag flag -> atoi value = None ->
  parse_args_from program_name (flag :: value :: args) config s = Undefined.
Proof.
  intros [-> | ->] Hatoi; cbn [parse_args_from String.eqb Ascii.eqb Bool.eqb orb];
    rewrite Hatoi; reflexivity.
Qed.

(** C8, as the code has it.  A precision argument whose integer value is an
    [int] outside 0..10 is replaced by the default 4 with a warning on
    standard error; parsing goes on with the arguments that follow, and the
    run is that of [-p 4] with the warning already written: on a stream of
    numbers the statistics are computed and printed with four decimals and
    the status is 0.  For a value that is no [int] the program has no
    defined behaviour. *)
Theorem out_of_range_precision_defaults :
  forall (program_name flag value : string) (args : list string),
    is_precision_flag flag ->
    (forall n : Z,
       atoi value = Some n -> (n < 0 \/ 10 < n)%Z ->
       (forall (config : Config) (s : Streams),
          parse_args_from program_name (flag :: value :: args) config s
          = parse_args_from program_name args (with_precision config 4)
              {| out := out s; err := err s ++ precision_warning |})
       /\ (forall env : Env,
             main env (program_name :: flag :: value :: args) no_output
             = main env (program_name :: flag :: "4" :: args)
                 {| out := ""; err := precision_warning |}))
    /\ (atoi value = None ->
        (forall (config : Config) (s : Streams),
           parse_args_from program_name (flag :: value :: args) config s = Undefined)
        /\ (forall env : Env,
              run env (program_name :: flag :: value :: args) = None))
    /\ (atoi value = None
        <-> (integer_value value < INT_MIN \/ INT_MAX < integer_value value)%Z)
    /\ atoi "15" = Some 15%Z
    /\ run (stdin_env [Number 1; Number 2; Number 3; Number 4]) ["numstat"; "-p"; "15"]
       = Some (0%Z,
               {| out := "Statistics for 4 numbers:" ++ LF
                         ++ "  Sum:     10.0000" ++ LF
                         ++ "  Mean:    2.5000" ++ LF
                         ++ "  Median:  2.5000" ++ LF
                         ++ "  Minimum: 1.0000" ++ LF
                         ++ "  Maximum: 4.0000" ++ LF
                         ++ "  Range:   3.0000" ++ LF
                         ++ "  Q1:      1.7500" ++ LF
                         ++ "  Q3:      3.2500" ++ LF
                         ++ "  StdDev:  1.1180" ++ LF;
                  err := precision_warning |}).
Proof.
  intros program_name flag value args Hflag.
  split; [|split; [|split; [|split]]].
  - intros n Hatoi Hrange.
    assert (Hbad : ((n <? 0) || (n >? 10))%Z = true).
    { apply orb_true_iff. rewrite Z.ltb_lt, Z.gtb_ltb, Z.ltb_lt. lia. }
    assert (Hstep : forall config s,
               parse_args_from program_name (flag :: value :: args) config s
               = parse_args_from program_name args (with_precision config 4)
                   {| out := out s; err := err s ++ precision_warning |}).
    { intros config s. rewrite (parse_precision_step _ _ _ n) by assumption.
      now rewrite Hbad. }
    split; [exact Hstep|].
    intros env. apply main_parse_args. cbn [parse_args].
    rewrite Hstep.
    rewrite (parse_precision_step program_name flag "4" 4) by (assumption || reflexivity).
    reflexivity.
  - intros Hatoi. split.
    + intros config s. now apply parse_precision_undefined.
    + intros env. unfold run, main, seq at 1. cbn [parse_args].
      rewrite (parse_precision_undefined _ _ _ _ _ _ Hflag Hatoi). reflexivity.
  - apply atoi_none.
  - reflexivity.
  - vm_compute. reflexivity.
Qed.

Lemma out_of_range_precision_defaults_witness :
  parse_args_from "numstat" ["-p"; "15"; "-j"] default_config no_output
  = parse_args_from "numstat" ["-j"] (with_precision default_config 4)
      {| out := out no_output; err := err no_output ++ precision_warning |}.
Proof.
  refine (proj1 (proj1 (out_of_range_precision_defaults "numstat" "-p" "15" ["-j"] _)
                   15%Z _ _) default_config no_output).
  - left. reflexivity.
  - reflexivity.
  - right. vm_compute. reflexivity.
Defined.

(** The integer value 4294967298 lies outside 0..10, but it is no [int]:
    [atoi] has no defined behaviour on it, and the program neither stores the
    default with the warning nor is bound to any other outcome.  (A library
    that reduces the value to an [int] modulo [2^32] returns 2, a precision
    that is stored without a warning.) *)
Lemma precision_beyond_int_is_not_defaulted :
  integer_value "4294967298" = 4294967298%Z
  /\ (10 < 4294967298)%Z
  /\ (4294967298 mod 2 ^ 32 = 2)%Z
  /\ atoi "4294967298" = None
  /\ parse_args ["numstat"; "-p"; "4294967298"] default_config no_output = Undefined
  /\ parse_args ["numstat"; "-p"; "4294967298"] default_config no_output
     <> Returns (with_precision default_config 4)
          {| out := ""; err := precision_warning |}
  /\ run (stdin_env [Number 1; Number 2; Number 3; Number 4])
        ["numstat"; "-p"; "4294967298"] = None.
Proof.
  repeat split; try reflexivity. discriminate.
Qed.

Lemma digits_value_no_digit (c : ascii) (r : string) (acc : Z) :
  isdigit c = false -> digits_value (String c r) acc = acc.
Proof. intros H. cbn [digits_value]. now rewrite H. Qed.

(** [s] starts, after optional white space and an optional sign, with a
    decimal digit: the strings in which [atoi] finds a number. *)
Definition starts_with_number (s : string) : bool :=
  match (match skip_spaces s with
         | String "-" r => r
         | String "+" r => r
         | r => r
         end) with
  | String c _ => isdigit c
  | EmptyString => false
  end.

Lemma integer_value_no_number (s : string) :
  starts_with_number s = false -> integer_value s = 0%Z.
Proof.
  unfold starts_with_number, integer_value.
  destruct (skip_spaces s) as [|c r]; [reflexivity|].
  destruct c as [[] [] [] [] [] [] [] []]; intros H;
    try (cbn in H; discriminate H);
    try (now rewrite digits_value_no_digit by exact H);
    (destruct r as [|c' r']; [reflexivity|]; now rewrite digits_value_no_digit by exact H).
Qed.

Lemma atoi_no_number (s : string) : starts_with_number s = false -> atoi s = Some 0%Z.
Proof.
  intros H. rewrite atoi_integer_value, (integer_value_no_number s H). reflexivity.
Qed.

(** What follows the digits is not looked at. *)
Lemma digits_value_app (c : ascii) (r : string) :
  isdigit c = false ->
  forall (s : string) (acc : Z),
    digits_value (s ++ String c r) acc = digits_value s acc.
Proof.
  intros Hc. induction s as [|d s IH]; intros acc; cbn [append digits_value].
  - now rewrite Hc.
  - destruct (isdigit d); [apply IH | reflexivity].
Qed.

Lemma skip_spaces_app (s t : string) :
  skip_spaces s <> "" -> skip_spaces (s ++ t) = skip_spaces s ++ t.
Proof.
  induction s as [|c s IH]; cbn [skip_spaces append]; [congruence|].
  destruct (isspace c); [exact IH | reflexivity].
Qed.

Lemma integer_value_app (s : string) (c : ascii) (r : string) :
  skip_spaces s <> "" -> isdigit c = false ->
  integer_value (s ++ String c r) = integer_value s.
Proof.
  intros Hs Hc. unfold integer_value. rewrite (skip_spaces_app s _ Hs).
  destruct (skip_spaces s) as [|c0 r0]; [congruence|]. cbn [append].
  destruct c0 as [[] [] [] [] [] [] [] []];
    try (now rewrite (digits_value_app c r Hc r0));
    now rewrite <- (digits_value_app c r Hc (String _ r0)).
Qed.

(** C10, as the code has it.  When the argument of [-p] does not start with a
    number (after optional white space and an optional sign), [atoi] returns
    0, which is an accepted precision: the loop goes on as for [-p 0], with
    no warning and no error, and the whole run is that of [-p 0].  When it
    starts with a number, that number is its value whatever follows the
    digits. *)
Theorem malformed_precision_is_zero :
  (forall value : string, starts_with_number value = false -> atoi value = Some 0%Z)
  /\ (forall (program_name flag value : string) (args : list string),
        is_precision_flag flag -> starts_with_number value = false ->
        (forall (config : Config) (s : Streams),
           parse_args_from program_name (flag :: value :: args) config s
           = parse_args_from program_name args (with_precision config 0) s /\
           parse_args_from program_name (flag :: value :: args) config s
           = parse_args_from program_name (flag :: "0" :: args) config s)
        /\ (forall env : Env,
              run env (program_name :: flag :: value :: args)
              = run env (program_name :: flag :: "0" :: args)))
  /\ (forall (value : string) (c : ascii) (r : string),
        starts_with_number value = true -> isdigit c = false ->
        atoi (value ++ String c r) = atoi value)
  /\ map starts_with_number ["abc"; ""; " abc"; "+abc"; "-x"; "5abc"; "3.7"; " -12abc"]
     = [false; false; false; false; false; true; true; true]
  /\ run (stdin_env [Number 1; Number 2; Number 3; Number 4]) ["numstat"; "-p"; "abc"]
     = Some (0%Z,
             {| out := "Statistics for 4 numbers:" ++ LF
                       ++ "  Sum:     10" ++ LF
                       ++ "  Mean:    2" ++ LF
                       ++ "  Median:  2" ++ LF
                       ++ "  Minimum: 1" ++ LF
                       ++ "  Maximum: 4" ++ LF
                       ++ "  Range:   3" ++ LF
                       ++ "  Q1:      2" ++ LF
                       ++ "  Q3:      3" ++ LF
                       ++ "  StdDev:  1" ++ LF;
                err := "" |}).
Proof.
  split; [exact atoi_no_number|]. split; [|split; [|split]].
  - intros program_name flag value args Hflag Hno.
    pose proof (atoi_no_number value Hno) as Hatoi.
    assert (Hstep : forall config s,
               parse_args_from program_name (flag :: value :: args) config s
               = parse_args_from program_name args (with_precision config 0) s /\
               parse_args_from program_name (flag :: value :: args) config s
               = parse_args_from program_name (flag :: "0" :: args) config s).
    { intros config s.
      rewrite (parse_precision_step program_name flag value 0) by assumption.
      rewrite (parse_precision_step program_name flag "0" 0) by (assumption || reflexivity).
      split; reflexivity. }
    split; [exact Hstep|].
    intros env. unfold run.
    rewrite (main_parse_args env (program_name :: flag :: value :: args)
               (program_name :: flag :: "0" :: args) no_output no_output);
      [reflexivity|].
    cbn [parse_args]. apply Hstep.
  - intros value c r Hnum Hc. rewrite !atoi_integer_value.
    rewrite integer_value_app; [reflexivity | | exact Hc].
    intros E. unfold starts_with_number in Hnum. rewrite E in Hnum. discriminate.
  - reflexivity.
  - vm_compute. reflexivity.
Qed.

Lemma malformed_precision_is_zero_witness :
  run (stdin_env [Number 1; Number 2]) ["numstat"; "--precision"; " -x7"]
  = run (stdin_env [Number 1; Number 2]) ["numstat"; "--precision"; "0"].
Proof.
  apply (proj1 (proj2 malformed_precision_is_zero) "numstat" "--precision" " -x7" []).
  - right. reflexivity.
  - reflexivity.
Defined.

(** An argument that is no integer but starts with one is not read as 0:
    [-p 5abc] prints five decimals, [-p 3.7] uses precision 3, and
    [-p 12abc] gets the warning for an out-of-range precision. *)
Lemma malformed_precision_with_leading_digits :
  atoi "5abc" = Some 5%Z /\ atoi "3.7" = Some 3%Z /\ atoi "12abc" = Some 12%Z
  /\ run (stdin_env [Number 1; Number 2; Number 3; Number 4]) ["numstat"; "-p"; "5abc"]
     = Some (0%Z,
             {| out := "Statistics for 4 numbers:" ++ LF
                       ++ "  Sum:     10.00000" ++ LF
                       ++ "  Mean:    2.50000" ++ LF
                       ++ "  Median:  2.50000" ++ LF
                       ++ "  Minimum: 1.00000" ++ LF
                       ++ "  Maximum: 4.00000" ++ LF
                       ++ "  Range:   3.00000" ++ LF
                       ++ "  Q1:      1.75000" ++ LF
                       ++ "  Q3:      3.25000" ++ LF
                       ++ "  StdDev:  1.11803" ++ LF;
                err := "" |})
  /\ run (stdin_env [Number 1; Number 2; Number 3; Number 4]) ["numstat"; "-p"; "5abc"]
     <> run (stdin_env [Number 1; Number 2; Number 3; Number 4]) ["numstat"; "-p"; "0"]
  /\ parse_args ["numstat"; "-p"; "12abc"] default_config no_output
     = Returns default_config {| out := ""; err := precision_warning |}.
Proof.
  split; [reflexivity|]. split; [reflexivity|]. split; [reflexivity|].
  split; [vm_compute; reflexivity|].
  split; [vm_compute; discriminate | reflexivity].
Qed.

(** ** The formatter *)

(** The fields both modes print after [count], in the order of printing. *)
Definition printed_fields (stats : Stats float) : list (field * float) :=
  [(FSum, sum stats); (FMean, mean stats); (FMedian, median stats);
   (FMin, min stats); (FMax, max stats); (FRange, range stats);
   (FQ1, q1 stats); (FQ3, q3 stats); (FStdDev, stddev stats)].

(** A field as [%.*f] writes it. *)
Definition printf_field (sign : field -> bool) (precision : Z)
    (f : field * float) : string :=
  printf_f (sign (fst f)) precision (snd f).

Definition text_labels : list string :=
  ["  Sum:     "; "  Mean:    "; "  Median:  "; "  Minimum: "; "  Maximum: ";
   "  Range:   "; "  Q1:      "; "  Q3:      "; "  StdDev:  "].

Definition json_keys : list string :=
  ["sum"; "mean"; "median"; "min"; "max"; "range"; "q1"; "q3"; "stddev"].

Definition text_line (sign : field -> bool) (precision : Z)
    (line : string * (field * float)) : string :=
  fst line ++ printf_field sign precision (snd line) ++ LF.

Definition json_member (sign : field -> bool) (precision : Z)
    (member : string * (field * float)) : string :=
  "  " ++ DQ ++ fst member ++ DQ ++ ": " ++ printf_field sign precision (snd member).

(** The lines of a text, each one ended by a line feed. *)
Fixpoint lines_from (text line : string) : list string :=
  match text with
  | EmptyString => if (line =? "") then [] else [line]
  | String c text' =>
      if Ascii.eqb c (ascii_of_nat 10) then line :: lines_from text' ""
      else lines_from text' (line ++ String c "")
  end.

Definition lines (text : string) : list string := lines_from text "".

Fixpoint all_digits (text : string) : bool :=
  match text with
  | EmptyString => true
  | String c text' => isdigit c && all_digits text'
  end.

(** [text] is a number in fixed notation with exactly [p] digits after the
    decimal point (and no decimal point when [p = 0]). *)
Definition has_decimals (p : Z) (text : string) : Prop :=
  exists sign int frac : string,
    text = sign ++ int ++ (if (p =? 0)%Z then "" else "." ++ frac) /\
    (sign = "" \/ sign = "-") /\ int <> "" /\
    all_digits int = true /\ all_digits frac = true /\
    Z.of_nat (String.length frac) = p.

Lemma isdigit_digit_char (d : Z) : (0 <= d < 10)%Z -> isdigit (digit_char d) = true.
Proof.
  intros Hd. unfold isdigit, digit_char.
  rewrite nat_ascii_embedding by lia.
  apply andb_true_iff. split; apply Nat.leb_le; lia.
Qed.

Lemma fixed_digits_spec (k : nat) :
  forall (n : Z) (acc : string),
    all_digits acc = true ->
    all_digits (fixed_digits k n acc) = true /\
    String.length (fixed_digits k n acc) = (k + String.length acc)%nat.
Proof.
  induction k as [|k IH]; intros n acc Hacc; cbn [fixed_digits]; [auto|].
  destruct (IH (n / 10)%Z (String (digit_char (n mod 10)) acc)) as [H1 H2].
  - cbn [all_digits]. rewrite Hacc, isdigit_digit_char; [reflexivity|].
    apply Z.mod_pos_bound. lia.
  - split; [exact H1|]. rewrite H2. cbn [String.length]. lia.
Qed.

Lemma decimal_digits_spec (fuel : nat) :
  forall (n : Z) (acc : string),
    all_digits acc = true ->
    all_digits (decimal_digits (S fuel) n acc) = true /\
    decimal_digits (S fuel) n acc <> "".
Proof.
  induction fuel as [|fuel IH]; intros n acc Hacc.
  - cbn [decimal_digits].
    assert (Hd : all_digits (String (digit_char (n mod 10)) acc) = true).
    { cbn [all_digits]. rewrite Hacc, isdigit_digit_char; [reflexivity|].
      apply Z.mod_pos_bound. lia. }
    destruct (n <? 10)%Z; split; try exact Hd; discriminate.
  - cbn [decimal_digits].
    assert (Hd : all_digits (String (digit_char (n mod 10)) acc) = true).
    { cbn [all_digits]. rewrite Hacc, isdigit_digit_char; [reflexivity|].
      apply Z.mod_pos_bound. lia. }
    destruct (n <? 10)%Z; [split; [exact Hd | discriminate]|].
    apply (IH (n / 10)%Z). exact Hd.
Qed.

Lemma format_fixed_decimals (neg : bool) (n p : Z) :
  (0 <= p)%Z -> has_decimals p (format_fixed neg n p).
Proof.
  intros Hp. unfold format_fixed, has_decimals.
  exists (if neg then "-" else ""), (printf_zu (n / 10 ^ p)),
    (fixed_digits (Z.to_nat p) (n mod 10 ^ p) "").
  destruct (decimal_digits_spec (Z.to_nat (Z.log2 (n / 10 ^ p))) (n / 10 ^ p) ""
              eq_refl) as [H1 H2].
  destruct (fixed_digits_spec (Z.to_nat p) (n mod 10 ^ p) "" eq_refl) as [H3 H4].
  repeat split; try assumption.
  - destruct neg; auto.
  - rewrite H4. cbn [String.length]. lia.
Qed.

(** [%.*f] writes a finite value with exactly [precision] decimals. *)
Lemma printf_f_decimals (b : bool) (precision : Z) (x : float) :
  (0 <= precision)%Z -> is_finite x = true ->
  has_decimals precision (printf_f b precision x).
Proof.
  intros Hp Hfin. unfold printf_f, is_finite in *.
  destruct (Z.ltb_spec precision 0); [lia|].
  destruct (Prim2SF x); try discriminate; apply format_fixed_decimals; assumption.
Qed.

Lemma printf_zu_digits (n : Z) :
  all_digits (printf_zu n) = true /\ printf_zu n <> "".
Proof. apply decimal_digits_spec. reflexivity. Qed.

Lemma append_assoc (s1 s2 s3 : string) : (s1 ++ s2) ++ s3 = s1 ++ (s2 ++ s3).
Proof. induction s1 as [|c s1 IH]; cbn [append]; [reflexivity | now rewrite IH]. Qed.

Definition text_output (sign : field -> bool) (stats : Stats float)
    (precision : Z) : string :=
  "Statistics for " ++ printf_zu (count stats) ++ " numbers:" ++ LF
  ++ String.concat ""
       (map (text_line sign precision) (combine text_labels (printed_fields stats))).

Definition json_output_text (sign : field -> bool) (stats : Stats float)
    (precision : Z) : string :=
  "{" ++ LF
  ++ "  " ++ DQ ++ "count" ++ DQ ++ ": " ++ printf_zu (count stats) ++ "," ++ LF
  ++ String.concat ("," ++ LF)
       (map (json_member sign precision) (combine json_keys (printed_fields stats)))
  ++ LF ++ "}" ++ LF.

Lemma print_stats_text_output (sign : field -> bool) (stats : Stats float)
    (precision : Z) (s : Streams) :
  print_stats_text sign stats precision s
  = Returns tt {| out := out s ++ text_output sign stats precision; err := err s |}.
Proof.
  unfold print_stats_text, seq, printf, text_output, text_line, printf_field.
  cbn [out err map combine text_labels printed_fields String.concat fst snd].
  f_equal. f_equal.
  repeat rewrite append_assoc. reflexivity.
Qed.

Lemma print_stats_json_output (sign : field -> bool) (stats : Stats float)
    (precision : Z) (s : Streams) :
  print_stats_json sign stats precision s
  = Returns tt {| out := out s ++ json_output_text sign stats precision;
                  err := err s |}.
Proof.
  unfold print_stats_json, seq, printf, json_output_text, json_member, printf_field.
  cbn [out err map combine json_keys printed_fields String.concat fst snd].
  f_equal. f_equal.
  repeat rewrite append_assoc. reflexivity.
Qed.

(** The sign bit of a NaN plays no part in how another value is written. *)
Lemma printf_f_sign_irrelevant (b b' : bool) (precision : Z) (x : float) :
  PrimFloat.is_nan x = false -> printf_f b precision x = printf_f b' precision x.
Proof.
  intros H. unfold printf_f. destruct (Prim2SF x) eqn:E; try reflexivity.
  apply is_nan_Prim2SF in E. congruence.
Qed.

(** An infinity or a NaN is written as a word. *)
Lemma printf_f_not_finite (b : bool) (precision : Z) (x : float) :
  is_finite x = false ->
  (PrimFloat.is_nan x = false
   /\ (printf_f b precision x = "inf" \/ printf_f b precision x = "-inf"))
  \/ (PrimFloat.is_nan x = true
      /\ printf_f b precision x = if b then "-nan" else "nan").
Proof.
  intros Hfin. unfold printf_f, is_finite in *.
  destruct (Prim2SF x) as [sg|[|]| |sg m e] eqn:E; try discriminate.
  - left. split; [|now right].
    destruct (PrimFloat.is_nan x) eqn:N; [|reflexivity].
    apply is_nan_Prim2SF in N. congruence.
  - left. split; [|now left].
    destruct (PrimFloat.is_nan x) eqn:N; [|reflexivity].
    apply is_nan_Prim2SF in N. congruence.
  - right. split; [now apply is_nan_Prim2SF|]. destruct b; reflexivity.
Qed.

(** C7, as the code has it.  Both modes print [count] as a bare integer and
    then the same nine fields in the same order (sum, mean, median, min, max,
    range, q1, q3, stddev), each converted by [%.*f] with the configured
    precision: a finite value gets exactly that many digits after the decimal
    point (no decimal point at precision 0), an infinity is written [inf] or
    [-inf], and a NaN [nan] or, when its sign bit is set, [-nan].  Text mode
    prints the header [Statistics for <count> numbers:] and nine labelled
    lines. *)
Theorem both_modes_print_the_same_fields :
  forall (sign : field -> bool) (stats : Stats float) (precision : Z) (s : Streams),
    print_stats_text sign stats precision s
    = Returns tt {| out := out s ++ text_output sign stats precision; err := err s |}
    /\ print_stats_json sign stats precision s
       = Returns tt {| out := out s ++ json_output_text sign stats precision;
                       err := err s |}
    /\ printed_fields stats
       = [(FSum, sum stats); (FMean, mean stats); (FMedian, median stats);
          (FMin, min stats); (FMax, max stats); (FRange, range stats);
          (FQ1, q1 stats); (FQ3, q3 stats); (FStdDev, stddev stats)]
    /\ List.length (combine text_labels (printed_fields stats)) = 9%nat
    /\ List.length (combine json_keys (printed_fields stats)) = 9%nat
    /\ all_digits (printf_zu (count stats)) = true
    /\ ((0 <= precision)%Z ->
        forall (f : field) (x : float),
          In (f, x) (printed_fields stats) -> is_finite x = true ->
          has_decimals precision (printf_f (sign f) precision x))
    /\ (forall (f : field) (x : float),
          is_finite x = false ->
          (PrimFloat.is_nan x = false
           /\ (printf_f (sign f) precision x = "inf"
               \/ printf_f (sign f) precision x = "-inf"))
          \/ (PrimFloat.is_nan x = true
              /\ printf_f (sign f) precision x = if sign f then "-nan" else "nan")).
Proof.
  intros sign stats precision s.
  split; [apply print_stats_text_output|].
  split; [apply print_stats_json_output|].
  split; [reflexivity|].
  split; [reflexivity|]. split; [reflexivity|].
  split; [apply printf_zu_digits|]. split.
  - intros Hp f x _ Hfin. apply printf_f_decimals; assumption.
  - intros f x Hfin. now apply printf_f_not_finite.
Qed.

Lemma both_modes_print_the_same_fields_witness :
  has_decimals 4 (printf_f false 4 2.5%float).
Proof.
  refine (proj1 (proj2 (proj2 (proj2 (proj2 (proj2 (proj2
            (both_modes_print_the_same_fields (fun _ => false)
               {| count := 1; sum := 2.5%float; mean := 2.5%float; min := 2.5%float;
                  max := 2.5%float; range := 0%float; median := 2.5%float;
                  q1 := 2.5%float; q3 := 2.5%float; variance := 0%float;
                  stddev := 0%float |} 4 no_output))))))) _ FMean 2.5%float _ _).
  - vm_compute. discriminate.
  - right. left. reflexivity.
  - reflexivity.
Defined.

(** On the finite input [2^1023, 2^1023] at precision 2, text mode prints nine
    labelled lines after the header, not eight, and the sum, which has
    overflowed, as [inf] with no digit after a decimal point. *)
Lemma text_mode_nine_lines_and_inf :
  exists (sorted_values : list float) (st : Stats float),
    calculate_stats [0x1p+1023; 0x1p+1023]%float 2 = Some (sorted_values, st) /\
    forall sign : field -> bool,
    exists s : Streams,
      print_stats_text sign st 2 no_output = Returns tt s /\
      List.length (tl (lines (out s))) = 9%nat /\
      List.length (tl (lines (out s))) <> 8%nat /\
      nth 1 (lines (out s)) "" = "  Sum:     inf" /\
      ~ has_decimals 2 (printf_f (sign FSum) 2 (sum st)).
Proof.
  eexists; eexists.
  split; [vm_compute; reflexivity|].
  intros sign. eexists.
  split; [vm_compute; reflexivity|].
  split; [vm_compute; reflexivity|].
  split; [vm_compute; discriminate|].
  split; [vm_compute; reflexivity|].
  replace (printf_f _ 2 _) with "inf" by (vm_compute; reflexivity).
  intros (sg & int & frac & Heq & Hsign & Hne & Hint & _).
  destruct Hsign as [-> | ->].
  - destruct int as [|c int]; [congruence|].
    cbn [append] in Heq. inversion Heq; subst c.
    cbn in Hint. discriminate.
  - cbn [append] in Heq. discriminate.
Qed.

(** ** Ordering of the quartiles *)

(** On the finite input [6004799503160661, 6004799503160662] binary64
    rounding of the interpolation puts the median above the third
    quartile. *)
Lemma quartile_order_fails_in_binary64 :
  exists (sorted_values : list float) (st : Stats float),
    calculate_stats [6004799503160661; 6004799503160662]%float 2
    = Some (sorted_values, st) /\
    forallb is_finite [6004799503160661; 6004799503160662]%float = true /\
    median st = 6004799503160662%float /\
    q3 st = 6004799503160661%float /\
    (median st <=? q3 st)%float = false.
Proof.
  eexists; eexists. split; [vm_compute; reflexivity|].
  repeat split; vm_compute; reflexivity.
Qed.

(** C3, as the code has it.  For a non-empty array of finite doubles (at most
    [2^60] of them) [calculate_stats] returns a record with [min <= max] and
    [variance >= 0] in binary64 arithmetic.  The full chain
    [min <= q1 <= median <= q3 <= max] (and [variance >= 0]) holds when every
    operation is exact, that is over the real numbers; binary64 rounding of
    the interpolation can break it. *)
Theorem stats_bounds_and_quartile_order :
  (forall values : list float,
     values <> [] -> (Z.of_nat (List.length values) <= 2 ^ 60)%Z ->
     forallb is_finite values = true ->
     exists (sorted_values : list float) (st : Stats float),
       calculate_stats values (Z.of_nat (List.length values))
       = Some (sorted_values, st) /\
       (min st <=? max st)%float = true /\ (0 <=? variance st)%float = true)
  /\ (forall values : list R,
        values <> [] -> (Z.of_nat (List.length values) <= 2 ^ 60)%Z ->
        exists (sorted_values : list R) (st : Stats R),
          calculate_stats values (Z.of_nat (List.length values))
          = Some (sorted_values, st) /\
          (min st <= q1 st)%R /\ (q1 st <= median st)%R /\
          (median st <= q3 st)%R /\ (q3 st <= max st)%R /\ (0 <= variance st)%R).
Proof.
  split.
  - intros values Hne Hlen Hfin. destruct values as [|v0 rest]; [congruence|].
    exact (float_stats_bounds v0 rest Hlen Hfin).
  - intros values Hne Hlen. destruct values as [|v0 rest]; [congruence|].
    exact (real_stats_ordered v0 rest Hlen).
Qed.

Lemma stats_bounds_and_quartile_order_witness :
  (exists (sorted_values : list float) (st : Stats float),
     calculate_stats [6004799503160661; 6004799503160662]%float 2
     = Some (sorted_values, st) /\
     (min st <=? max st)%float = true /\ (0 <=? variance st)%float = true)
  /\ (exists (sorted_values : list R) (st : Stats R),
        calculate_stats [3; 1; 2]%R 3 = Some (sorted_values, st) /\
        (min st <= q1 st)%R /\ (q1 st <= median st)%R /\
        (median st <= q3 st)%R /\ (q3 st <= max st)%R /\ (0 <= variance st)%R).
Proof.
  split.
  - apply (proj1 stats_bounds_and_quartile_order
             [6004799503160661; 6004799503160662]%float).
    + discriminate.
    + vm_compute. discriminate.
    + vm_compute. reflexivity.
  - apply (proj2 stats_bounds_and_quartile_order [3; 1; 2]%R).
    + discriminate.
    + vm_compute. discriminate.
Defined.

(** ** Further properties of argument parsing *)

Definition is_help_flag (arg : string) : Prop := arg = "-h" \/ arg = "--help".

Definition is_json_flag (arg : string) : Prop := arg = "-j" \/ arg = "--json".

(** What [print_help] writes. *)
Definition help_text (program_name : string) : string :=
  match print_help program_name no_output with
  | Returns _ s => out s
  | _ => ""
  end.

Lemma printf_then {A : Type} (text : string) (k : prog A) (o e : string) :
  (printf text ;; k)%prog {| out := o; err := e |}
  = k {| out := o ++ text; err := e |}.
Proof. reflexivity. Qed.

Lemma print_help_output (program_name : string) (s : Streams) :
  print_help program_name s
  = Returns tt {| out := out s ++ help_text program_name; err := err s |}.
Proof.
  destruct s as [o e]. unfold help_text, print_help, no_output.
  repeat rewrite printf_then. unfold printf. cbn [out err].
  f_equal. f_equal. repeat rewrite append_assoc. reflexivity.
Qed.

Lemma append_cons_nonempty (s : string) (c : ascii) (t : string) :
  s ++ String c t <> "".
Proof. destruct s; discriminate. Qed.

Lemma help_text_nonempty (program_name : string) : help_text program_name <> "".
Proof.
  unfold help_text, print_help, no_output.
  repeat rewrite printf_then. unfold printf. cbn [out err].
  unfold LF. repeat rewrite append_assoc. cbn [append]. discriminate.
Qed.

Lemma parse_args_from_app_n (program_name : string) :
  forall (n : nat) (args args' : list string) (config config' : Config)
         (s s' : Streams),
    (List.length args <= n)%nat ->
    parse_args_from program_name args config s = Returns config' s' ->
    parse_args_from program_name (args ++ args') config s
    = parse_args_from program_name args' config' s'.
Proof.
  induction n as [|n IH]; intros args args' config config' s s' Hn Hret.
  - destruct args; [|cbn [List.length] in Hn; lia].
    cbn in Hret. inversion Hret. reflexivity.
  - destruct args as [|arg args]; [cbn in Hret; inversion Hret; reflexivity|].
    cbn [List.length] in Hn. cbn [parse_args_from app] in Hret |- *.
    destruct (_ || _).
    { unfold seq, exit in Hret. destruct (print_help program_name s); discriminate. }
    destruct (_ || _).
    { apply IH; [lia | exact Hret]. }
    destruct (_ || _).
    { destruct args as [|value args]; [discriminate|].
      cbn [List.length] in Hn. cbn [app].
      destruct (atoi value) as [p|]; [|discriminate].
      destruct (_ || _)%bool.
      - unfold seq, fprintf_stderr in Hret |- *.
        apply IH; [lia | exact Hret].
      - apply IH; [lia | exact Hret]. }
    destruct (match arg with String "-" _ => true | _ => false end);
      [discriminate|].
    destruct (input_file config); [discriminate|].
    apply IH; [lia | exact Hret].
Qed.

Lemma parse_args_from_app (program_name : string) (args args' : list string)
    (config config' : Config) (s s' : Streams) :
  parse_args_from program_name args config s = Returns config' s' ->
  parse_args_from program_name (args ++ args') config s
  = parse_args_from program_name args' config' s'.
Proof. apply (parse_args_from_app_n program_name (List.length args)). lia. Qed.

Lemma parse_args_from_exits (program_name : string) :
  forall (n : nat) (args : list string) (config : Config) (s s' : Streams) (code : Z),
    (List.length args <= n)%nat ->
    parse_args_from program_name args config s = Exits code s' ->
    (code = 0 /\ out s' = out s ++ help_text program_name)
    \/ (code = 1 /\ out s' = out s /\ err s' <> "").
Proof.
  induction n as [|n IH]; intros args config s s' code Hn Hex.
  - destruct args; [|cbn [List.length] in Hn; lia]. discriminate.
  - destruct args as [|arg args]; [discriminate|].
    cbn [List.length] in Hn. cbn [parse_args_from] in Hex.
    destruct (_ || _) in Hex.
    { unfold seq, exit in Hex. rewrite print_help_output in Hex.
      inversion Hex. left. split; reflexivity. }
    destruct (_ || _) in Hex.
    { eapply IH; [|exact Hex]. lia. }
    destruct (_ || _) in Hex.
    { destruct args as [|value args].
      - inversion Hex. right. cbn [out err]. repeat split.
        apply append_cons_nonempty.
      - cbn [List.length] in Hn.
        destruct (atoi value) as [p|]; [|discriminate].
        destruct (_ || _)%bool in Hex.
        + unfold seq, fprintf_stderr in Hex.
          apply IH in Hex; [exact Hex | lia].
        + eapply IH; [|exact Hex]. lia. }
    destruct (match arg with String "-" _ => true | _ => false end) in Hex.
    { inversion Hex. right. cbn [out err]. repeat split.
      cbn [append]. apply append_cons_nonempty. }
    destruct (input_file config).
    { inversion Hex. right. cbn [out err]. repeat split.
      apply append_cons_nonempty. }
    eapply IH; [|exact Hex]. lia.
Qed.

(** The state of the configuration that a returning [parse_args] keeps. *)
Lemma parse_args_from_config (program_name : string) :
  forall (n : nat) (args : list string) (config config' : Config) (s s' : Streams),
    (List.length args <= n)%nat ->
    parse_args_from program_name args config s = Returns config' s' ->
    ((0 <= precision config <= 10)%Z -> (0 <= precision config' <= 10)%Z)
    /\ (json_output config' = json_output config \/ json_output config' = 1%Z)
    /\ (forall name, input_file config = Some name -> input_file config' = Some name).
Proof.
  induction n as [|n IH]; intros args config config' s s' Hn Hret.
  - destruct args; [|cbn [List.length] in Hn; lia].
    cbn in Hret. inversion Hret. subst. auto.
  - destruct args as [|arg args]; [cbn in Hret; inversion Hret; subst; auto|].
    cbn [List.length] in Hn. cbn [parse_args_from] in Hret.
    destruct (_ || _) in Hret.
    { unfold seq, exit in Hret. destruct (print_help program_name s); discriminate. }
    destruct (_ || _) in Hret.
    { apply IH in Hret; [|lia]. cbn [precision json_output input_file] in Hret.
      destruct Hret as (H1 & H2 & H3).
      split; [exact H1 | split; [right; destruct H2; assumption | exact H3]]. }
    destruct (_ || _) in Hret.
    { destruct args as [|value args]; [discriminate|].
      cbn [List.length] in Hn.
      destruct (atoi value) as [p|]; [|discriminate].
      destruct ((p <? 0) || (p >? 10))%Z eqn:Hp.
      - unfold seq, fprintf_stderr in Hret.
        apply IH in Hret; [|lia]. cbn [precision json_output input_file] in Hret.
        destruct Hret as (H1 & H2 & H3).
        split; [intros _; apply H1; lia | split; assumption].
      - apply IH in Hret; [|lia]. cbn [precision json_output input_file] in Hret.
        destruct Hret as (H1 & H2 & H3).
        apply orb_false_iff in Hp. destruct Hp as [Hp1 Hp2].
        apply Z.ltb_ge in Hp1. rewrite Z.gtb_ltb in Hp2. apply Z.ltb_ge in Hp2.
        split; [intros _; apply H1; lia | split; assumption]. }
    destruct (match arg with String "-" _ => true | _ => false end) in Hret;
      [discriminate|].
    destruct (input_file config) eqn:Hfile; [discriminate|].
    apply IH in Hret; [|lia]. cbn [precision json_output input_file] in Hret.
    destruct Hret as (H1 & H2 & H3).
    split; [exact H1 | split; [exact H2 | discriminate]].
Qed.

Lemma run_parse_exits (env : Env) (argv : list string) (code : Z) (s : Streams) :
  parse_args argv default_config no_output = Exits code s ->
  run env argv = Some (code, s).
Proof.
  intros H. unfold run, main, seq at 1.
  change {| json_output := 0; precision := 4; input_file := None |} with default_config.
  rewrite H. reflexivity.
Qed.

Definition is_option_flag (arg : string) : Prop :=
  is_help_flag arg \/ is_json_flag arg \/ is_precision_flag arg.

Lemma eqb_flag_false (arg a b : string) :
  arg <> a -> arg <> b -> (arg =? a) || (arg =? b) = false.
Proof.
  intros Ha Hb. apply String.eqb_neq in Ha. apply String.eqb_neq in Hb.
  now rewrite Ha, Hb.
Qed.

Lemma eqb_flag_true (arg a b : string) :
  arg = a \/ arg = b -> (arg =? a) || (arg =? b) = true.
Proof.
  intros [-> | ->]; rewrite String.eqb_refl; [reflexivity | apply orb_true_r].
Qed.

(** X1.  The arguments are consumed from left to right: after a prefix on which
    the loop of [parse_args] returns, the loop goes on from the configuration
    and the streams the prefix leaves, and the prefix has written nothing on
    standard output. *)
Theorem parse_args_left_to_right :
  forall (program_name : string) (args : list string) (config config' : Config)
         (s s' : Streams),
    parse_args_from program_name args config s = Returns config' s' ->
    out s' = out s /\
    forall args' : list string,
      parse_args_from program_name (args ++ args') config s
      = parse_args_from program_name args' config' s'.
Proof.
  intros program_name args config config' s s' H. split.
  - exact (parse_args_from_out program_name (List.length args) args config config'
             s s' (le_n _) H).
  - intros args'. now apply parse_args_from_app.
Qed.

Lemma parse_args_left_to_right_witness :
  out no_output = out no_output /\
  forall args' : list string,
    parse_args_from "numstat" (["--json"; "-p"; "2"] ++ args') default_config no_output
    = parse_args_from "numstat" args'
        {| json_output := 1; precision := 2; input_file := None |} no_output.
Proof.
  apply (parse_args_left_to_right "numstat" ["--json"; "-p"; "2"] default_config).
  reflexivity.
Defined.

(** X2.  [-h] or [--help], after arguments that parse, prints the help text on
    standard output and ends the run with status 0: the arguments that
    follow are not looked at and no input is opened or read. *)
Theorem help_flag_ends_the_run :
  forall (program_name flag : string) (before after : list string)
         (config : Config) (s0 : Streams),
    is_help_flag flag ->
    parse_args_from program_name before default_config no_output = Returns config s0 ->
    help_text program_name <> "" /\
    forall env : Env,
      run env (program_name :: before ++ flag :: after)
      = Some (0%Z, {| out := help_text program_name; err := err s0 |}).
Proof.
  intros program_name flag before after config s0 Hflag Hpre.
  split; [apply help_text_nonempty|]. intros env.
  apply run_parse_exits. cbn [parse_args].
  rewrite (parse_args_from_app _ _ _ _ _ _ _ Hpre).
  cbn [parse_args_from]. rewrite (eqb_flag_true _ _ _ Hflag).
  unfold seq, exit. rewrite print_help_output.
  rewrite (parse_args_from_out _ _ _ _ _ _ _ (le_n _) Hpre). reflexivity.
Qed.

Lemma help_flag_ends_the_run_witness :
  help_text "numstat" <> "" /\
  run (stdin_env []) ("numstat" :: ["-p"; "99"] ++ "--help" :: ["--bogus"; "a"; "b"])
  = Some (0%Z, {| out := help_text "numstat"; err := precision_warning |}).
Proof.
  destruct (help_flag_ends_the_run "numstat" "--help" ["-p"; "99"] ["--bogus"; "a"; "b"]
              {| json_output := 0; precision := 4; input_file := None |}
              {| out := ""; err := precision_warning |}
              (or_intror eq_refl) eq_refl) as [H1 H2].
  split; [exact H1 | exact (H2 (stdin_env []))].
Defined.

(** X3.  An argument that stands where an option is looked for, that is after
    arguments that the loop of [parse_args] has consumed whole, and that
    starts with [-] and is none of the six option names, a lone [-] included,
    ends the run with status 1 and two lines on standard error that name it;
    nothing is written on standard output.  Directly after [-p] such an
    argument is the precision value instead: [-p -x] is read as precision
    0. *)
Theorem unknown_option_is_an_error :
  forall (program_name arg rest : string) (before after : list string)
         (config : Config) (s0 : Streams),
    arg = String "-" rest -> ~ is_option_flag arg ->
    parse_args_from program_name before default_config no_output = Returns config s0 ->
    (forall env : Env,
       run env (program_name :: before ++ arg :: after)
       = Some (1%Z,
               {| out := "";
                  err := err s0 ++ ("Error: Unknown option '" ++ arg ++ "'" ++ LF)
                         ++ ("Use -h or --help for usage information" ++ LF) |}))
    /\ parse_args_from program_name ["-p"; "-x"] default_config no_output
       = Returns (with_precision default_config 0) no_output.
Proof.
  intros program_name arg rest before after config s0 Harg Hnot Hpre.
  split; [|reflexivity]. intros env.
  apply run_parse_exits. cbn [parse_args].
  rewrite (parse_args_from_app _ _ _ _ _ _ _ Hpre).
  pose proof (parse_args_from_out _ _ _ _ _ _ _ (le_n _) Hpre) as Hout.
  cbn [parse_args_from].
  unfold is_option_flag, is_help_flag, is_json_flag, is_precision_flag in Hnot.
  rewrite !eqb_flag_false by tauto.
  subst arg. unfold seq, fprintf_stderr, exit. cbn [out err].
  rewrite Hout, append_assoc. reflexivity.
Qed.

Lemma unknown_option_is_an_error_witness :
  run (stdin_env [Number 1%float]) ("numstat" :: ["-j"] ++ "-" :: ["data.txt"])
  = Some (1%Z,
          {| out := "";
             err := err no_output ++ ("Error: Unknown option '" ++ "-" ++ "'" ++ LF)
                    ++ ("Use -h or --help for usage information" ++ LF) |}).
Proof.
  apply (proj1 (unknown_option_is_an_error "numstat" "-" "" ["-j"] ["data.txt"]
                  {| json_output := 1; precision := 4; input_file := None |} no_output
                  eq_refl
                  ltac:(unfold is_option_flag, is_help_flag, is_json_flag,
                          is_precision_flag;
                        intros [[H|H]|[[H|H]|[H|H]]]; discriminate)
                  eq_refl)).
Defined.

(** X4.  Where an option is looked for, that is after arguments that the loop
    of [parse_args] has consumed whole, the first argument that does not
    start with [-] is the input file; a second one ends the run with status
    1 and the message about multiple input files, before any file is opened.
    Directly after [-p] an argument is the precision value and no file:
    [a.txt -p b.txt] names one file. *)
Theorem second_input_file_is_an_error :
  forall (program_name arg name : string) (before after : list string)
         (config : Config) (s0 : Streams),
    (forall rest, arg <> String "-" rest) ->
    parse_args_from program_name before default_config no_output = Returns config s0 ->
    (input_file config = None ->
     parse_args_from program_name (before ++ [arg]) default_config no_output
     = Returns {| json_output := json_output config; precision := precision config;
                  input_file := Some arg |} s0)
    /\ (input_file config = Some name ->
        forall env : Env,
          run env (program_name :: before ++ arg :: after)
          = Some (1%Z,
                  {| out := "";
                     err := err s0 ++ "Error: Multiple input files specified" ++ LF |}))
    /\ parse_args_from program_name ["a.txt"; "-p"; "b.txt"] default_config no_output
       = Returns {| json_output := 0; precision := 0; input_file := Some "a.txt" |}
           no_output.
Proof.
  intros program_name arg name before after config s0 Harg Hpre.
  pose proof (parse_args_from_out _ _ _ _ _ _ _ (le_n _) Hpre) as Hout.
  assert (Hflags : forall a, (a = "-h" \/ a = "--help" \/ a = "-j" \/ a = "--json"
                              \/ a = "-p" \/ a = "--precision") -> arg <> a).
  { intros a Ha ->. destruct Ha as [->|[->|[->|[->|[->| ->]]]]];
      eapply Harg; reflexivity. }
  assert (Hdash : match arg with String "-" _ => true | _ => false end = false).
  { destruct arg as [|c r]; [reflexivity|].
    destruct (Ascii.eqb_spec c "-"%char) as [->|Hc]; [now destruct (Harg r)|].
    destruct c as [[] [] [] [] [] [] [] []]; try reflexivity. now destruct Hc. }
  split; [|split; [|reflexivity]].
  - intros Hnone. rewrite (parse_args_from_app _ _ _ _ _ _ _ Hpre).
    cbn [parse_args_from].
    rewrite !eqb_flag_false by (apply Hflags; auto 10).
    rewrite Hdash, Hnone. reflexivity.
  - intros Hsome env. apply run_parse_exits. cbn [parse_args].
    rewrite (parse_args_from_app _ _ _ _ _ _ _ Hpre).
    cbn [parse_args_from].
    rewrite !eqb_flag_false by (apply Hflags; auto 10).
    rewrite Hdash, Hsome. unfold seq, fprintf_stderr, exit. cbn [out err].
    rewrite Hout. reflexivity.
Qed.

Lemma second_input_file_is_an_error_witness :
  run (stdin_env []) ("numstat" :: ["a.txt"; "-j"] ++ "b.txt" :: ["-h"])
  = Some (1%Z,
          {| out := "";
             err := err no_output ++ "Error: Multiple input files specified" ++ LF |}).
Proof.
  refine (proj1 (proj2 (second_input_file_is_an_error "numstat" "b.txt" "a.txt"
                   ["a.txt"; "-j"] ["-h"]
                   {| json_output := 1; precision := 4; input_file := Some "a.txt" |}
                   no_output _ _)) _ (stdin_env [])).
  - intros rest H. discriminate.
  - reflexivity.
  - reflexivity.
Defined.

(** X5.  [-p] or [--precision] as the last argument, where an option is looked
    for (after arguments that the loop of [parse_args] has consumed whole),
    ends the run with status 1 and the message that a number is required;
    nothing is written on standard output.  Directly after another [-p] it
    is that option's value: [-p -p] is read as precision 0. *)
Theorem precision_flag_needs_a_value :
  forall (program_name flag : string) (before : list string)
         (config : Config) (s0 : Streams),
    is_precision_flag flag ->
    parse_args_from program_name before default_config no_output = Returns config s0 ->
    (forall env : Env,
       run env (program_name :: before ++ [flag])
       = Some (1%Z,
               {| out := "";
                  err := err s0 ++ "Error: -p requires a number argument" ++ LF |}))
    /\ parse_args_from program_name ["-p"; flag] default_config no_output
       = Returns (with_precision default_config 0) no_output.
Proof.
  intros program_name flag before config s0 Hflag Hpre.
  split; [|destruct Hflag as [-> | ->]; reflexivity]. intros env.
  apply run_parse_exits. cbn [parse_args].
  rewrite (parse_args_from_app _ _ _ _ _ _ _ Hpre).
  pose proof (parse_args_from_out _ _ _ _ _ _ _ (le_n _) Hpre) as Hout.
  cbn [parse_args_from].
  assert (H1 : (flag =? "-h") || (flag =? "--help") = false)
    by (destruct Hflag as [-> | ->]; reflexivity).
  assert (H2 : (flag =? "-j") || (flag =? "--json") = false)
    by (destruct Hflag as [-> | ->]; reflexivity).
  rewrite H1, H2, (eqb_flag_true _ _ _ Hflag).
  unfold seq, fprintf_stderr, exit. cbn [out err]. rewrite Hout. reflexivity.
Qed.

Lemma precision_flag_needs_a_value_witness :
  run (stdin_env []) ("numstat" :: ["data.txt"] ++ ["--precision"])
  = Some (1%Z,
          {| out := "";
             err := err no_output ++ "Error: -p requires a number argument" ++ LF |}).
Proof.
  apply (proj1 (precision_flag_needs_a_value "numstat" "--precision" ["data.txt"]
                  {| json_output := 0; precision := 4; input_file := Some "data.txt" |}
                  no_output (or_intror eq_refl) eq_refl)).
Defined.

Lemma parse_args_out (argv : list string) (config : Config) (s0 : Streams) :
  parse_args argv default_config no_output = Returns config s0 -> out s0 = "".
Proof.
  intros H. destruct argv as [|program_name args].
  - cbn in H. inversion H. reflexivity.
  - exact (parse_args_from_out _ _ _ _ _ _ _ (le_n _) H).
Qed.

(** X6.  When [parse_args] returns, the precision it leaves is between 0 and 10,
    [json_output] is 0 or 1, and nothing has been written on standard
    output: the printers are never called with another precision. *)
Theorem parsed_config_is_in_range :
  forall (argv : list string) (config : Config) (s0 : Streams),
    parse_args argv default_config no_output = Returns config s0 ->
    (0 <= precision config <= 10)%Z
    /\ (json_output config = 0%Z \/ json_output config = 1%Z)
    /\ out s0 = "".
Proof.
  intros argv config s0 H. pose proof (parse_args_out _ _ _ H) as H3.
  destruct argv as [|program_name args].
  - cbn in H. inversion H. cbn. repeat split; auto; lia.
  - cbn [parse_args] in H.
    destruct (parse_args_from_config _ _ _ _ _ _ _ (le_n _) H) as (H1 & H2 & _).
    cbn [default_config precision json_output] in H1, H2.
    split; [apply H1; lia | split; [tauto | exact H3]].
Qed.

Lemma parsed_config_is_in_range_witness :
  (0 <= precision {| json_output := 1; precision := 4; input_file := Some "x" |} <= 10)%Z
  /\ (json_output {| json_output := 1; precision := 4; input_file := Some "x" |} = 0%Z
      \/ json_output {| json_output := 1; precision := 4; input_file := Some "x" |} = 1%Z)
  /\ out {| out := ""; err := precision_warning |} = "".
Proof.
  apply (parsed_config_is_in_range ["numstat"; "-p"; "-3"; "x"; "--json"]).
  reflexivity.
Defined.

Lemma run_cannot_open (env : Env) (argv : list string) (config : Config)
    (s0 : Streams) (name : string) :
  parse_args argv default_config no_output = Returns config s0 ->
  input_file config = Some name ->
  fopen_r env name = None ->
  run env argv
  = Some (1%Z,
          {| out := "";
             err := err s0 ++ "Error: Cannot open file '" ++ name ++ "'" ++ LF |}).
Proof.
  intros Hparse Hname Hopen.
  pose proof (parse_args_out argv config s0 Hparse) as Hout.
  unfold run, main, seq at 1.
  change {| json_output := 0; precision := 4; input_file := None |} with default_config.
  rewrite Hparse. unfold seq at 1. rewrite Hname, Hopen.
  unfold seq, fprintf_stderr, exit. cbn [out err]. rewrite Hout. reflexivity.
Qed.

(** X7.  When the file named on the command line cannot be opened, the run ends
    with status 1 and the message that names the file on standard error;
    standard input and the allocator play no part, and nothing is printed on
    standard output. *)
Theorem unopenable_file_is_an_error :
  forall (env : Env) (argv : list string) (config : Config) (s0 : Streams)
         (name : string),
    parse_args argv default_config no_output = Returns config s0 ->
    input_file config = Some name ->
    fopen_r env name = None ->
    run env argv
    = Some (1%Z,
            {| out := "";
               err := err s0 ++ "Error: Cannot open file '" ++ name ++ "'" ++ LF |})
    /\ forall (input : list token) (alloc : Z -> bool) (sign : field -> bool),
         run {| stdin := input; fopen_r := fopen_r env; alloc_ok := alloc;
                nan_sign := sign |} argv
         = run env argv.
Proof.
  intros env argv config s0 name Hparse Hname Hopen.
  split; [now apply (run_cannot_open env argv config s0 name)|].
  intros input alloc sign.
  rewrite (run_cannot_open env argv config s0 name Hparse Hname Hopen).
  now apply (run_cannot_open _ argv config s0 name).
Qed.

Lemma unopenable_file_is_an_error_witness :
  run (stdin_env [Number 1%float]) ["numstat"; "-j"; "missing.txt"]
  = Some (1%Z,
          {| out := "";
             err := err no_output ++ "Error: Cannot open file '" ++ "missing.txt" ++ "'" ++ LF |}).
Proof.
  apply (proj1 (unopenable_file_is_an_error (stdin_env [Number 1%float])
                  ["numstat"; "-j"; "missing.txt"]
                  {| json_output := 1; precision := 4; input_file := Some "missing.txt" |}
                  no_output "missing.txt" eq_refl eq_refl eq_refl)).
Defined.

Lemma text_output_nonempty (sign : field -> bool) (stats : Stats float)
    (precision : Z) :
  text_output sign stats precision <> "".
Proof. unfold text_output. cbn [append]. discriminate. Qed.

Lemma json_output_text_nonempty (sign : field -> bool) (stats : Stats float)
    (precision : Z) :
  json_output_text sign stats precision <> "".
Proof. unfold json_output_text. cbn [append]. discriminate. Qed.

(** X8.  Every run whose behaviour is defined ends with status 0 or 1.  With
    status 1 nothing has been written on standard output and standard error
    holds a message; with status 0 standard output holds the help text or the
    statistics. *)
Theorem exit_status_and_streams :
  forall (env : Env) (argv : list string) (code : Z) (s : Streams),
    run env argv = Some (code, s) ->
    (code = 0%Z /\ out s <> "") \/ (code = 1%Z /\ out s = "" /\ err s <> "").
Proof.
  intros env argv code s Hrun.
  destruct (parse_args argv default_config no_output) as [config s0|code0 s0|] eqn:Hparse.
  - pose proof (parse_args_out _ _ _ Hparse) as Hout.
    destruct (selected_input env config) as [file|] eqn:Hsel.
    + unfold run in Hrun. rewrite (main_after_parse _ _ _ _ _ Hparse Hsel) in Hrun.
      destruct (read_numbers env file) as [values count| |]; [| |discriminate].
      * destruct (count =? 0)%Z.
        { inversion Hrun. right. cbn [out err]. repeat split; [exact Hout|].
          apply append_cons_nonempty. }
        destruct (calculate_stats values count) as [[sorted_values stats]|];
          [|discriminate].
        destruct (json_output config =? 0)%Z.
        { rewrite print_stats_text_output in Hrun. inversion Hrun. left.
          split; [reflexivity|]. cbn [out]. rewrite Hout. cbn [append].
          apply text_output_nonempty. }
        { rewrite print_stats_json_output in Hrun. inversion Hrun. left.
          split; [reflexivity|]. cbn [out]. rewrite Hout. cbn [append].
          apply json_output_text_nonempty. }
      * inversion Hrun. right. cbn [out err]. repeat split; [exact Hout|].
        apply append_cons_nonempty.
    + unfold selected_input in Hsel.
      destruct (input_file config) as [name|] eqn:Hname; [|discriminate].
      rewrite (run_cannot_open env argv config s0 name Hparse Hname Hsel) in Hrun.
      inversion Hrun. right. cbn [out err]. repeat split.
      cbn [append]. apply append_cons_nonempty.
  - rewrite (run_parse_exits env argv code0 s0 Hparse) in Hrun. inversion Hrun. subst.
    destruct argv as [|program_name args]; [discriminate|].
    cbn [parse_args] in Hparse.
    destruct (parse_args_from_exits _ _ _ _ _ _ _ (le_n _) Hparse)
      as [[-> Hout]|(-> & Hout & Herr)].
    + left. split; [reflexivity|]. rewrite Hout. cbn [out no_output append].
      apply help_text_nonempty.
    + right. repeat split; assumption.
  - unfold run, main, seq at 1 in Hrun.
    change {| json_output := 0; precision := 4; input_file := None |}
      with default_config in Hrun.
    rewrite Hparse in Hrun. discriminate.
Qed.

Lemma exit_status_and_streams_witness :
  (1 = 0 /\ out {| out := ""; err := no_numbers_error |} <> "")%Z
  \/ (1 = 1 /\ out {| out := ""; err := no_numbers_error |} = ""
      /\ err {| out := ""; err := no_numbers_error |} <> "")%Z.
Proof.
  apply (exit_status_and_streams (stdin_env [Garbage]) ["numstat"; "-j"]).
  reflexivity.
Defined.

(** ** The allocations of [read_numbers] *)

(** From a capacity [16 * 2^k], the loop ends on the null pointer exactly
    when a request it makes is refused: it asks for [256 * 2^j] bytes when
    the count reaches [16 * 2^j] and another number follows. *)
Lemma read_loop_null (env : Env) :
  forall (file : list token) (fuel : nat) (values : list float)
         (count capacity k : Z),
    (List.length file < fuel)%nat ->
    count = Z.of_nat (List.length values) ->
    (0 <= k)%Z -> capacity = (16 * 2 ^ k)%Z -> (count <= capacity)%Z ->
    (count + Z.of_nat (List.length (leading_numbers file)) <= 2 ^ 60)%Z ->
    read_loop env fuel file values count capacity (capacity * sizeof_double) = ReadNull
    <-> exists j : Z,
          (k <= j)%Z
          /\ (16 * 2 ^ j < count + Z.of_nat (List.length (leading_numbers file)))%Z
          /\ alloc_ok env (256 * 2 ^ j) = false.
Proof.
  assert (Hstop : forall count k : Z,
            (0 <= k)%Z -> (count <= 16 * 2 ^ k)%Z ->
            ~ exists j : Z, (k <= j)%Z /\ (16 * 2 ^ j < count + 0)%Z
                            /\ alloc_ok env (256 * 2 ^ j) = false).
  { intros count k Hk Hle (j & Hj & Hlt & _).
    pose proof (Z.pow_le_mono_r 2 k j ltac:(lia) Hj). lia. }
  induction file as [|tok file IH]; intros fuel values count capacity k
    Hfuel Hcount Hk Hcap Hle Hbound;
    (destruct fuel as [|fuel]; [cbn [List.length] in Hfuel; lia|]).
  - cbn [read_loop fscanf_lf leading_numbers List.length Z.of_nat].
    split; [discriminate|]. intros H. subst capacity.
    now destruct (Hstop count k Hk Hle).
  - destruct tok as [num|].
    2:{ cbn [read_loop fscanf_lf leading_numbers List.length Z.of_nat].
        split; [discriminate|]. intros H. subst capacity.
        now destruct (Hstop count k Hk Hle). }
    cbn [leading_numbers List.length] in Hbound, Hfuel |- *.
    rewrite Nat2Z.inj_succ in Hbound |- *.
    cbn [read_loop fscanf_lf Z.eqb Pos.eqb].
    unfold sizeof_double, size_t_wrap in *.
    assert (Hnn : (0 <= count)%Z) by lia.
    assert (Hpow : (0 < 2 ^ k)%Z) by (apply Z.pow_pos_nonneg; lia).
    assert (Hlen : Z.of_nat (List.length (values ++ [num])) = (count + 1)%Z).
    { rewrite length_app. cbn [List.length]. lia. }
    subst capacity.
    destruct (count >=? 16 * 2 ^ k)%Z eqn:Hgrow.
    + rewrite Z.geb_leb in Hgrow. apply Z.leb_le in Hgrow.
      rewrite (Z.mod_small (16 * 2 ^ k * 2)) by lia.
      rewrite (Z.mod_small (16 * 2 ^ k * 2 * 8)) by lia.
      cbn [andb].
      replace (16 * 2 ^ k * 2 * 8)%Z with (256 * 2 ^ k)%Z by lia.
      destruct (alloc_ok env (256 * 2 ^ k)) eqn:Hok; cbn [negb].
      * destruct (Z.leb_spec ((count + 1) * 8) (256 * 2 ^ k)); [|lia].
        replace (256 * 2 ^ k)%Z with (16 * 2 ^ k * 2 * 8)%Z by lia.
        rewrite (IH fuel (values ++ [num])%list (count + 1)%Z (16 * 2 ^ k * 2)%Z (k + 1)%Z);
          try lia.
        2:{ rewrite Z.pow_add_r by lia. lia. }
        split; intros (j & Hj & Hlt & Hno); exists j.
        -- split; [lia|]. split; [lia | exact Hno].
        -- split; [|split; [lia | exact Hno]].
           destruct (Z.eq_dec j k) as [->|Hne]; [|lia].
           replace (16 * 2 ^ k * 2 * 8)%Z with (256 * 2 ^ k)%Z in Hno by lia.
           congruence.
      * split; [intros _|reflexivity].
        exists k. split; [lia|]. split; [lia | exact Hok].
    + rewrite Z.geb_leb in Hgrow. apply Z.leb_gt in Hgrow.
      cbn [andb].
      destruct (Z.leb_spec ((count + 1) * 8) (16 * 2 ^ k * 8)); [|lia].
      rewrite (IH fuel (values ++ [num])%list (count + 1)%Z (16 * 2 ^ k)%Z k); try lia.
      split; intros (j & Hj & Hlt & Hno); exists j;
        (split; [lia|]; split; [lia | exact Hno]).
Qed.

Lemma read_numbers_ok_or_null (env : Env) (file : list token) :
  let nums := leading_numbers file in
  (Z.of_nat (List.length nums) <= 2 ^ 60)%Z ->
  (read_numbers env file = ReadOk nums (Z.of_nat (List.length nums))
   \/ read_numbers env file = ReadNull)
  /\ ((forall n, alloc_ok env n = true) ->
      read_numbers env file = ReadOk nums (Z.of_nat (List.length nums))).
Proof.
  intros nums Hlen. unfold read_numbers.
  change (size_t_wrap (16 * sizeof_double)) with (16 * sizeof_double)%Z.
  destruct (alloc_ok env (16 * sizeof_double)) eqn:Hok; cbn [negb].
  - pose proof (read_loop_spec env file (S (List.length file)) [] 0 16
                  (16 * sizeof_double)) as Hspec.
    cbn [app Z.add] in Hspec. apply Hspec; try reflexivity; try lia.
    exact Hlen.
  - split; [now right|].
    intros Hall. rewrite Hall in Hok. discriminate.
Qed.

(** X9.  [read_numbers] returns the null pointer exactly when a request it makes
    is refused: 128 bytes at the start, then [256 * 2^j] bytes each time the
    count has reached the capacity [16 * 2^j] and another number follows.
    Otherwise it returns the leading numbers.  It never asks for more than
    [max 128 (16 * count)] bytes, twice what the numbers need. *)
Theorem read_numbers_null_iff_refused :
  forall (env : Env) (file : list token),
    let nums := leading_numbers file in
    let n := Z.of_nat (List.length nums) in
    (n <= 2 ^ 60)%Z ->
    (read_numbers env file = ReadNull
     <-> alloc_ok env 128 = false
         \/ exists j : Z, (0 <= j)%Z /\ (16 * 2 ^ j < n)%Z
                          /\ alloc_ok env (256 * 2 ^ j) = false)
    /\ (read_numbers env file <> ReadNull -> read_numbers env file = ReadOk nums n)
    /\ ((forall bytes : Z,
           (0 < bytes <= Z.max 128 (16 * n))%Z -> alloc_ok env bytes = true) ->
        read_numbers env file = ReadOk nums n).
Proof.
  intros env file nums n Hlen.
  assert (Hiff : read_numbers env file = ReadNull
                 <-> alloc_ok env 128 = false
                     \/ exists j : Z, (0 <= j)%Z /\ (16 * 2 ^ j < n)%Z
                                      /\ alloc_ok env (256 * 2 ^ j) = false).
  { unfold read_numbers.
    change (size_t_wrap (16 * sizeof_double)) with 128%Z.
    destruct (alloc_ok env 128) eqn:Hok; cbn [negb].
    - change 128%Z with (16 * sizeof_double)%Z.
      rewrite (read_loop_null env file (S (List.length file)) [] 0 16 0);
        try reflexivity; try lia; [|exact Hlen].
      cbn [Z.add]. fold nums. fold n.
      split; [intros H; right; exact H | intros [H|H]; [discriminate | exact H]].
    - split; [intros _; now left | reflexivity]. }
  assert (Hok : read_numbers env file <> ReadNull ->
                read_numbers env file = ReadOk nums n).
  { intros Hnn. destruct (proj1 (read_numbers_ok_or_null env file Hlen)) as [H|H];
      [exact H | contradiction]. }
  split; [exact Hiff|]. split; [exact Hok|].
  intros Hall. apply Hok. intros Hnull. apply Hiff in Hnull.
  destruct Hnull as [H128 | (j & Hj & Hlt & Hno)].
  - rewrite Hall in H128 by lia. discriminate.
  - assert (0 < 2 ^ j)%Z by (apply Z.pow_pos_nonneg; lia).
    rewrite Hall in Hno by lia. discriminate.
Qed.

Lemma read_numbers_null_iff_refused_witness :
  read_numbers
    {| stdin := []; fopen_r := fun _ => None;
       alloc_ok := fun bytes => (bytes <? 256)%Z; nan_sign := fun _ => false |}
    (map Number (repeat 1%float 17))
  = ReadNull.
Proof.
  apply (proj1 (read_numbers_null_iff_refused
                  {| stdin := []; fopen_r := fun _ => None;
                     alloc_ok := fun bytes => (bytes <? 256)%Z;
                     nan_sign := fun _ => false |}
                  (map Number (repeat 1%float 17))
                  ltac:(vm_compute; discriminate))).
  right. exists 0%Z. split; [lia|]. split; reflexivity.
Defined.

(** ** The whole run on valid input *)

Lemma run_on_valid_input (env : Env) (argv : list string) (config : Config)
    (s0 : Streams) (file : list token) :
  parse_args argv default_config no_output = Returns config s0 ->
  selected_input env config = Some file ->
  let nums := leading_numbers file in
  nums <> [] -> (Z.of_nat (List.length nums) <= 2 ^ 60)%Z ->
  no_nan nums = true ->
  (forall n, alloc_ok env n = true) ->
  exists (sorted_values : list float) (st : Stats float),
    calculate_stats nums (Z.of_nat (List.length nums)) = Some (sorted_values, st)
    /\ run env argv
       = Some (0%Z,
               {| out := if (json_output config =? 0)%Z
                         then text_output (nan_sign env) st (precision config)
                         else json_output_text (nan_sign env) st (precision config);
                  err := err s0 |}).
Proof.
  intros Hparse Hsel nums Hne Hlen Hnn Hall.
  pose proof (parse_args_out _ _ _ Hparse) as Hout.
  destruct nums as [|v0 rest] eqn:Hnums; [congruence|].
  destruct (calculate_stats_float v0 rest Hlen (float_total_order _ Hnn))
    as (m & a & b & _ & _ & _ & E).
  eexists; eexists. split; [exact E|].
  unfold run. rewrite (main_after_parse _ _ _ _ _ Hparse Hsel).
  rewrite (proj2 (read_numbers_ok_or_null env file
                    ltac:(fold nums; rewrite Hnums; exact Hlen)) Hall).
  fold nums. rewrite Hnums.
  destruct (Z.eqb_spec (Z.of_nat (List.length (v0 :: rest))) 0) as [H0|_];
    [cbn [List.length] in H0; lia|].
  rewrite E.
  destruct (json_output config =? 0)%Z.
  - rewrite print_stats_text_output. rewrite Hout. reflexivity.
  - rewrite print_stats_json_output. rewrite Hout. reflexivity.
Qed.

(** ** The array [calculate_stats] leaves *)

Local Close Scope string_scope.
Local Open Scope float_scope.

(** X13.  [calculate_stats] sorts the caller's array in place: on an array without
    NaN, what it leaves is a rearrangement of the input in ascending
    order. *)
Theorem calculate_stats_sorts_the_array :
  forall (values sorted_values : list float) (st : Stats float),
    no_nan values = true ->
    calculate_stats values (Z.of_nat (List.length values)) = Some (sorted_values, st) ->
    Permutation values sorted_values
    /\ StronglySorted float_le sorted_values
    /\ List.length sorted_values = List.length values.
Proof.
  intros values sorted_values st Hnan H.
  destruct values as [|v0 rest]; [discriminate|].
  destruct (calculate_stats_inv v0 rest sorted_values st H) as [-> _].
  split; [apply insertion_sort_perm|]. split; [|apply insertion_sort_length].
  apply insertion_sort_float_sorted. now apply no_nan_Forall.
Qed.

Lemma calculate_stats_sorts_the_array_witness :
  Permutation [3; -0x1p+1023; 0x1p-1074; 0x1p+1023] [-0x1p+1023; 0x1p-1074; 3; 0x1p+1023]
  /\ StronglySorted float_le [-0x1p+1023; 0x1p-1074; 3; 0x1p+1023]
  /\ List.length [-0x1p+1023; 0x1p-1074; 3; 0x1p+1023]
     = List.length [3; -0x1p+1023; 0x1p-1074; 0x1p+1023].
Proof.
  destruct (calculate_stats [3; -0x1p+1023; 0x1p-1074; 0x1p+1023] 4)
    as [[sorted_values st]|] eqn:E; [|vm_compute in E; discriminate].
  assert (Hs : sorted_values = [-0x1p+1023; 0x1p-1074; 3; 0x1p+1023]).
  { vm_compute in E. inversion E. reflexivity. }
  rewrite <- Hs.
  apply (calculate_stats_sorts_the_array [3; -0x1p+1023; 0x1p-1074; 0x1p+1023]
           sorted_values st eq_refl E).
Defined.

(** ** Range, standard deviation and the ends of the sorted array *)

(** [min] and [max] after the first loop, on finite values. *)
Lemma float_min_max_in (v0 : float) (rest : list float) :
  let values := v0 :: rest in
  forallb is_finite values = true ->
  let mn := fold_left min_step values v0 in
  let mx := fold_left max_step values v0 in
  In mn values /\ In mx values
  /\ (forall x, In x values -> float_le mn x)
  /\ (forall x, In x values -> float_le x mx).
Proof.
  intros values Hfin mn mx.
  assert (Hf0 : is_finite v0 = true)
    by (cbn [forallb values] in Hfin; apply andb_prop in Hfin; apply Hfin).
  destruct (float_fold_min_least values Hfin v0 Hf0) as [I1 L1].
  destruct (float_fold_max_greatest values Hfin v0 Hf0) as [I2 L2].
  cbv zeta in I1, L1, I2, L2.
  assert (Hdrop : forall x, In x (v0 :: values) -> In x values).
  { intros x [<-|Hx]; [now left | exact Hx]. }
  repeat split.
  - apply Hdrop, I1.
  - apply Hdrop, I2.
  - intros x Hx. apply L1. now right.
  - intros x Hx. apply L2. now right.
Qed.

Lemma SFsqrt_nonneg (x : spec_float) :
  sf_nonneg x -> sf_nonneg (SFsqrt prec emax x).
Proof.
  destruct x as [s|[|]| |[|] m e]; cbn [sf_nonneg SFsqrt]; try contradiction; auto.
  intros _. unfold SFsqrt_core_binary.
  set (m' := match _ with Z0 => _ | Zpos _ => _ | Zneg _ => _ end).
  pose proof (Z.sqrtrem_sqrt m') as Hs.
  destruct (Z.sqrtrem m') as [q r]. cbn [fst] in Hs.
  apply sf_signed_nonneg, binary_round_aux_signed.
  rewrite Hs. apply Z.sqrt_nonneg.
Qed.

Lemma leb_zero_nonneg (v : float) : (0 <=? v) = true -> sf_nonneg (Prim2SF v).
Proof.
  rewrite FloatAxioms.leb_spec, Prim2SF_zero.
  destruct (Prim2SF v) as [s|[|]| |[|] m e]; cbn; auto; discriminate.
Qed.

Lemma sf_sgn_nonneg (x : spec_float) :
  sf_not_nan x -> (0 <= sf_sgn x)%Z -> sf_nonneg x.
Proof. destruct x as [s|[|]| |[|] m e]; cbn; auto; lia. Qed.

Lemma sf_sgn_zero (x : spec_float) :
  sf_not_nan x -> sf_sgn x = 0%Z <-> SFeqb x (S754_zero false) = true.
Proof.
  destruct x as [s|[|]| |[|] m e]; cbn; intros H; try contradiction;
    split; intros; try reflexivity; try discriminate; lia.
Qed.

(** X14.  For finite values, [range] is the rounded difference [max - min]: it is
    never negative nor a NaN, and it is zero exactly when [min] and [max]
    are equal; [stddev] is never negative nor a NaN either. *)
Theorem range_and_stddev_are_nonnegative :
  forall (values sorted_values : list float) (st : Stats float),
    forallb is_finite values = true ->
    (Z.of_nat (List.length values) <= 2 ^ 60)%Z ->
    calculate_stats values (Z.of_nat (List.length values)) = Some (sorted_values, st) ->
    range st = max st - min st
    /\ (0 <=? range st) = true
    /\ ((range st =? 0) = true <-> (min st =? max st) = true)
    /\ (0 <=? stddev st) = true.
Proof.
  intros values sorted_values st Hfin Hlen H.
  destruct values as [|v0 rest]; [discriminate|].
  destruct (float_stats_bounds v0 rest Hlen Hfin) as (s' & st' & E & Hmm & Hvar).
  rewrite H in E. inversion E. subst s' st'. clear E.
  destruct (calculate_stats_inv v0 rest sorted_values st H) as [_ (m & a & b & _ & _ & _ & Hst)].
  destruct (float_min_max_in v0 rest Hfin) as (Imn & Imx & _ & _). cbv zeta in Imn, Imx.
  assert (Hmin : min st = fold_left min_step (v0 :: rest) v0) by (rewrite Hst; reflexivity).
  assert (Hmax : max st = fold_left max_step (v0 :: rest) v0) by (rewrite Hst; reflexivity).
  assert (Hrange : range st = max st - min st) by (rewrite Hst; reflexivity).
  assert (Hstd : stddev st = PrimFloat.sqrt (variance st)) by (rewrite Hst; reflexivity).
  rewrite <- Hmin in Imn. rewrite <- Hmax in Imx.
  rewrite forallb_forall in Hfin.
  pose proof (Hfin _ Imn) as Fmn. pose proof (Hfin _ Imx) as Fmx.
  pose proof (finite_not_nan _ Fmn) as Nmn. pose proof (finite_not_nan _ Fmx) as Nmx.
  assert (Hsgn : sf_sgn (Prim2SF (range st))
                 = comparison_sgn (lex_compare (sf_rank (Prim2SF (max st)))
                                     (sf_rank (Prim2SF (min st))))).
  { rewrite Hrange, sub_spec.
    apply SFsub_sgn; try apply Prim2SF_valid; now apply not_nan_Prim2SF. }
  assert (Hnn : sf_not_nan (Prim2SF (range st))).
  { rewrite Hrange, sub_spec. apply SFsub_not_nan;
      [now apply is_finite_sf | now apply not_nan_Prim2SF]. }
  apply (float_leb_rank _ _ Nmn Nmx) in Hmm.
  rewrite (lex_compare_antisym (sf_rank (Prim2SF (max st))) (sf_rank (Prim2SF (min st))))
    in Hmm.
  split; [exact Hrange|]. split; [|split].
  - rewrite FloatAxioms.leb_spec, Prim2SF_zero.
    apply SFleb_zero_nonneg, sf_sgn_nonneg; [exact Hnn|].
    rewrite Hsgn. destruct (lex_compare _ _); cbn [comparison_sgn CompOpp] in *;
      try lia; congruence.
  - rewrite FloatAxioms.eqb_spec, Prim2SF_zero, <- (sf_sgn_zero _ Hnn), Hsgn.
    rewrite (float_eqb_rank _ _ Nmn Nmx).
    rewrite (lex_compare_antisym (sf_rank (Prim2SF (max st))) (sf_rank (Prim2SF (min st)))).
    destruct (lex_compare _ _); cbn [comparison_sgn CompOpp]; split; intros;
      try reflexivity; try discriminate; try lia.
  - rewrite Hstd, FloatAxioms.leb_spec, Prim2SF_zero, sqrt_spec.
    apply SFleb_zero_nonneg, SFsqrt_nonneg. now apply leb_zero_nonneg.
Qed.

Lemma range_and_stddev_are_nonnegative_witness :
  exists st : Stats float,
    range st = max st - min st
    /\ (0 <=? range st) = true
    /\ ((range st =? 0) = true <-> (min st =? max st) = true)
    /\ (0 <=? stddev st) = true.
Proof.
  destruct (calculate_stats [0x1p+1023; -0x1p+1023; 0x1p+1023] 3)
    as [[sorted_values st]|] eqn:E; [|vm_compute in E; discriminate].
  exists st.
  apply (range_and_stddev_are_nonnegative [0x1p+1023; -0x1p+1023; 0x1p+1023]
           sorted_values st eq_refl ltac:(vm_compute; discriminate) E).
Defined.

Lemma StronglySorted_last_greatest {A : Type} (R : A -> A -> Prop) (d : A) (l : list A) :
  StronglySorted R l -> forall y, In y l -> y = last l d \/ R y (last l d).
Proof.
  induction 1 as [|x l Hs IH Hall]; intros y Hy; [contradiction|].
  destruct l as [|x' l'].
  - destruct Hy as [<-|[]]. now left.
  - change (last (x :: x' :: l') d) with (last (x' :: l') d).
    destruct Hy as [<-|Hy]; [|now apply IH].
    right. rewrite Forall_forall in Hall. apply Hall.
    clear. revert x'. induction l' as [|z l' IH]; intros x'; [now left|].
    right. apply IH.
Qed.

(** X15.  On finite values [min] and [max], found by the first loop, are equal as
    numbers to the first and the last element of the array that the sort
    leaves. *)
Theorem min_max_are_the_ends_of_the_sorted_array :
  forall (values sorted_values : list float) (st : Stats float),
    forallb is_finite values = true ->
    calculate_stats values (Z.of_nat (List.length values)) = Some (sorted_values, st) ->
    sorted_values <> []
    /\ (min st =? hd 0 sorted_values) = true
    /\ (max st =? last sorted_values 0) = true.
Proof.
  intros values sorted_values st Hfin H.
  destruct values as [|v0 rest]; [discriminate|].
  destruct (calculate_stats_inv v0 rest sorted_values st H)
    as [Hsorted (m & a & b & _ & _ & _ & Hst)].
  destruct (float_min_max_in v0 rest Hfin) as (Imn & Imx & Lmn & Lmx).
  cbv zeta in Imn, Imx, Lmn, Lmx.
  assert (Hmin : min st = fold_left min_step (v0 :: rest) v0) by (rewrite Hst; reflexivity).
  assert (Hmax : max st = fold_left max_step (v0 :: rest) v0) by (rewrite Hst; reflexivity).
  rewrite <- Hmin in Imn, Lmn. rewrite <- Hmax in Imx, Lmx.
  assert (Hperm : Permutation (v0 :: rest) sorted_values)
    by (rewrite Hsorted; apply insertion_sort_perm).
  assert (Hnn : forall x, In x (v0 :: rest) -> not_nan x).
  { intros x Hx. rewrite forallb_forall in Hfin. now apply finite_not_nan, Hfin. }
  assert (Hs : StronglySorted float_le sorted_values).
  { rewrite Hsorted. apply insertion_sort_float_sorted. apply Forall_forall. exact Hnn. }
  assert (Hback : forall x, In x sorted_values -> In x (v0 :: rest)).
  { intros x Hx. eapply Permutation_in; [apply Permutation_sym, Hperm | exact Hx]. }
  assert (Hfwd : forall x, In x (v0 :: rest) -> In x sorted_values).
  { intros x Hx. eapply Permutation_in; [exact Hperm | exact Hx]. }
  destruct sorted_values as [|lo tl] eqn:Es.
  { apply Permutation_sym, Permutation_nil in Hperm. discriminate. }
  split; [discriminate|]. rewrite <- Es in *. split.
  - rewrite Es. cbn [hd].
    assert (Hlo : In lo (v0 :: rest)) by (apply Hback; rewrite Es; now left).
    apply float_leb_antisym.
    + apply not_nan_Prim2SF, Hnn, Imn.
    + apply not_nan_Prim2SF, Hnn, Hlo.
    + apply Lmn, Hlo.
    + pose proof (Hfwd _ Imn) as Hin. rewrite Es in Hin, Hs.
      destruct Hin as [<-|Hin];
        [apply float_leb_refl, not_nan_Prim2SF, Hnn, Hlo|].
      apply StronglySorted_inv in Hs. destruct Hs as [_ Hall].
      rewrite Forall_forall in Hall. apply Hall, Hin.
  - assert (Hhi : In (last sorted_values 0) sorted_values).
    { rewrite Es. clear. revert lo. induction tl as [|z tl IH]; intros lo; [now left|].
      right. apply IH. }
    apply float_leb_antisym.
    + apply not_nan_Prim2SF, Hnn, Imx.
    + apply not_nan_Prim2SF, Hnn, Hback, Hhi.
    + destruct (StronglySorted_last_greatest float_le 0 sorted_values Hs _ (Hfwd _ Imx))
        as [E|E]; [|exact E].
      rewrite <- E. apply float_leb_refl, not_nan_Prim2SF, Hnn, Imx.
    + apply Lmx, Hback, Hhi.
Qed.

Lemma min_max_are_the_ends_of_the_sorted_array_witness :
  exists (sorted_values : list float) (st : Stats float),
    sorted_values <> []
    /\ (min st =? hd 0 sorted_values) = true
    /\ (max st =? last sorted_values 0) = true.
Proof.
  destruct (calculate_stats [3; -0; 7; 0; -2] 5)
    as [[sorted_values st]|] eqn:E; [|vm_compute in E; discriminate].
  exists sorted_values, st.
  apply (min_max_are_the_ends_of_the_sorted_array [3; -0; 7; 0; -2]
           sorted_values st eq_refl E).
Defined.

(** ** Operations of binary64 that do not round *)

Local Close Scope float_scope.

(** Shifting out [p] zero bits loses nothing. *)
Lemma iter_shr_1_exact (p : positive) :
  forall m : positive,
    SpecFloat.iter_pos shr_1 p
      {| shr_m := Zpos m * 2 ^ Zpos p; shr_r := false; shr_s := false |}
    = {| shr_m := Zpos m; shr_r := false; shr_s := false |}.
Proof.
  assert (Hone : forall q : positive,
            shr_1 {| shr_m := Zpos q * 2 ^ 1; shr_r := false; shr_s := false |}
            = {| shr_m := Zpos q; shr_r := false; shr_s := false |}).
  { intros q. replace (Zpos q * 2 ^ 1) with (Zpos q~0) by lia. reflexivity. }
  assert (Hpos : forall (q k : positive), exists r : positive,
            Zpos q * 2 ^ Zpos k = Zpos r).
  { intros q k. exists (Pos.iter xO q k). symmetry. apply pos_iter_xO. }
  induction p as [p IH|p IH|]; intros m; cbn [SpecFloat.iter_pos].
  - destruct (Hpos m p) as [r Hr]. destruct (Hpos r p) as [r' Hr'].
    assert (E : 2 ^ Zpos p~1 = 2 ^ Zpos p * 2 ^ Zpos p * 2 ^ 1).
    { replace (Zpos p~1) with (Zpos p + Zpos p + 1) by lia.
      rewrite !Z.pow_add_r by lia. reflexivity. }
    replace (Zpos m * 2 ^ Zpos p~1) with (Zpos r' * 2 ^ 1)
      by (rewrite E, <- Hr', <- Hr; ring).
    rewrite Hone, <- Hr', IH, <- Hr. apply IH.
  - destruct (Hpos m p) as [r Hr].
    assert (E : 2 ^ Zpos p~0 = 2 ^ Zpos p * 2 ^ Zpos p).
    { replace (Zpos p~0) with (Zpos p + Zpos p) by lia.
      rewrite !Z.pow_add_r by lia. reflexivity. }
    replace (Zpos m * 2 ^ Zpos p~0) with (Zpos r * 2 ^ Zpos p)
      by (rewrite E, <- Hr; ring).
    rewrite IH, <- Hr. apply IH.
  - apply Hone.
Qed.

Lemma valid_binary_intro (s : bool) (m : positive) (e : Z) :
  Z.max (Zpos (digits2_pos m) + e - 53) (-1074) = e -> e <= 971 ->
  valid_binary (S754_finite s m e) = true.
Proof.
  intros Hc He. cbn [SpecFloat.valid_binary].
  unfold SpecFloat.bounded, SpecFloat.canonical_mantissa.
  rewrite fexp_binary64. apply andb_true_intro. split.
  - apply Z.eqb_eq. exact Hc.
  - apply Z.leb_le. change (emax - prec) with 971. exact He.
Qed.

(** Rounding the mantissa [m * 2^k] at the exponent [e - k] gives back the
    binary64 number [(m, e)] it stands for. *)
Lemma binary_round_aux_exact (s : bool) (m : positive) (e k : Z) :
  valid_binary (S754_finite s m e) = true -> 0 <= k ->
  binary_round_aux prec emax s (Zpos m * 2 ^ k) (e - k) loc_Exact
  = S754_finite s m e.
Proof.
  intros V Hk. destruct (valid_binary_digits s m e V) as [Hc He].
  unfold binary_round_aux.
  assert (H1 : shr_fexp prec emax (Zpos m * 2 ^ k) (e - k) loc_Exact
               = ({| shr_m := Zpos m; shr_r := false; shr_s := false |}, e)).
  { unfold shr_fexp. rewrite Zdigits2_mul_pow2 by lia. cbn [Zdigits2].
    rewrite fexp_binary64.
    replace (Z.max (Zpos (digits2_pos m) + k + (e - k) - 53) (-1074) - (e - k))
      with k by lia.
    unfold shr, shr_record_of_loc. destruct k as [|p|p]; [| |lia].
    - cbn [Z.pow]. rewrite Z.mul_1_r, Z.sub_0_r. reflexivity.
    - rewrite iter_shr_1_exact. f_equal. lia. }
  rewrite H1. cbn [shr_m loc_of_shr_record round_nearest_even].
  assert (H2 : shr_fexp prec emax (Zpos m) e loc_Exact
               = ({| shr_m := Zpos m; shr_r := false; shr_s := false |}, e)).
  { unfold shr_fexp. cbn [Zdigits2]. rewrite fexp_binary64.
    replace (Z.max (Zpos (digits2_pos m) + e - 53) (-1074) - e) with 0 by lia.
    reflexivity. }
  rewrite H2. cbn [shr_m].
  destruct (Z.leb_spec e (emax - prec)) as [_|H]; [reflexivity|].
  change (emax - prec) with 971 in H. lia.
Qed.

Lemma xorb_false_r' (s : bool) : xorb s false = s.
Proof. destruct s; reflexivity. Qed.

(** [x * 1] is [x]. *)
Lemma SFmul_one (x : spec_float) :
  valid_binary x = true ->
  SFmul prec emax x (S754_finite false 4503599627370496 (-52)) = x.
Proof.
  intros V. destruct x as [s|s| |s m e]; cbn [SFmul]; rewrite ?xorb_false_r'; try reflexivity.
  rewrite Pos2Z.inj_mul. change (Zpos 4503599627370496) with (2 ^ 52).
  change (e + -52) with (e - 52).
  apply binary_round_aux_exact; [exact V | lia].
Qed.

(** [x / 1] is [x]. *)
Lemma SFdiv_one (x : spec_float) :
  valid_binary x = true ->
  SFdiv prec emax x (S754_finite false 4503599627370496 (-52)) = x.
Proof.
  intros V. destruct x as [s|s| |s m e]; cbn [SFdiv]; rewrite ?xorb_false_r'; try reflexivity.
  destruct (valid_binary_digits s m e V) as [Hc He].
  unfold SFdiv_core_binary. cbn [Zdigits2].
  change (Zpos (digits2_pos 4503599627370496)) with 53.
  rewrite fexp_binary64.
  set (d := Zpos (digits2_pos m)) in *.
  assert (Hd : 0 < d) by (unfold d; lia).
  set (e' := Z.min (Z.max (d + e - (53 + -52) - 53) (-1074)) (e - -52)).
  assert (He' : e' = Z.max (e - 1) (-1074)) by (unfold e'; lia).
  clearbody e'.
  set (k := e - e').
  assert (Hk : 0 <= k <= 1) by (unfold k; lia).
  replace (e - -52 - e') with (52 + k) by (unfold k; lia).
  destruct (52 + k) as [|p|p] eqn:Ep; try lia.
  rewrite <- Ep. rewrite Z.shiftl_mul_pow2 by lia.
  change (Zpos 4503599627370496) with (2 ^ 52).
  pose proof (Z.div_eucl_eq (Zpos m * 2 ^ (52 + k)) (2 ^ 52) ltac:(lia)) as Hde.
  pose proof (Z.mod_pos_bound (Zpos m * 2 ^ (52 + k)) (2 ^ 52) ltac:(lia)) as Hmod.
  unfold Z.modulo in Hmod.
  destruct (Z.div_eucl (Zpos m * 2 ^ (52 + k)) (2 ^ 52)) as [q r].
  assert (Hq : q = Zpos m * 2 ^ k /\ r = 0).
  { rewrite Z.pow_add_r in Hde by lia.
    assert (0 < 2 ^ k) by (apply Z.pow_pos_nonneg; lia).
    change (2 ^ 52) with 4503599627370496 in *. nia. }
  destruct Hq as [-> ->].
  change (new_location (2 ^ 52) 0) with loc_Exact.
  replace e' with (e - k) by (unfold k; lia).
  apply binary_round_aux_exact; [exact V | lia].
Qed.

(** [x - x] is [+0] for a finite [x]. *)
Lemma SFsub_diag (x : spec_float) :
  sf_finite x -> SFsub prec emax x x = S754_zero false.
Proof.
  destruct x as [[|]|s| |s m e]; cbn [sf_finite SFsub]; try contradiction; try reflexivity.
  intros _. rewrite Z.sub_diag. reflexivity.
Qed.

Local Open Scope float_scope.

Lemma size_t_to_double_one : size_t_to_double 1 = 1.
Proof. vm_compute. reflexivity. Qed.

Lemma float_mul_one (a : float) : a * 1 = a.
Proof.
  apply Prim2SF_inj. rewrite mul_spec, Prim2SF_one.
  apply SFmul_one, Prim2SF_valid.
Qed.

Lemma float_div_one (a : float) : a / 1 = a.
Proof.
  apply Prim2SF_inj. rewrite div_spec, Prim2SF_one.
  apply SFdiv_one, Prim2SF_valid.
Qed.

Lemma float_sub_diag (a : float) : is_finite a = true -> a - a = 0.
Proof.
  intros H. apply Prim2SF_inj. rewrite sub_spec, Prim2SF_zero.
  apply SFsub_diag, is_finite_sf, H.
Qed.

(** [0 + v] is [v], but for [v = -0], where it is [+0]. *)
Lemma float_zero_add (v : float) :
  Prim2SF (0 + v)
  = match Prim2SF v with S754_zero _ => S754_zero false | y => y end.
Proof.
  rewrite add_spec, Prim2SF_zero.
  destruct (Prim2SF v) as [[|]|s| |s m e]; reflexivity.
Qed.

Lemma float_eqb_refl (v : float) : is_finite v = true -> (v =? v) = true.
Proof.
  intros H. rewrite FloatAxioms.eqb_spec. unfold SFeqb.
  rewrite SFcompare_refl; [reflexivity|].
  apply is_finite_sf in H. destruct (Prim2SF v); try discriminate; contradiction.
Qed.

(** X16.  The statistics of a single finite number [v]: every position statistic
    is [v] itself, the sum and the mean equal [v] (a zero may change its
    sign), and range, variance and standard deviation are [+0]. *)
Theorem single_value_stats :
  forall v : float,
    is_finite v = true ->
    exists st : Stats float,
      calculate_stats [v] 1 = Some ([v], st)
      /\ count st = 1%Z
      /\ min st = v /\ max st = v /\ median st = v /\ q1 st = v /\ q3 st = v
      /\ (sum st =? v) = true /\ (mean st =? v) = true
      /\ range st = 0 /\ variance st = 0 /\ stddev st = 0.
Proof.
  intros v Hfin.
  assert (Hord : total_order_on compare_double [v] = true).
  { apply float_total_order, finite_no_nan. cbn [forallb]. now rewrite Hfin. }
  pose proof (calculate_stats_sorted (ops := float_ops) v [] Hord) as Hu.
  cbv zeta in Hu. cbn [List.length Z.of_nat Pos.of_succ_nat insertion_sort qsort_insert] in Hu.
  change (get_percentile [v] 1 lit_0_50) with (Some v) in Hu.
  change (get_percentile [v] 1 lit_0_25) with (Some v) in Hu.
  change (get_percentile [v] 1 lit_0_75) with (Some v) in Hu.
  cbn [bind] in Hu.
  exists (stats_record [v] v v v v). split; [exact Hu|]. clear Hu.
  unfold stats_record.
  cbn [count min max median q1 q3 sum mean range variance stddev List.length
         Z.of_nat Pos.of_succ_nat fold_left].
  change (@of_size_t float float_ops 1) with (size_t_to_double 1).
  rewrite size_t_to_double_one.
  change (@ddiv float float_ops) with PrimFloat.div.
  change (@dadd float float_ops) with PrimFloat.add.
  change (@dsub float float_ops) with PrimFloat.sub.
  change (@dsqrt float float_ops) with PrimFloat.sqrt.
  change (@lit_0 float float_ops) with 0.
  unfold min_step, max_step, variance_step.
  change (@dlt float float_ops) with PrimFloat.ltb.
  change (@dadd float float_ops) with PrimFloat.add.
  change (@dsub float float_ops) with PrimFloat.sub.
  change (@dmul float float_ops) with PrimFloat.mul.
  rewrite ltb_irrefl, !float_div_one.
  assert (Hsum : (0 + v =? v) = true).
  { rewrite FloatAxioms.eqb_spec, float_zero_add.
    pose proof (is_finite_sf v Hfin) as Hf.
    destruct (Prim2SF v) as [s|s| |s m e] eqn:E; try contradiction.
    - reflexivity.
    - unfold SFeqb. rewrite SFcompare_refl by discriminate. reflexivity. }
  assert (Hdiff : sf_is_zero (Prim2SF (v - (0 + v))) = true).
  { rewrite sub_spec, float_zero_add.
    pose proof (is_finite_sf v Hfin) as Hf.
    destruct (Prim2SF v) as [[|]|s| |s m e] eqn:E; try contradiction; try reflexivity.
    rewrite SFsub_diag by exact I. reflexivity. }
  assert (Hvar : 0 + (v - (0 + v)) * (v - (0 + v)) = 0).
  { apply Prim2SF_inj. rewrite add_spec, mul_spec, Prim2SF_zero.
    destruct (Prim2SF (v - (0 + v))) as [[|]|s| |s m e]; try discriminate; reflexivity. }
  rewrite Hvar, (float_sub_diag v Hfin).
  repeat split; try reflexivity; try exact Hsum.
Qed.

Lemma single_value_stats_witness :
  exists st : Stats float,
    calculate_stats [-0] 1 = Some ([-0], st)
    /\ count st = 1%Z
    /\ min st = -0 /\ max st = -0 /\ median st = -0 /\ q1 st = -0 /\ q3 st = -0
    /\ (sum st =? -0) = true /\ (mean st =? -0) = true
    /\ range st = 0 /\ variance st = 0 /\ stddev st = 0.
Proof. apply (single_value_stats (-0)). reflexivity. Defined.

(** ** The ranks of the quartiles are computed without rounding *)

Local Close Scope float_scope.

(** The binary64 number of value [K * 2^t], for [0 < K < 2^53] in the normal
    range: the mantissa is [K] shifted to 53 bits. *)
Definition canon_m (K : Z) : positive := Z.to_pos (K * 2 ^ (53 - Zdigits2 K)).

Definition canon (K t : Z) : spec_float :=
  S754_finite false (canon_m K) (t + Zdigits2 K - 53).

Lemma Zdigits2_le_53 (K : Z) : 0 < K < 2 ^ 53 -> 0 < Zdigits2 K <= 53.
Proof.
  intros H. destruct (Zdigits2_nonneg_spec K) as (_ & _ & Hlb); [lia|].
  specialize (Hlb ltac:(lia)). pose proof (Zdigits2_pos K ltac:(lia)).
  split; [assumption|].
  assert (2 ^ (Zdigits2 K - 1) < 2 ^ 53) by lia.
  apply Z.pow_lt_mono_r_iff in H1; lia.
Qed.

Lemma Zdigits2_le_mono (a b : Z) : 0 < a <= b -> Zdigits2 a <= Zdigits2 b.
Proof.
  intros H. destruct a as [|p|p]; try lia. destruct b as [|q|q]; try lia.
  cbn [Zdigits2]. apply digits2_pos_le_mono. lia.
Qed.

Lemma canon_m_spec (K : Z) :
  0 < K < 2 ^ 53 -> Zpos (canon_m K) = K * 2 ^ (53 - Zdigits2 K).
Proof.
  intros H. pose proof (Zdigits2_le_53 K H).
  unfold canon_m. rewrite Z2Pos.id; [reflexivity|].
  apply Z.mul_pos_pos; [lia | apply Z.pow_pos_nonneg; lia].
Qed.

Lemma canon_m_digits (K : Z) :
  0 < K < 2 ^ 53 -> Zpos (digits2_pos (canon_m K)) = 53.
Proof.
  intros H. pose proof (Zdigits2_le_53 K H).
  change (Zpos (digits2_pos (canon_m K))) with (Zdigits2 (Zpos (canon_m K))).
  rewrite canon_m_spec, Zdigits2_mul_pow2 by lia. lia.
Qed.

Lemma canon_valid (K t : Z) :
  0 < K < 2 ^ 53 -> -1074 <= t + Zdigits2 K - 53 <= 971 ->
  valid_binary (canon K t) = true.
Proof.
  intros H Ht. unfold canon. apply valid_binary_intro; [|lia].
  rewrite canon_m_digits by assumption. lia.
Qed.

(** Normalising [K * 2^k] at the exponent [t - k] gives [canon K t]. *)
Lemma binary_round_canon (P : positive) (K t k : Z) :
  0 < K < 2 ^ 53 -> 0 <= k -> Zpos P = K * 2 ^ k ->
  -1074 <= t + Zdigits2 K - 53 <= 971 ->
  binary_round prec emax false P (t - k) = canon K t.
Proof.
  intros HK Hk HP Ht. pose proof (Zdigits2_le_53 K HK) as Hd.
  pose proof (canon_valid K t HK Ht) as V. unfold canon in V.
  pose proof (canon_m_spec K HK) as Hm.
  unfold binary_round.
  change (Zpos (digits2_pos P)) with (Zdigits2 (Zpos P)).
  rewrite HP, Zdigits2_mul_pow2, fexp_binary64 by lia.
  replace (Z.max (Zdigits2 K + k + (t - k) - 53) (-1074)) with (t + Zdigits2 K - 53) by lia.
  unfold canon. remember (t + Zdigits2 K - 53) as E eqn:HE.
  unfold shl_align.
  destruct (E - (t - k)) as [|d|d] eqn:Ed.
  - replace (Zpos P) with (Zpos (canon_m K) * 2 ^ 0).
    2:{ rewrite HP, Hm. replace k with (53 - Zdigits2 K) by lia.
        change (2 ^ 0) with 1. lia. }
    replace (t - k) with (E - 0) by lia.
    apply binary_round_aux_exact; [exact V | lia].
  - replace (Zpos P) with (Zpos (canon_m K) * 2 ^ Zpos d).
    2:{ rewrite HP, Hm, <- Z.mul_assoc, <- Z.pow_add_r by lia. f_equal. f_equal. lia. }
    replace (t - k) with (E - Zpos d) by lia.
    apply binary_round_aux_exact; [exact V | lia].
  - rewrite pos_iter_xO, HP.
    replace (K * 2 ^ k * 2 ^ Zpos d) with (Zpos (canon_m K) * 2 ^ 0).
    2:{ rewrite Hm. change (2 ^ 0) with 1.
        rewrite Z.mul_1_r, <- Z.mul_assoc, <- Z.pow_add_r by lia.
        f_equal. f_equal. lia. }
    replace E with (E - 0) at 1 by lia.
    apply binary_round_aux_exact; [exact V | lia].
Qed.

(** [(double) N] for [0 < N < 2^53] is the number of value [N]. *)
Lemma size_t_to_double_canon (N : Z) :
  0 < N < 2 ^ 53 -> Prim2SF (size_t_to_double N) = canon N 0.
Proof.
  intros H. pose proof (Zdigits2_le_53 N H).
  rewrite size_t_to_double_spec by lia.
  destruct N as [|P|P]; try lia. cbn [binary_normalize].
  change 0 with (0 - 0) at 1.
  apply binary_round_canon; try lia.
Qed.

Lemma canon_scale (K t j : Z) :
  0 < K -> 0 <= j -> K * 2 ^ j < 2 ^ 53 -> canon (K * 2 ^ j) (t - j) = canon K t.
Proof.
  intros HK Hj Hlt.
  assert (Hp : 0 < 2 ^ j) by (apply Z.pow_pos_nonneg; lia).
  assert (HK' : 0 < K < 2 ^ 53) by nia.
  pose proof (Zdigits2_le_53 (K * 2 ^ j) ltac:(nia)) as Hd.
  rewrite Zdigits2_mul_pow2 in Hd by lia.
  unfold canon, canon_m. rewrite Zdigits2_mul_pow2 by lia.
  f_equal; [|lia]. f_equal.
  rewrite <- Z.mul_assoc, <- Z.pow_add_r by lia. f_equal. f_equal. lia.
Qed.

(** The product of two such numbers, when it has at most 53 bits, is the
    number of value the product. *)
Lemma SFmul_canon (K1 t1 K2 t2 : Z) :
  0 < K1 -> 0 < K2 -> K1 * K2 < 2 ^ 53 ->
  -1074 <= t1 + t2 + Zdigits2 (K1 * K2) - 53 <= 971 ->
  SFmul prec emax (canon K1 t1) (canon K2 t2) = canon (K1 * K2) (t1 + t2).
Proof.
  intros H1 H2 H12 Ht.
  assert (HK1 : 0 < K1 < 2 ^ 53) by nia.
  assert (HK2 : 0 < K2 < 2 ^ 53) by nia.
  assert (HK12 : 0 < K1 * K2 < 2 ^ 53) by nia.
  pose proof (Zdigits2_le_53 K1 HK1) as Hd1.
  pose proof (Zdigits2_le_53 K2 HK2) as Hd2.
  pose proof (Zdigits2_le_53 (K1 * K2) HK12) as Hd12.
  pose proof (Zdigits2_le_mono K1 (K1 * K2) ltac:(nia)) as Hmono.
  pose proof (canon_valid (K1 * K2) (t1 + t2) HK12 Ht) as V. unfold canon in V.
  unfold canon. cbn [SFmul xorb].
  rewrite Pos2Z.inj_mul, !canon_m_spec by assumption.
  set (d1 := Zdigits2 K1) in *. set (d2 := Zdigits2 K2) in *.
  set (d12 := Zdigits2 (K1 * K2)) in *.
  replace (K1 * 2 ^ (53 - d1) * (K2 * 2 ^ (53 - d2)))
    with (Zpos (canon_m (K1 * K2)) * 2 ^ (53 + d12 - d1 - d2)).
  2:{ rewrite canon_m_spec by assumption. fold d12.
      replace (53 + d12 - d1 - d2) with ((53 - d1) + (53 - d2) - (53 - d12)) by lia.
      assert (E : 2 ^ (53 - d1) * 2 ^ (53 - d2)
                  = 2 ^ (53 - d12) * 2 ^ (53 - d1 + (53 - d2) - (53 - d12))).
      { rewrite <- !Z.pow_add_r by lia. f_equal. lia. }
      nia. }
  replace (t1 + d1 - 53 + (t2 + d2 - 53))
    with (t1 + t2 + d12 - 53 - (53 + d12 - d1 - d2)) by lia.
  apply binary_round_aux_exact; [exact V | lia].
Qed.

(** The difference of two such numbers at the same scale. *)
Lemma SFsub_canon (K1 K2 t : Z) :
  0 < K2 <= K1 -> K1 < 2 ^ 53 ->
  -1074 <= t + Zdigits2 K2 - 53 -> t + Zdigits2 K1 - 53 <= 971 ->
  (K1 = K2 \/ -1074 <= t + Zdigits2 (K1 - K2) - 53) ->
  SFsub prec emax (canon K1 t) (canon K2 t)
  = if K1 =? K2 then S754_zero false else canon (K1 - K2) t.
Proof.
  intros H21 H1 Hlo Hhi Hr.
  assert (HK1 : 0 < K1 < 2 ^ 53) by lia.
  assert (HK2 : 0 < K2 < 2 ^ 53) by lia.
  pose proof (Zdigits2_le_53 K1 HK1) as Hd1.
  pose proof (Zdigits2_le_53 K2 HK2) as Hd2.
  pose proof (Zdigits2_le_mono K2 K1 ltac:(lia)) as Hmono.
  unfold canon at 1 2. cbn [SFsub cond_Zopp].
  rewrite Z.min_r by lia.
  rewrite !shl_align_fst by lia. rewrite !canon_m_spec by assumption.
  set (d1 := Zdigits2 K1) in *. set (d2 := Zdigits2 K2) in *.
  replace (t + d2 - 53 - (t + d2 - 53)) with 0 by lia.
  replace (t + d1 - 53 - (t + d2 - 53)) with (d1 - d2) by lia.
  replace (K1 * 2 ^ (53 - d1) * 2 ^ (d1 - d2) - K2 * 2 ^ (53 - d2) * 2 ^ 0)
    with ((K1 - K2) * 2 ^ (53 - d2)).
  2:{ rewrite <- Z.mul_assoc, <- Z.pow_add_r by lia.
      replace (53 - d1 + (d1 - d2)) with (53 - d2) by lia.
      change (2 ^ 0) with 1. ring. }
  destruct (Z.eqb_spec K1 K2) as [->|Hne].
  - rewrite Z.sub_diag. reflexivity.
  - assert (Hp : 0 < 2 ^ (53 - d2)) by (apply Z.pow_pos_nonneg; lia).
    destruct ((K1 - K2) * 2 ^ (53 - d2)) as [|P|P] eqn:EP; try nia.
    cbn [binary_normalize].
    replace (t + d2 - 53) with (t - (53 - d2)) by lia.
    pose proof (Zdigits2_le_mono (K1 - K2) K1 ltac:(lia)) as Hmono'.
    apply binary_round_canon; try lia.
Qed.

(** Truncating the number of value [K / 4] gives the integer quotient. *)
Lemma trunc_canon_quarter (K : Z) :
  0 < K < 2 ^ 53 ->
  trunc_mantissa (canon_m K) (-2 + Zdigits2 K - 53) = K / 4.
Proof.
  intros H. pose proof (Zdigits2_le_53 K H) as Hd.
  unfold trunc_mantissa. rewrite canon_m_spec by assumption.
  rewrite Z.shiftl_div_pow2 by lia.
  replace (- (-2 + Zdigits2 K - 53)) with (2 + (53 - Zdigits2 K)) by lia.
  rewrite Z.pow_add_r by lia. change (2 ^ 2) with 4.
  assert (Hp : 0 < 2 ^ (53 - Zdigits2 K)) by (apply Z.pow_pos_nonneg; lia).
  rewrite Z.div_mul_cancel_r by lia. reflexivity.
Qed.

Local Open Scope float_scope.

(** The percentiles [calculate_stats] asks for, [j / 4] for [j] = 1, 2, 3,
    and the fractional parts a rank [j * N / 4] can have. *)
Definition quartile_literal (j : Z) : float :=
  match j with 1%Z => 0.25 | 2%Z => 0.5 | _ => 0.75 end.

Definition quartile_weight (r : Z) : float :=
  match r with 0%Z => 0 | 1%Z => 0.25 | 2%Z => 0.5 | _ => 0.75 end.

Lemma quartile_literal_canon (j : Z) :
  (1 <= j <= 3)%Z -> Prim2SF (quartile_literal j) = canon j (-2).
Proof.
  intros H. assert (j = 1 \/ j = 2 \/ j = 3)%Z as [->|[->| ->]] by lia;
    vm_compute; reflexivity.
Qed.

Lemma quartile_weight_canon (r : Z) :
  (0 <= r <= 3)%Z ->
  Prim2SF (quartile_weight r) = if (r =? 0)%Z then S754_zero false else canon r (-2).
Proof.
  intros H. assert (r = 0 \/ r = 1 \/ r = 2 \/ r = 3)%Z as [->|[->|[->| ->]]] by lia;
    vm_compute; reflexivity.
Qed.

(** The rank [p * (count - 1)], its integer part and its fractional part, as
    [get_percentile] computes them in binary64, for [N = count - 1]. *)
Lemma quartile_rank (j N : Z) :
  (1 <= j <= 3)%Z -> (1 <= N < 2 ^ 51)%Z ->
  let index := quartile_literal j * size_t_to_double N in
  double_to_size_t index = Some (j * N / 4)%Z
  /\ index - size_t_to_double (j * N / 4) = quartile_weight ((j * N) mod 4).
Proof.
  intros Hj HN index.
  assert (HjN : (0 < j * N < 2 ^ 53)%Z) by nia.
  pose proof (Zdigits2_le_53 (j * N) HjN) as Hd.
  assert (Hindex : Prim2SF index = canon (j * N) (-2)).
  { unfold index. rewrite mul_spec, quartile_literal_canon by assumption.
    rewrite size_t_to_double_canon by lia.
    change (-2)%Z with (-2 + 0)%Z at 2.
    apply SFmul_canon; lia. }
  pose proof (Z.div_mod (j * N) 4 ltac:(lia)) as Hdm.
  pose proof (Z.mod_pos_bound (j * N) 4 ltac:(lia)) as Hmod.
  split.
  - unfold double_to_size_t. rewrite Hindex. unfold canon.
    rewrite trunc_canon_quarter by assumption.
    destruct (Z.leb_spec (j * N / 4) SIZE_MAX) as [_|H]; [reflexivity|].
    unfold SIZE_MAX in H. lia.
  - apply Prim2SF_inj. rewrite sub_spec, Hindex, quartile_weight_canon by lia.
    destruct (Z.eq_dec (j * N / 4) 0) as [E0|Hne].
    + rewrite E0. change (Prim2SF (size_t_to_double 0)) with (S754_zero false).
      replace ((j * N) mod 4)%Z with (j * N)%Z by lia.
      destruct (Z.eqb_spec (j * N) 0); [lia|]. reflexivity.
    + assert (HL : (0 < j * N / 4)%Z) by lia.
      rewrite size_t_to_double_canon by lia.
      rewrite <- (canon_scale (j * N / 4) 0 2) by lia.
      change (2 ^ 2)%Z with 4%Z. change (0 - 2)%Z with (-2)%Z.
      pose proof (Zdigits2_le_53 (j * N / 4 * 4) ltac:(lia)) as Hd4.
      rewrite SFsub_canon; try lia.
      * replace (j * N - j * N / 4 * 4)%Z with ((j * N) mod 4)%Z by lia.
        destruct (Z.eqb_spec (j * N) (j * N / 4 * 4)) as [E|E];
          destruct (Z.eqb_spec ((j * N) mod 4) 0) as [E'|E']; try lia; reflexivity.
      * destruct (Z.eq_dec (j * N) (j * N / 4 * 4)) as [E|E]; [now left|right].
        pose proof (Zdigits2_pos (j * N - j * N / 4 * 4) ltac:(lia)). lia.
Qed.

(** The interpolation at the rank [j * (n - 1) / 4] of an array of [n]
    elements. *)
Definition quartile_value (sorted_values : list float) (j : Z) : float :=
  let n := Z.of_nat (List.length sorted_values) in
  let lower := (j * (n - 1) / 4)%Z in
  let weight := quartile_weight ((j * (n - 1)) mod 4) in
  nth (Z.to_nat lower) sorted_values 0 * (1 - weight)
  + nth (Z.to_nat (lower + 1)) sorted_values 0 * weight.

Lemma quartile_interpolation (sorted_values : list float) (j : Z) :
  let n := Z.of_nat (List.length sorted_values) in
  (2 <= n <= 2 ^ 51)%Z -> (1 <= j <= 3)%Z ->
  (j * (n - 1) / 4 + 1 < n)%Z
  /\ get_percentile sorted_values n (quartile_literal j)
     = Some (quartile_value sorted_values j).
Proof.
  intros n Hn Hj.
  destruct (quartile_rank j (n - 1) Hj ltac:(lia)) as [Hcast Hw]. cbv zeta in Hcast, Hw.
  assert (Hlow : (0 <= j * (n - 1) / 4 /\ j * (n - 1) / 4 + 1 < n)%Z).
  { pose proof (Z.div_mod (j * (n - 1)) 4 ltac:(lia)).
    pose proof (Z.mod_pos_bound (j * (n - 1)) 4 ltac:(lia)). nia. }
  split; [apply Hlow|].
  pose proof (get_percentile_at (ops := float_ops) sorted_values (quartile_literal j)
                (j * (n - 1) / 4) 0) as Hg.
  cbv zeta in Hg. fold n in Hg. rewrite Hg; [|lia|exact Hcast|lia].
  unfold interpolate, quartile_value. fold n.
  destruct (Z.geb_spec (j * (n - 1) / 4 + 1) n) as [H|_]; [lia|].
  change (@of_size_t float float_ops) with size_t_to_double.
  change (@dmul float float_ops) with PrimFloat.mul.
  change (@dsub float float_ops) with PrimFloat.sub.
  change (@dadd float float_ops) with PrimFloat.add.
  change (@lit_1 float float_ops) with 1.
  rewrite Hw. reflexivity.
Qed.

Lemma some_eq {A : Type} (x y : A) : Some x = Some y -> x = y.
Proof. intros H. now inversion H. Qed.

(** X17.  For at most [2^51] values, [get_percentile] at 0.25, 0.5 and 0.75
    computes the rank without rounding: [lower] is the integer part of
    [j * (count - 1) / 4] and [weight] its fractional part, one of 0, 0.25,
    0.5, 0.75.  [upper] is below [count], so the early return of the last
    element is never taken, and the result is the interpolation of the two
    neighbours, where alone the arithmetic rounds.  These are the [q1], the
    [median] and the [q3] of [calculate_stats]. *)
Theorem quartile_ranks_are_exact :
  (forall (sorted_values : list float) (j : Z),
     let n := Z.of_nat (List.length sorted_values) in
     (2 <= n <= 2 ^ 51)%Z -> (1 <= j <= 3)%Z ->
     (j * (n - 1) / 4 + 1 < n)%Z
     /\ get_percentile sorted_values n (quartile_literal j)
        = Some (quartile_value sorted_values j))
  /\ (forall (values sorted_values : list float) (st : Stats float),
        let n := Z.of_nat (List.length values) in
        no_nan values = true -> (2 <= n <= 2 ^ 51)%Z ->
        calculate_stats values n = Some (sorted_values, st) ->
        q1 st = quartile_value sorted_values 1
        /\ median st = quartile_value sorted_values 2
        /\ q3 st = quartile_value sorted_values 3).
Proof.
  split; [exact quartile_interpolation|].
  intros values sorted_values st n _ Hn H.
  destruct values as [|v0 rest]; [discriminate|].
  destruct (calculate_stats_inv v0 rest sorted_values st H)
    as [Hsorted (m & a & b & Hm & Ha & Hb & Hst)].
  assert (Hlen : Z.of_nat (List.length sorted_values) = n).
  { rewrite Hsorted, insertion_sort_length. reflexivity. }
  fold n in Hm, Ha, Hb.
  assert (Hq : forall j, (1 <= j <= 3)%Z ->
                 get_percentile sorted_values n (quartile_literal j)
                 = Some (quartile_value sorted_values j)).
  { intros j Hj. pose proof (quartile_interpolation sorted_values j) as Hi.
    cbv zeta in Hi. rewrite Hlen in Hi. apply Hi; [exact Hn | exact Hj]. }
  change (@lit_0_50 float float_ops) with (quartile_literal 2) in Hm.
  change (@lit_0_25 float float_ops) with (quartile_literal 1) in Ha.
  change (@lit_0_75 float float_ops) with (quartile_literal 3) in Hb.
  rewrite Hq in Hm, Ha, Hb by lia.
  apply some_eq in Hm. apply some_eq in Ha. apply some_eq in Hb.
  rewrite Hst. cbn [q1 median q3 stats_record]. now rewrite Hm, Ha, Hb.
Qed.

Lemma quartile_ranks_are_exact_witness :
  (3 * (6 - 1) / 4 + 1 < 6)%Z
  /\ get_percentile [1; 2; 3; 4; 5; 6] 6 0.75
     = Some (quartile_value [1; 2; 3; 4; 5; 6] 3%Z).
Proof.
  apply (proj1 quartile_ranks_are_exact [1; 2; 3; 4; 5; 6] 3%Z).
  - vm_compute. split; discriminate.
  - lia.
Defined.

Lemma float_mul_zero_finite (b : float) :
  is_finite b = true -> sf_is_zero (Prim2SF (b * 0)) = true.
Proof.
  intros H. apply is_finite_sf in H. rewrite mul_spec, Prim2SF_zero.
  destruct (Prim2SF b) as [s|s| |s m e]; try contradiction; reflexivity.
Qed.

Lemma float_mul_zero_infinite (b : float) :
  not_nan b -> is_finite b = false -> Prim2SF (b * 0) = S754_nan.
Proof.
  intros Hn H. apply not_nan_Prim2SF in Hn. unfold is_finite in H.
  rewrite mul_spec, Prim2SF_zero.
  destruct (Prim2SF b) as [s|s| |s m e]; try discriminate; try contradiction; reflexivity.
Qed.

Lemma float_add_zero_eqb (a z : float) :
  not_nan a -> sf_is_zero (Prim2SF z) = true -> (a + z =? a) = true.
Proof.
  intros Ha Hz. apply not_nan_Prim2SF in Ha.
  rewrite FloatAxioms.eqb_spec, add_spec. unfold SFeqb.
  destruct (Prim2SF z) as [sz|sz| |sz mz ez]; try discriminate.
  destruct (Prim2SF a) as [[|]|[|]| |s m e] eqn:E; try contradiction;
    try (destruct sz; reflexivity).
  cbn [SFadd]. rewrite SFcompare_refl by discriminate. reflexivity.
Qed.

Lemma float_add_nan_r (a z : float) :
  Prim2SF z = S754_nan -> PrimFloat.is_nan (a + z) = true.
Proof.
  intros Hz. apply is_nan_Prim2SF. rewrite add_spec, Hz.
  destruct (Prim2SF a); reflexivity.
Qed.

(** X18.  The median of at most [2^51] values without NaN, with [a] and [b] the
    elements of the sorted array at the positions [(n - 1) / 2] and the next.
    For an odd count it is equal to the middle element [a] when [b] is
    finite, and a NaN when [b] is an infinity; for an even count it is
    [a * 0.5 + b * 0.5]. *)
Theorem median_is_the_middle :
  forall (values sorted_values : list float) (st : Stats float),
    let n := Z.of_nat (List.length values) in
    no_nan values = true -> (2 <= n <= 2 ^ 51)%Z ->
    calculate_stats values n = Some (sorted_values, st) ->
    let a := nth (Z.to_nat ((n - 1) / 2)) sorted_values 0 in
    let b := nth (Z.to_nat ((n - 1) / 2 + 1)) sorted_values 0 in
    (Z.odd n = true ->
     (is_finite b = true -> (median st =? a) = true)
     /\ (is_finite b = false -> PrimFloat.is_nan (median st) = true))
    /\ (Z.even n = true -> median st = a * 0.5 + b * 0.5).
Proof.
  intros values sorted_values st n Hnan Hn H a b.
  destruct values as [|v0 rest]; [discriminate|].
  destruct (calculate_stats_inv v0 rest sorted_values st H)
    as [Hsorted (m & q & q' & Hm & _ & _ & Hst)].
  assert (Hmed : median st = m) by (rewrite Hst; reflexivity).
  assert (Hlen : Z.of_nat (List.length sorted_values) = n).
  { rewrite Hsorted, insertion_sort_length. reflexivity. }
  assert (Hin : forall i, (0 <= i < n)%Z -> not_nan (nth (Z.to_nat i) sorted_values 0)).
  { assert (Hperm : Permutation (v0 :: rest) sorted_values)
      by (rewrite Hsorted; apply insertion_sort_perm).
    intros i Hi. apply no_nan_Forall in Hnan. rewrite Forall_forall in Hnan.
    apply Hnan. apply (Permutation_in _ (Permutation_sym Hperm)).
    apply nth_In. lia. }
  clear Hnan.
  change (@lit_0_50 float float_ops) with 0.5 in Hm. fold n in Hm.
  clear H Hst Hsorted. clearbody n.
  pose proof (quartile_interpolation sorted_values 2) as Hq.
  cbv zeta in Hq. rewrite Hlen in Hq.
  destruct (Hq Hn ltac:(lia)) as [Hup Hq']. clear Hq. rename Hq' into Hq.
  change (quartile_literal 2) with 0.5 in Hq.
  rewrite Hq in Hm. apply some_eq in Hm. rename Hm into Hm'. clear Hq.
  unfold quartile_value in Hm'. rewrite Hlen in Hm'.
  assert (Hh : (2 * (n - 1) / 4 = (n - 1) / 2)%Z).
  { change 4%Z with (2 * 2)%Z. rewrite Z.div_mul_cancel_l by lia. reflexivity. }
  rewrite Hh in Hm', Hup. fold a b in Hm'.
  pose proof (Z.div_mod (n - 1) 2 ltac:(lia)) as Hdm.
  pose proof (Z.mod_pos_bound (n - 1) 2 ltac:(lia)) as Hmod.
  split.
  - intros Hodd. rewrite Z.odd_spec in Hodd. destruct Hodd as [k Hk].
    assert (Hr : ((2 * (n - 1)) mod 4 = 0)%Z).
    { replace (2 * (n - 1))%Z with (k * 4)%Z by lia. apply Z.mod_mul. lia. }
    rewrite Hr in Hm'. change (quartile_weight 0) with 0 in Hm'.
    change (1 - 0) with 1 in Hm'. rewrite float_mul_one in Hm'.
    rewrite Hmed, <- Hm'. split; intros Hb.
    + apply float_add_zero_eqb; [apply Hin; lia|].
      now apply float_mul_zero_finite.
    + apply float_add_nan_r, float_mul_zero_infinite; [apply Hin; lia | exact Hb].
  - intros Heven. rewrite Z.even_spec in Heven. destruct Heven as [k Hk].
    assert (Hr : ((2 * (n - 1)) mod 4 = 2)%Z).
    { replace (2 * (n - 1))%Z with (2 + (k - 1) * 4)%Z by lia.
      rewrite Z.mod_add by lia. reflexivity. }
    rewrite Hr in Hm'. change (quartile_weight 2) with 0.5 in Hm'.
    change (1 - 0.5) with 0.5 in Hm'.
    rewrite Hmed, <- Hm'. reflexivity.
Qed.

Lemma median_is_the_middle_witness :
  exists st : Stats float,
    (Z.odd 3 = true ->
     (is_finite infinity = true -> (median st =? 2) = true)
     /\ (is_finite infinity = false -> PrimFloat.is_nan (median st) = true))
    /\ (Z.even 3 = true -> median st = 2 * 0.5 + infinity * 0.5).
Proof.
  destruct (calculate_stats [infinity; 1; 2] 3)
    as [[sorted_values st]|] eqn:E; [|vm_compute in E; discriminate].
  exists st.
  assert (Hs : sorted_values = [1; 2; infinity]).
  { vm_compute in E. inversion E. reflexivity. }
  pose proof (median_is_the_middle [infinity; 1; 2] sorted_values st eq_refl
                ltac:(vm_compute; split; discriminate) E) as H.
  rewrite Hs in H. exact H.
Defined.

(** ** Independence of the input order in binary64 *)

Local Close Scope float_scope.

(** Rounding a positive mantissa whose value is below the largest binary64
    number does not overflow. *)
Lemma binary_round_aux_finite (s : bool) (mx ex : Z) (lx : location) :
  0 < mx -> ex <= 971 -> mx < (2 ^ 53 - 1) * 2 ^ (971 - ex) ->
  sf_finite (binary_round_aux prec emax s mx ex lx).
Proof.
  intros Hmx Hex Hmag. unfold binary_round_aux.
  destruct (shr_fexp_spec mx ex lx) as [Hm1 He1]; [lia|].
  destruct (shr_fexp prec emax mx ex lx) as [mrs1 e1]. simpl fst in Hm1; simpl snd in He1.
  set (m2 := round_nearest_even (shr_m mrs1) (loc_of_shr_record mrs1)).
  pose proof (round_nearest_even_bounds (shr_m mrs1) (loc_of_shr_record mrs1)) as Hm2.
  fold m2 in Hm2.
  set (T1 := Z.max 0 (fexp prec emax (Zdigits2 mx + ex) - ex)) in *.
  assert (HT1def : T1 = Z.max 0 (Z.max (Zdigits2 mx + ex - 53) (-1074) - ex))
    by reflexivity.
  clearbody T1.
  assert (HT1 : 0 <= T1) by lia.
  assert (Hm1nn : 0 <= shr_m mrs1) by (rewrite Hm1; apply Z.shiftr_nonneg; lia).
  destruct (Zdigits2_nonneg_spec mx) as (Hd0 & Hdub & Hdlb); [lia|].
  specialize (Hdlb Hmx).
  set (d := Zdigits2 mx) in *.
  set (B := 971 - ex) in *.
  assert (HB : 0 <= B) by (unfold B; lia).
  assert (H2B : 0 < 2 ^ B) by (apply Z.pow_pos_nonneg; lia).
  assert (Hd : d <= 53 + B).
  { assert (2 ^ (d - 1) < 2 ^ (53 + B)).
    { rewrite Z.pow_add_r by lia. nia. }
    apply Z.pow_lt_mono_r_iff in H; lia. }
  assert (H2t : 0 < 2 ^ T1) by (apply Z.pow_pos_nonneg; lia).
  rewrite Z.shiftr_div_pow2 in Hm1 by lia.
  assert (Hm1ub : shr_m mrs1 < 2 ^ 53).
  { rewrite Hm1. apply Z.div_lt_upper_bound; [lia|].
    rewrite <- Z.pow_add_r by lia.
    apply Z.lt_le_trans with (2 ^ d); [lia|].
    apply Z.pow_le_mono_r; lia. }
  assert (He1ub : e1 <= 971) by (unfold B in *; clear - He1 HT1def Hd Hex; lia).
  assert (Htop : e1 = 971 -> shr_m mrs1 < 2 ^ 53 - 1).
  { intros E.
    assert (HTB : T1 = B) by (unfold B; clear - E He1 HT1def Hd Hex HT1; lia).
    rewrite Hm1, HTB. apply Z.div_lt_upper_bound; lia. }
  destruct (shr_fexp_spec m2 e1 loc_Exact) as [Hm3 He3]; [lia|].
  destruct (shr_fexp prec emax m2 e1 loc_Exact) as [mrs2 e3]. simpl fst in Hm3; simpl snd in He3.
  set (T2 := Z.max 0 (fexp prec emax (Zdigits2 m2 + e1) - e1)) in *.
  assert (HT2def : T2 = Z.max 0 (Z.max (Zdigits2 m2 + e1 - 53) (-1074) - e1))
    by reflexivity.
  clearbody T2.
  destruct (shr_m mrs2) as [|m3|m3] eqn:Em3; [exact I| |].
  2:{ exfalso. assert (0 <= Z.shiftr m2 T2) by (apply Z.shiftr_nonneg; lia). lia. }
  assert (Hm2pos : 0 < m2).
  { destruct (Z.eq_dec m2 0) as [E|]; [|lia]. rewrite E, Z.shiftr_0_l in Hm3. lia. }
  destruct (Zdigits2_nonneg_spec m2) as (_ & _ & Hd2); [lia|]. specialize (Hd2 Hm2pos).
  assert (Hdig : Zdigits2 m2 <= 54 /\ (m2 < 2 ^ 53 -> Zdigits2 m2 <= 53)).
  { split.
    - assert (2 ^ (Zdigits2 m2 - 1) < 2 ^ 54).
      { apply Z.le_lt_trans with m2; [exact Hd2|].
        change (2 ^ 54) with (2 * 2 ^ 53). lia. }
      apply Z.pow_lt_mono_r_iff in H; lia.
    - intros Hlt. assert (2 ^ (Zdigits2 m2 - 1) < 2 ^ 53) by lia.
      apply Z.pow_lt_mono_r_iff in H; lia. }
  destruct Hdig as [Hd54 Hd53].
  assert (He3b : e3 <= 971).
  { destruct (Z.eq_dec e1 971) as [E|E].
    - specialize (Htop E). assert (m2 < 2 ^ 53) by lia.
      specialize (Hd53 H). lia.
    - lia. }
  change (emax - prec) with 971.
  destruct (Z.leb_spec e3 971); [exact I|lia].
Qed.

(** The product of a finite number and a number below 1 in magnitude is
    finite. *)
Lemma SFmul_fraction_finite (x : spec_float) (sy : bool) (my : positive) (ey : Z) :
  valid_binary x = true -> sf_finite x ->
  ey <= 0 -> Zpos my < 2 ^ (- ey) ->
  sf_finite (SFmul prec emax x (S754_finite sy my ey)).
Proof.
  intros Vx Fx Hey Hmy.
  destruct x as [sx|sx| |sx mx ex]; try contradiction; [exact I|].
  cbn [SFmul].
  apply valid_binary_digits in Vx. destruct Vx as [Hc Hex].
  assert (Hmx : Zpos mx < 2 ^ 53).
  { destruct (Zdigits2_nonneg_spec (Zpos mx)) as (_ & Hub & _); [lia|].
    simpl Zdigits2 in Hub.
    apply Z.lt_le_trans with (2 ^ Zpos (digits2_pos mx)); [exact Hub|].
    apply Z.pow_le_mono_r; lia. }
  apply binary_round_aux_finite; [lia | lia |].
  replace (971 - (ex + ey)) with ((971 - ex) + (- ey)) by lia.
  rewrite Z.pow_add_r by lia.
  assert (0 < 2 ^ (971 - ex)) by (apply Z.pow_pos_nonneg; lia).
  assert (0 < 2 ^ (- ey)) by (apply Z.pow_pos_nonneg; lia).
  rewrite Pos2Z.inj_mul. nia.
Qed.

(** ** Numbers that are equal in binary64

    Two binary64 values that are no NaN compare equal when they are the same
    value or the two zeros. *)

Definition sf_same (x y : spec_float) : Prop :=
  x = y \/ (sf_is_zero x = true /\ sf_is_zero y = true).

Lemma sf_same_refl (x : spec_float) : sf_same x x.
Proof. now left. Qed.

Lemma sf_same_sym (x y : spec_float) : sf_same x y -> sf_same y x.
Proof. intros [->|[H1 H2]]; [now left | now right]. Qed.

Lemma sf_same_trans (x y z : spec_float) : sf_same x y -> sf_same y z -> sf_same x z.
Proof.
  intros [->|[H1 H2]] [->|[H3 H4]]; try (now left); try (now right).
Qed.

Lemma sf_same_rank (x y : spec_float) :
  sf_not_nan x -> sf_not_nan y ->
  sf_same x y <-> sf_rank x = sf_rank y.
Proof.
  intros Hx Hy. split.
  - intros [->|[H1 H2]]; [reflexivity|].
    destruct x; try discriminate; destruct y; try discriminate; reflexivity.
  - intros H.
    destruct x as [sx|[|]| |[|] mx ex]; try contradiction;
      destruct y as [sy|[|]| |[|] my ey]; try contradiction;
      cbn [sf_rank] in H; try discriminate H;
      try (now left); try (now right);
      injection H as E1 E2; left; f_equal; lia.
Qed.

Lemma lex_compare_eq (a b : Z * Z * Z) : lex_compare a b = Eq <-> a = b.
Proof.
  destruct a as [[a1 a2] a3], b as [[b1 b2] b3]. unfold lex_compare.
  destruct (Z.compare_spec a1 b1) as [C1|C1|C1];
    destruct (Z.compare_spec a2 b2) as [C2|C2|C2];
    destruct (Z.compare_spec a3 b3) as [C3|C3|C3]; split; intros H;
    try discriminate; try reflexivity; try (f_equal; f_equal; lia);
    injection H as E1 E2 E3; lia.
Qed.

Section SameNumber.
Local Open Scope float_scope.

(** [a =? b] holds exactly for numbers that are no NaN and the same. *)
Lemma float_eqb_same (a b : float) :
  (a =? b) = true
  <-> not_nan a /\ not_nan b /\ sf_same (Prim2SF a) (Prim2SF b).
Proof.
  split.
  - intros H.
    assert (Ha : not_nan a).
    { unfold not_nan. destruct (PrimFloat.is_nan a) eqn:E; [|reflexivity].
      apply is_nan_Prim2SF in E.
      rewrite FloatAxioms.eqb_spec, E in H. discriminate. }
    assert (Hb : not_nan b).
    { unfold not_nan. destruct (PrimFloat.is_nan b) eqn:E; [|reflexivity].
      apply is_nan_Prim2SF in E.
      rewrite FloatAxioms.eqb_spec, E in H. unfold SFeqb in H.
      rewrite SFcompare_nan_r in H. discriminate. }
    split; [exact Ha|]. split; [exact Hb|].
    apply (float_eqb_rank a b Ha Hb) in H. apply lex_compare_eq in H.
    apply sf_same_rank; [now apply not_nan_Prim2SF | now apply not_nan_Prim2SF | exact H].
  - intros (Ha & Hb & H). apply (float_eqb_rank a b Ha Hb), lex_compare_eq.
    apply sf_same_rank; [now apply not_nan_Prim2SF | now apply not_nan_Prim2SF | exact H].
Qed.

Lemma float_eqb_not_nan_refl (a : float) : not_nan a -> (a =? a) = true.
Proof. intros H. apply float_eqb_same. repeat split; try assumption. apply sf_same_refl. Qed.

(** Equality of numbers is kept by the sum, the difference and the product
    with a common factor. *)
Lemma SFadd_same (x x' y y' : spec_float) :
  sf_same x x' -> sf_same y y' ->
  sf_same (SFadd prec emax x y) (SFadd prec emax x' y').
Proof.
  intros [->|[H1 H2]] [->|[H3 H4]]; [now left | | |].
  - destruct y as [s| | |]; try discriminate; destruct y' as [s'| | |]; try discriminate.
    destruct x' as [sx|sx| |sx mx ex]; try (now left).
    destruct sx, s, s'; (now left) || (right; split; reflexivity).
  - destruct x as [s| | |]; try discriminate; destruct x' as [s'| | |]; try discriminate.
    destruct y' as [sy|sy| |sy my ey]; try (now left).
    destruct sy, s, s'; (now left) || (right; split; reflexivity).
  - destruct x as [s1| | |]; try discriminate; destruct x' as [s2| | |]; try discriminate.
    destruct y as [s3| | |]; try discriminate; destruct y' as [s4| | |]; try discriminate.
    destruct s1, s2, s3, s4; (now left) || (right; split; reflexivity).
Qed.

Lemma SFsub_same (x x' y y' : spec_float) :
  sf_same x x' -> sf_same y y' ->
  sf_same (SFsub prec emax x y) (SFsub prec emax x' y').
Proof.
  intros [->|[H1 H2]] [->|[H3 H4]]; [now left | | |].
  - destruct y as [s| | |]; try discriminate; destruct y' as [s'| | |]; try discriminate.
    destruct x' as [sx|sx| |sx mx ex]; try (now left).
    destruct sx, s, s'; (now left) || (right; split; reflexivity).
  - destruct x as [s| | |]; try discriminate; destruct x' as [s'| | |]; try discriminate.
    destruct y' as [sy|sy| |sy my ey]; try (now left).
    destruct sy, s, s'; (now left) || (right; split; reflexivity).
  - destruct x as [s1| | |]; try discriminate; destruct x' as [s2| | |]; try discriminate.
    destruct y as [s3| | |]; try discriminate; destruct y' as [s4| | |]; try discriminate.
    destruct s1, s2, s3, s4; (now left) || (right; split; reflexivity).
Qed.

Lemma SFmul_same (x x' c : spec_float) :
  sf_same x x' -> sf_same (SFmul prec emax x c) (SFmul prec emax x' c).
Proof.
  intros [->|[H1 H2]]; [now left|].
  destruct x; try discriminate; destruct x'; try discriminate.
  destruct c as [sc|sc| |sc mc ec]; cbn [SFmul]; try (now left); now right.
Qed.

End SameNumber.

Local Open Scope float_scope.

(** The weights of the quartiles and their complements. *)
Definition is_weight (c : float) : Prop :=
  c = 0 \/ c = 0.25 \/ c = 0.5 \/ c = 0.75 \/ c = 1.

Lemma quartile_weight_is_weight (r : Z) :
  is_weight (quartile_weight r) /\ is_weight (1 - quartile_weight r).
Proof.
  assert (H : quartile_weight r = 0 \/ quartile_weight r = 0.25
              \/ quartile_weight r = 0.5 \/ quartile_weight r = 0.75).
  { unfold quartile_weight. destruct r as [|p|p]; [tauto| |tauto].
    destruct p as [[p|p|]|[p|p|]|]; tauto. }
  unfold is_weight.
  destruct H as [->|[->|[->| ->]]]; split;
    try (change (1 - 0) with 1); try (change (1 - 0.25) with 0.75);
    try (change (1 - 0.5) with 0.5); try (change (1 - 0.75) with 0.25); tauto.
Qed.

(** A finite number times such a weight is finite. *)
Lemma float_mul_weight_finite (a c : float) :
  is_finite a = true -> is_weight c -> is_finite (a * c) = true.
Proof.
  intros Ha Hc. pose proof (Prim2SF_valid a) as Va.
  pose proof (is_finite_sf a Ha) as Fa.
  assert (H : sf_finite (Prim2SF (a * c))).
  { rewrite mul_spec.
    destruct Hc as [->|[->|[->|[->| ->]]]].
    - rewrite Prim2SF_zero. destruct (Prim2SF a); try contradiction; exact I.
    - change (Prim2SF 0.25) with (S754_finite false 4503599627370496 (-54)).
      apply SFmul_fraction_finite; try assumption; [lia | vm_compute; reflexivity].
    - change (Prim2SF 0.5) with (S754_finite false 4503599627370496 (-53)).
      apply SFmul_fraction_finite; try assumption; [lia | vm_compute; reflexivity].
    - change (Prim2SF 0.75) with (S754_finite false 6755399441055744 (-53)).
      apply SFmul_fraction_finite; try assumption; [lia | vm_compute; reflexivity].
    - rewrite Prim2SF_one, SFmul_one by exact Va. exact Fa. }
  unfold is_finite. destruct (Prim2SF (a * c)); try contradiction; reflexivity.
Qed.

(** The interpolation of numbers that are equal is equal. *)
Lemma interpolation_same (a a' b b' c1 c2 : float) :
  is_finite a = true -> is_finite b = true ->
  (a =? a') = true -> (b =? b') = true ->
  is_weight c1 -> is_weight c2 ->
  (a * c1 + b * c2 =? a' * c1 + b' * c2) = true.
Proof.
  intros Fa Fb Ea Eb H1 H2.
  apply float_eqb_same in Ea. destruct Ea as (Na & Na' & Sa).
  apply float_eqb_same in Eb. destruct Eb as (Nb & Nb' & Sb).
  assert (Fa' : is_finite a' = true).
  { unfold is_finite in *. destruct Sa as [<-|[Z1 Z2]]; [exact Fa|].
    destruct (Prim2SF a'); try discriminate; reflexivity. }
  assert (Fb' : is_finite b' = true).
  { unfold is_finite in *. destruct Sb as [<-|[Z1 Z2]]; [exact Fb|].
    destruct (Prim2SF b'); try discriminate; reflexivity. }
  pose proof (float_mul_weight_finite a c1 Fa H1) as P1.
  pose proof (float_mul_weight_finite b c2 Fb H2) as P2.
  pose proof (float_mul_weight_finite a' c1 Fa' H1) as P1'.
  pose proof (float_mul_weight_finite b' c2 Fb' H2) as P2'.
  apply float_eqb_same. split; [|split].
  - apply not_nan_Prim2SF. rewrite add_spec.
    apply SFadd_not_nan; [apply sf_finite_not_nan|]; now apply is_finite_sf.
  - apply not_nan_Prim2SF. rewrite add_spec.
    apply SFadd_not_nan; [apply sf_finite_not_nan|]; now apply is_finite_sf.
  - rewrite !add_spec, !mul_spec. apply SFadd_same; now apply SFmul_same.
Qed.

Lemma difference_same (a a' b b' : float) :
  is_finite a = true -> is_finite b = true ->
  (a =? a') = true -> (b =? b') = true ->
  (a - b =? a' - b') = true.
Proof.
  intros Fa Fb Ea Eb.
  apply float_eqb_same in Ea. destruct Ea as (Na & Na' & Sa).
  apply float_eqb_same in Eb. destruct Eb as (Nb & Nb' & Sb).
  assert (Fa' : is_finite a' = true).
  { unfold is_finite in *. destruct Sa as [<-|[Z1 Z2]]; [exact Fa|].
    destruct (Prim2SF a'); try discriminate; reflexivity. }
  apply float_eqb_same. split; [|split].
  - apply not_nan_Prim2SF. rewrite sub_spec.
    apply SFsub_not_nan; [now apply is_finite_sf | now apply not_nan_Prim2SF].
  - apply not_nan_Prim2SF. rewrite sub_spec.
    apply SFsub_not_nan; [now apply is_finite_sf | now apply not_nan_Prim2SF].
  - rewrite !sub_spec. now apply SFsub_same.
Qed.

(** ** Sorted arrays with the same elements *)

(** Two sorted lists with the same elements are the same list, when the
    order is antisymmetric on these elements. *)
Lemma sorted_perm_unique {A : Type} (R : A -> A -> Prop) (P : A -> Prop) :
  (forall x y, P x -> P y -> R x y -> R y x -> x = y) ->
  forall l1 l2 : list A,
    Forall P l1 -> StronglySorted R l1 -> StronglySorted R l2 ->
    Permutation l1 l2 -> l1 = l2.
Proof.
  intros Hanti l1 l2 HP H1. revert l2.
  induction H1 as [|x l1 Hs1 IH Hall1]; intros l2 H2 Hp.
  - apply Permutation_nil in Hp. now subst.
  - destruct H2 as [|y l2 Hs2 Hall2].
    + apply Permutation_sym, Permutation_nil in Hp. discriminate.
    + inversion HP as [|x' l' Px Pl]; subst.
      assert (Hxy : x = y).
      { rewrite Forall_forall in Hall1, Hall2.
        assert (Hx : In x (y :: l2)) by (eapply Permutation_in; [exact Hp | now left]).
        assert (Hy : In y (x :: l1))
          by (eapply Permutation_in; [apply Permutation_sym; exact Hp | now left]).
        destruct Hx as [Hx|Hx]; [now subst|].
        destruct Hy as [Hy|Hy]; [now subst|].
        apply Hanti; [exact Px | | apply Hall1, Hy | apply Hall2, Hx].
        rewrite Forall_forall in Pl. apply Pl, Hy. }
      subst y. f_equal. apply IH; [exact Pl | assumption |].
      eapply Permutation_cons_inv, Hp.
Qed.

(** A zero with its sign cleared, any other number as it is. *)
Definition zero_canon (x : float) : float :=
  if sf_is_zero (Prim2SF x) then 0 else x.

Lemma zero_canon_same (x : float) : sf_same (Prim2SF (zero_canon x)) (Prim2SF x).
Proof.
  unfold zero_canon. destruct (sf_is_zero (Prim2SF x)) eqn:E; [|now left].
  right. split; [rewrite Prim2SF_zero; reflexivity | exact E].
Qed.

Lemma zero_canon_not_nan (x : float) : not_nan x -> not_nan (zero_canon x).
Proof.
  unfold zero_canon. destruct (sf_is_zero (Prim2SF x)); [reflexivity | auto].
Qed.

Lemma zero_canon_eqb (a b : float) :
  not_nan a -> not_nan b -> (zero_canon a = zero_canon b <-> (a =? b) = true).
Proof.
  intros Na Nb. split.
  - intros E. apply float_eqb_same. split; [exact Na|]. split; [exact Nb|].
    apply sf_same_trans with (Prim2SF (zero_canon a));
      [apply sf_same_sym, zero_canon_same|].
    rewrite E. apply zero_canon_same.
  - intros E. apply float_eqb_same in E. destruct E as (_ & _ & [E|[Z1 Z2]]).
    + apply Prim2SF_inj in E. now subst.
    + unfold zero_canon. now rewrite Z1, Z2.
Qed.

Lemma float_le_same (a a' b b' : float) :
  not_nan a -> not_nan a' -> not_nan b -> not_nan b' ->
  sf_same (Prim2SF a) (Prim2SF a') -> sf_same (Prim2SF b) (Prim2SF b') ->
  float_le a b -> float_le a' b'.
Proof.
  intros Na Na' Nb Nb' Sa Sb H. unfold float_le in *.
  apply (float_leb_rank a b Na Nb) in H. apply (float_leb_rank a' b' Na' Nb').
  apply sf_same_rank in Sa; try now apply not_nan_Prim2SF.
  apply sf_same_rank in Sb; try now apply not_nan_Prim2SF.
  now rewrite <- Sa, <- Sb.
Qed.

Lemma zero_canon_sorted (l : list float) :
  Forall not_nan l -> StronglySorted float_le l ->
  StronglySorted float_le (map zero_canon l).
Proof.
  intros Hnn Hs. induction Hs as [|x l Hs IH Hall]; cbn [map]; [constructor|].
  inversion Hnn as [|x' l' Nx Nl]; subst.
  constructor; [exact (IH Nl)|].
  rewrite Forall_forall in Hall, Nl |- *. intros y Hy.
  apply in_map_iff in Hy. destruct Hy as (z & <- & Hz).
  apply (float_le_same x (zero_canon x) z (zero_canon z)); auto.
  - now apply zero_canon_not_nan.
  - apply zero_canon_not_nan; auto.
  - apply sf_same_sym, zero_canon_same.
  - apply sf_same_sym, zero_canon_same.
Qed.

Lemma zero_canon_idem (x : float) : zero_canon (zero_canon x) = zero_canon x.
Proof.
  assert (H : zero_canon x = if sf_is_zero (Prim2SF x) then 0 else x) by reflexivity.
  rewrite H. destruct (sf_is_zero (Prim2SF x)) eqn:E; unfold zero_canon.
  - rewrite Prim2SF_zero. reflexivity.
  - now rewrite E.
Qed.

Lemma map_zero_canon_eqb (l l' : list float) :
  Forall not_nan l -> Forall not_nan l' ->
  map zero_canon l = map zero_canon l' ->
  Forall2 (fun x y => (x =? y) = true) l l'.
Proof.
  intros Hl. revert l'. induction Hl as [|x l Nx Nl IH]; intros l' Hl' E.
  - destruct l'; [constructor | discriminate].
  - destruct l' as [|y l']; [discriminate|].
    inversion Hl' as [|y' l'' Ny Nl']; subst.
    cbn [map] in E. injection E as E1 E2.
    constructor; [now apply zero_canon_eqb | now apply IH].
Qed.

(** The sorted arrays of two NaN-free arrays with the same elements hold
    equal numbers at every position. *)
Lemma insertion_sort_perm_same (l l' : list float) :
  no_nan l = true -> Permutation l l' ->
  Forall2 (fun x y => (x =? y) = true)
    (insertion_sort compare_double l) (insertion_sort compare_double l').
Proof.
  intros Hnn Hp. apply no_nan_Forall in Hnn.
  assert (Hnn' : Forall not_nan l') by (apply (Permutation_Forall Hp), Hnn).
  set (s := insertion_sort compare_double l).
  set (s' := insertion_sort compare_double l').
  assert (Ns : Forall not_nan s)
    by (apply (Permutation_Forall (insertion_sort_perm _ l)), Hnn).
  assert (Ns' : Forall not_nan s')
    by (apply (Permutation_Forall (insertion_sort_perm _ l')), Hnn').
  apply map_zero_canon_eqb; try assumption.
  apply (sorted_perm_unique float_le
           (fun x => not_nan x /\ zero_canon x = x)).
  - intros x y [Nx Cx] [Ny Cy] H1 H2.
    rewrite <- Cx, <- Cy. apply zero_canon_eqb; try assumption.
    apply float_leb_antisym; try (now apply not_nan_Prim2SF); assumption.
  - apply Forall_forall. intros x Hx. apply in_map_iff in Hx.
    destruct Hx as (z & <- & Hz). rewrite Forall_forall in Ns.
    split; [apply zero_canon_not_nan, Ns, Hz | apply zero_canon_idem].
  - apply zero_canon_sorted; [exact Ns|]. now apply insertion_sort_float_sorted.
  - apply zero_canon_sorted; [exact Ns'|]. now apply insertion_sort_float_sorted.
  - apply Permutation_map. unfold s, s'.
    rewrite <- (insertion_sort_perm compare_double l).
    rewrite <- (insertion_sort_perm compare_double l'). exact Hp.
Qed.

Lemma Forall2_nth_same (l l' : list float) :
  Forall2 (fun x y => (x =? y) = true) l l' ->
  forall i : nat, (i < List.length l)%nat -> (nth i l 0 =? nth i l' 0) = true.
Proof.
  induction 1 as [|x y l l' Hxy H IH]; intros i Hi; cbn [List.length] in Hi; [lia|].
  destruct i as [|i]; cbn [nth]; [exact Hxy | apply IH; lia].
Qed.

Lemma Forall2_same_length (l l' : list float) :
  Forall2 (fun x y => (x =? y) = true) l l' -> List.length l = List.length l'.
Proof. induction 1; cbn [List.length]; congruence. Qed.

(** The quartiles of two arrays of finite numbers that hold equal numbers at
    every position are equal. *)
Lemma quartile_value_same (s s' : list float) (j : Z) :
  Forall2 (fun x y => (x =? y) = true) s s' ->
  forallb is_finite s = true ->
  let n := Z.of_nat (List.length s) in
  (0 <= j)%Z -> (1 <= n)%Z -> (j * (n - 1) / 4 + 1 < n)%Z ->
  (quartile_value s j =? quartile_value s' j) = true.
Proof.
  intros Hs Hfin n Hj Hn Hup. unfold quartile_value.
  rewrite <- (Forall2_same_length s s' Hs). fold n.
  assert (Hlo : (0 <= j * (n - 1) / 4)%Z) by (apply Z.div_pos; nia).
  destruct (quartile_weight_is_weight ((j * (n - 1)) mod 4)) as [W1 W2].
  rewrite forallb_forall in Hfin.
  apply interpolation_same; try assumption.
  - apply Hfin, nth_In. unfold n in *. lia.
  - apply Hfin, nth_In. unfold n in *. lia.
  - apply (Forall2_nth_same s s' Hs). unfold n in *. lia.
  - apply (Forall2_nth_same s s' Hs). unfold n in *. lia.
Qed.

(** In binary64 the statistics that do not depend on a sum are the same
    numbers for every order of the input. *)
Lemma float_stats_permutation (values values' : list float) :
  values <> [] -> Permutation values values' ->
  (Z.of_nat (List.length values) <= 2 ^ 60)%Z ->
  forallb is_finite values = true ->
  exists (sorted_values sorted_values' : list float) (st st' : Stats float),
    calculate_stats values (Z.of_nat (List.length values))
    = Some (sorted_values, st) /\
    calculate_stats values' (Z.of_nat (List.length values'))
    = Some (sorted_values', st') /\
    count st = count st' /\
    (min st =? min st') = true /\ (max st =? max st') = true /\
    (range st =? range st') = true /\
    Forall2 (fun x y => (x =? y) = true) sorted_values sorted_values' /\
    ((Z.of_nat (List.length values) <= 2 ^ 51)%Z ->
     (median st =? median st') = true /\ (q1 st =? q1 st') = true /\
     (q3 st =? q3 st') = true).
Proof.
  intros Hne Hp Hlen Hfin.
  destruct values as [|v0 rest]; [congruence|].
  destruct values' as [|v0' rest'];
    [apply Permutation_sym, Permutation_nil in Hp; discriminate|].
  assert (Hl : List.length (v0' :: rest') = List.length (v0 :: rest))
    by (symmetry; apply Permutation_length, Hp).
  assert (Hfin' : forallb is_finite (v0' :: rest') = true).
  { rewrite forallb_forall in *. intros x Hx. apply Hfin.
    eapply Permutation_in; [apply Permutation_sym, Hp | exact Hx]. }
  pose proof (finite_no_nan _ Hfin) as Hnn.
  pose proof (finite_no_nan _ Hfin') as Hnn'.
  destruct (calculate_stats_float v0 rest Hlen (float_total_order _ Hnn))
    as (m & a & b & Em & Ea & Eb & E).
  pose proof Hlen as Hlen'. rewrite <- Hl in Hlen'.
  destruct (calculate_stats_float v0' rest' Hlen' (float_total_order _ Hnn'))
    as (m' & a' & b' & Em' & Ea' & Eb' & E').
  set (sorted_values := insertion_sort compare_double (v0 :: rest)) in *.
  set (sorted_values' := insertion_sort compare_double (v0' :: rest')) in *.
  exists sorted_values, sorted_values',
    (stats_record (v0 :: rest) v0 m a b), (stats_record (v0' :: rest') v0' m' a' b').
  split; [exact E|]. split; [exact E'|].
  pose proof (insertion_sort_perm_same _ _ Hnn Hp) as Hsame.
  fold sorted_values sorted_values' in Hsame.
  destruct (float_min_max_in v0 rest Hfin) as (I1 & I2 & L1 & L2).
  destruct (float_min_max_in v0' rest' Hfin') as (I1' & I2' & L1' & L2').
  cbv zeta in I1, I2, L1, L2, I1', I2', L1', L2'.
  assert (Hin : forall x, In x (v0 :: rest) -> In x (v0' :: rest'))
    by (intros x; apply Permutation_in, Hp).
  assert (Hin' : forall x, In x (v0' :: rest') -> In x (v0 :: rest))
    by (intros x; apply Permutation_in, Permutation_sym, Hp).
  assert (Hf : forall x, In x (v0 :: rest) -> is_finite x = true)
    by (intros x Hx; rewrite forallb_forall in Hfin; now apply Hfin).
  assert (Hmin : (fold_left min_step (v0 :: rest) v0
                  =? fold_left min_step (v0' :: rest') v0') = true).
  { apply float_leb_antisym.
    - apply not_nan_Prim2SF, finite_not_nan, Hf, I1.
    - apply not_nan_Prim2SF, finite_not_nan, Hf, Hin', I1'.
    - apply L1, Hin', I1'.
    - apply L1', Hin, I1. }
  assert (Hmax : (fold_left max_step (v0 :: rest) v0
                  =? fold_left max_step (v0' :: rest') v0') = true).
  { apply float_leb_antisym.
    - apply not_nan_Prim2SF, finite_not_nan, Hf, I2.
    - apply not_nan_Prim2SF, finite_not_nan, Hf, Hin', I2'.
    - apply L2', Hin, I2.
    - apply L2, Hin', I2'. }
  cbn [count min max range median q1 q3 stats_record].
  split; [now rewrite Hl|]. split; [exact Hmin|]. split; [exact Hmax|].
  split; [|split; [exact Hsame|]].
  - apply difference_same; try assumption; apply Hf; assumption.
  - intros Hsmall.
    assert (Hsf : forallb is_finite sorted_values = true).
    { apply forallb_forall. intros x Hx. apply Hf.
      apply (Permutation_in x (Permutation_sym (insertion_sort_perm compare_double _))).
      exact Hx. }
    assert (Hsl : List.length sorted_values = List.length (v0 :: rest))
      by apply insertion_sort_length.
    assert (Hsl' : List.length sorted_values' = List.length (v0' :: rest'))
      by apply insertion_sort_length.
    destruct rest as [|v1 rest].
    + (* a single element *)
      destruct rest' as [|v1' rest']; [|cbn [List.length] in Hl; lia].
      apply Permutation_length_1 in Hp. subst v0'.
      cbn in Em, Ea, Eb, Em', Ea', Eb'.
      apply some_eq in Em. apply some_eq in Ea. apply some_eq in Eb.
      apply some_eq in Em'. apply some_eq in Ea'. apply some_eq in Eb'.
      subst. repeat split; apply float_eqb_not_nan_refl, finite_not_nan, Hf; now left.
    + assert (Hq : forall j : Z, (1 <= j <= 3)%Z ->
                    get_percentile sorted_values
                      (Z.of_nat (List.length (v0 :: v1 :: rest))) (quartile_literal j)
                    = Some (quartile_value sorted_values j)
                    /\ get_percentile sorted_values'
                         (Z.of_nat (List.length (v0' :: rest'))) (quartile_literal j)
                       = Some (quartile_value sorted_values' j)
                    /\ (quartile_value sorted_values j
                        =? quartile_value sorted_values' j) = true).
      { intros j Hj.
        pose proof (quartile_interpolation sorted_values j) as Q.
        pose proof (quartile_interpolation sorted_values' j) as Q'.
        cbv zeta in Q, Q'. rewrite Hsl in Q. rewrite Hsl' in Q'.
        destruct Q as [U G]; [cbn [List.length] in *; lia | exact Hj |].
        destruct Q' as [U' G']; [rewrite Hl; cbn [List.length] in *; lia | exact Hj |].
        split; [exact G|]. split; [exact G'|].
        apply quartile_value_same; [exact Hsame | exact Hsf | lia | |].
        - rewrite Hsl. cbn [List.length]. lia.
        - rewrite Hsl. exact U. }
      change (@lit_0_50 float float_ops) with (quartile_literal 2) in *.
      change (@lit_0_25 float float_ops) with (quartile_literal 1) in *.
      change (@lit_0_75 float float_ops) with (quartile_literal 3) in *.
      change 0.5 with (quartile_literal 2) in Em, Em'.
      change 0.25 with (quartile_literal 1) in Ea, Ea'.
      change 0.75 with (quartile_literal 3) in Eb, Eb'.
      destruct (Hq 1%Z ltac:(lia)) as (G1 & G1' & S1).
      destruct (Hq 2%Z ltac:(lia)) as (G2 & G2' & S2).
      destruct (Hq 3%Z ltac:(lia)) as (G3 & G3' & S3).
      rewrite G2 in Em. rewrite G2' in Em'. rewrite G1 in Ea. rewrite G1' in Ea'.
      rewrite G3 in Eb. rewrite G3' in Eb'.
      apply some_eq in Em. apply some_eq in Ea. apply some_eq in Eb.
      apply some_eq in Em'. apply some_eq in Ea'. apply some_eq in Eb'.
      subst m a b m' a' b'. repeat split; assumption.
Qed.


(** In binary64 the sums depend on the order of accumulation: two orders of
    the same three numbers give different sums, means, variances and standard
    deviations. *)
Lemma stats_depend_on_order_in_binary64 :
  Permutation [0x1p+53; 1; 1] [1; 1; 0x1p+53] /\
  forallb is_finite [0x1p+53; 1; 1] = true /\
  exists (sorted1 sorted2 : list float) (st1 st2 : Stats float),
    calculate_stats [0x1p+53; 1; 1] 3 = Some (sorted1, st1) /\
    calculate_stats [1; 1; 0x1p+53] 3 = Some (sorted2, st2) /\
    sum st1 = 0x1p+53 /\ sum st2 = 0x1.0000000000001p+53 /\
    (sum st1 =? sum st2) = false /\ (mean st1 =? mean st2) = false /\
    (variance st1 =? variance st2) = false /\ (stddev st1 =? stddev st2) = false /\
    st1 <> st2.
Proof.
  split.
  { apply (Permutation_cons_app [1; 1] [] (0x1p+53)). reflexivity. }
  split; [reflexivity|].
  eexists; eexists; eexists; eexists.
  split; [vm_compute; reflexivity|].
  split; [vm_compute; reflexivity|].
  repeat split; try (vm_compute; reflexivity).
  intros H. apply (f_equal (fun st => PrimFloat.eqb (sum st) 0x1p+53)) in H.
  vm_compute in H. discriminate.
Qed.

(** C4, as the code has it.  For every permutation of a non-empty array (of
    at most [2^60] elements): when every operation is exact, that is over the
    real numbers, [calculate_stats] returns the same record and leaves the
    same sorted array; in binary64 arithmetic, on finite numbers, both runs
    return, [count] is the same, [min], [max] and [range] are equal as
    numbers (the sign of a zero aside), the sorted arrays hold equal numbers
    at every position, and for at most [2^51] elements [median], [q1] and
    [q3] are equal as numbers, while the sum and what is computed from it
    (mean, variance, standard deviation) depend on the order: the finite
    numbers [2^53, 1, 1] have another sum, mean, variance and standard
    deviation in the order [1, 1, 2^53]. *)
Theorem stats_under_permutation :
  (forall values values' : list R,
     values <> [] -> Permutation values values' ->
     (Z.of_nat (List.length values) <= 2 ^ 60)%Z ->
     calculate_stats values (Z.of_nat (List.length values))
     = calculate_stats values' (Z.of_nat (List.length values')) /\
     exists (sorted_values : list R) (st : Stats R),
       calculate_stats values' (Z.of_nat (List.length values'))
       = Some (sorted_values, st))
  /\ (forall values values' : list float,
        values <> [] -> Permutation values values' ->
        (Z.of_nat (List.length values) <= 2 ^ 60)%Z ->
        forallb is_finite values = true ->
        exists (sorted_values sorted_values' : list float) (st st' : Stats float),
          calculate_stats values (Z.of_nat (List.length values))
          = Some (sorted_values, st) /\
          calculate_stats values' (Z.of_nat (List.length values'))
          = Some (sorted_values', st') /\
          count st = count st' /\
          (min st =? min st') = true /\ (max st =? max st') = true /\
          (range st =? range st') = true /\
          Forall2 (fun x y => (x =? y) = true) sorted_values sorted_values' /\
          ((Z.of_nat (List.length values) <= 2 ^ 51)%Z ->
           (median st =? median st') = true /\ (q1 st =? q1 st') = true /\
           (q3 st =? q3 st') = true))
  /\ (exists (sorted_values sorted_values' : list float) (st st' : Stats float),
        Permutation [0x1p+53; 1; 1] [1; 1; 0x1p+53] /\
        calculate_stats [0x1p+53; 1; 1] 3 = Some (sorted_values, st) /\
        calculate_stats [1; 1; 0x1p+53] 3 = Some (sorted_values', st') /\
        (sum st =? sum st') = false /\ (mean st =? mean st') = false /\
        (variance st =? variance st') = false /\ (stddev st =? stddev st') = false).
Proof.
  split; [exact real_stats_permutation|].
  split; [exact float_stats_permutation|].
  eexists; eexists; eexists; eexists.
  split; [apply (Permutation_cons_app [1; 1] [] (0x1p+53)); reflexivity|].
  split; [vm_compute; reflexivity|].
  split; [vm_compute; reflexivity|].
  repeat split; vm_compute; reflexivity.
Qed.

Lemma stats_under_permutation_witness :
  (calculate_stats [3; 1; 2]%R 3 = calculate_stats [1; 3; 2]%R 3 /\
   exists (sorted_values : list R) (st : Stats R),
     calculate_stats [1; 3; 2]%R 3 = Some (sorted_values, st))
  /\ (exists (sorted_values sorted_values' : list float) (st st' : Stats float),
        calculate_stats [0x1p+53; 1; -0; 0; 1] 5 = Some (sorted_values, st) /\
        calculate_stats [1; 0; 1; 0x1p+53; -0] 5 = Some (sorted_values', st') /\
        count st = count st' /\
        (min st =? min st') = true /\ (max st =? max st') = true /\
        (range st =? range st') = true /\
        Forall2 (fun x y => (x =? y) = true) sorted_values sorted_values' /\
        ((5 <= 2 ^ 51)%Z ->
         (median st =? median st') = true /\ (q1 st =? q1 st') = true /\
         (q3 st =? q3 st') = true)).
Proof.
  split.
  - apply (proj1 stats_under_permutation [3; 1; 2]%R [1; 3; 2]%R).
    + discriminate.
    + apply perm_swap.
    + vm_compute. discriminate.
  - apply (proj1 (proj2 stats_under_permutation)
             [0x1p+53; 1; -0; 0; 1] [1; 0; 1; 0x1p+53; -0]).
    + discriminate.
    + apply (Permutation_cons_app [1; 0; 1] [-0] (0x1p+53)).
      apply (Permutation_cons_app [] [0; 1; -0] 1).
      apply (Permutation_cons_app [0; 1] [] (-0)).
      reflexivity.
    + vm_compute. discriminate.
    + reflexivity.
Defined.

(** ** Statistics of finite numbers are no NaN *)

Lemma float_eqb_true_not_nan (a b : float) : (a =? b) = true -> not_nan a.
Proof. intros H. now apply float_eqb_same in H. Qed.

(** No field that is printed is a NaN when the input is finite (and has at
    most [2^51] elements): the sign bit of a NaN plays no part in the
    output. *)
Lemma finite_stats_not_nan (values sorted_values : list float) (st : Stats float) :
  forallb is_finite values = true ->
  (Z.of_nat (List.length values) <= 2 ^ 51)%Z ->
  calculate_stats values (Z.of_nat (List.length values)) = Some (sorted_values, st) ->
  Forall (fun f => PrimFloat.is_nan (snd f) = false) (printed_fields st).
Proof.
  intros Hfin Hlen H.
  destruct values as [|v0 rest]; [discriminate|].
  assert (Hlen60 : (Z.of_nat (List.length (v0 :: rest)) <= 2 ^ 60)%Z) by lia.
  destruct (float_stats_bounds v0 rest Hlen60 Hfin) as (s' & st' & E & _ & Hvar).
  rewrite H in E. inversion E. subst s' st'. clear E.
  destruct (calculate_stats_inv v0 rest sorted_values st H)
    as [Hsorted (m & a & b & Em & Ea & Eb & Hst)].
  destruct (float_min_max_in v0 rest Hfin) as (Imn & Imx & _ & _). cbv zeta in Imn, Imx.
  assert (Hf : forall x, In x (v0 :: rest) -> is_finite x = true)
    by (intros x Hx; rewrite forallb_forall in Hfin; now apply Hfin).
  pose proof (Hf _ Imn) as Fmn. pose proof (Hf _ Imx) as Fmx.
  (* sum and mean *)
  pose proof (float_fold_add_not_nan (v0 :: rest) Hfin 0) as Hs.
  rewrite Prim2SF_zero in Hs. specialize (Hs I).
  destruct (size_t_to_double_positive (Z.of_nat (List.length (v0 :: rest))))
    as (mn & en & Hn).
  { split; [cbn [List.length]; lia | exact Hlen60]. }
  assert (Nmean : PrimFloat.is_nan (mean st) = false).
  { rewrite Hst. cbn [mean stats_record].
    change (@of_size_t float float_ops) with size_t_to_double.
    change (@ddiv float float_ops) with PrimFloat.div.
    apply not_nan_Prim2SF. rewrite div_spec, Hn.
    destruct (sf_not_nan_signed _ Hs) as [s Hsg].
    eapply sf_signed_not_nan, SFdiv_signed; [exact Hsg | eauto]. }
  (* the three percentiles *)
  assert (Hq : PrimFloat.is_nan m = false /\ PrimFloat.is_nan a = false
               /\ PrimFloat.is_nan b = false).
  { assert (Hsf : forallb is_finite sorted_values = true).
    { apply forallb_forall. intros x Hx. apply Hf. rewrite Hsorted in Hx.
      apply (Permutation_in x (Permutation_sym (insertion_sort_perm compare_double _))).
      exact Hx. }
    assert (Hsl : List.length sorted_values = List.length (v0 :: rest))
      by (rewrite Hsorted; apply insertion_sort_length).
    destruct rest as [|v1 rest].
    - rewrite Hsorted in Em, Ea, Eb. cbn in Em, Ea, Eb.
      apply some_eq in Em. apply some_eq in Ea. apply some_eq in Eb. subst m a b.
      repeat split; apply finite_not_nan, Hf; now left.
    - assert (Hj : forall j : Z, (1 <= j <= 3)%Z ->
                     get_percentile sorted_values
                       (Z.of_nat (List.length (v0 :: v1 :: rest))) (quartile_literal j)
                     = Some (quartile_value sorted_values j)
                     /\ PrimFloat.is_nan (quartile_value sorted_values j) = false).
      { intros j Hj. pose proof (quartile_interpolation sorted_values j) as Q.
        cbv zeta in Q. rewrite Hsl in Q.
        destruct Q as [U G]; [cbn [List.length] in *; lia | exact Hj |].
        split; [exact G|].
        apply (float_eqb_true_not_nan _ (quartile_value sorted_values j)).
        apply quartile_value_same; try assumption; try lia.
        - clear - Hsf. induction sorted_values as [|x l IH]; constructor.
          + cbn [forallb] in Hsf. apply andb_prop in Hsf.
            apply float_eqb_not_nan_refl, finite_not_nan, Hsf.
          + apply IH. cbn [forallb] in Hsf. apply andb_prop in Hsf. apply Hsf.
        - rewrite Hsl. cbn [List.length]. lia.
        - rewrite Hsl. exact U. }
      change (@lit_0_50 float float_ops) with (quartile_literal 2) in Em.
      change (@lit_0_25 float float_ops) with (quartile_literal 1) in Ea.
      change (@lit_0_75 float float_ops) with (quartile_literal 3) in Eb.
      destruct (Hj 1%Z ltac:(lia)) as (G1 & N1).
      destruct (Hj 2%Z ltac:(lia)) as (G2 & N2).
      destruct (Hj 3%Z ltac:(lia)) as (G3 & N3).
      rewrite G2 in Em. rewrite G1 in Ea. rewrite G3 in Eb.
      apply some_eq in Em. apply some_eq in Ea. apply some_eq in Eb. subst m a b.
      repeat split; assumption. }
  destruct Hq as (Nm & Na & Nb).
  assert (Nstd : PrimFloat.is_nan (stddev st) = false).
  { apply leb_zero_nonneg in Hvar. rewrite Hst in Hvar |- *.
    cbn [variance stddev stats_record] in Hvar |- *.
    change (@dsqrt float float_ops) with PrimFloat.sqrt.
    apply not_nan_Prim2SF. rewrite sqrt_spec.
    apply sf_nonneg_not_nan, SFsqrt_nonneg. exact Hvar. }
  rewrite Hst in Nmean, Nstd |- *. unfold printed_fields.
  cbn [sum mean median min max range q1 q3 stddev stats_record] in *.
  repeat constructor; cbn [snd]; try assumption.
  - now apply not_nan_Prim2SF.
  - now apply finite_not_nan.
  - now apply finite_not_nan.
  - change (@dsub float float_ops) with PrimFloat.sub.
    apply not_nan_Prim2SF. rewrite sub_spec.
    apply SFsub_not_nan; [now apply is_finite_sf|].
    now apply not_nan_Prim2SF, finite_not_nan.
Qed.

Local Close Scope float_scope.
Local Open Scope string_scope.

(** Where no printed field is a NaN both outputs are the same for every
    choice of the sign bits. *)
Lemma output_sign_irrelevant (sign sign' : field -> bool) (st : Stats float)
    (precision : Z) :
  Forall (fun f => PrimFloat.is_nan (snd f) = false) (printed_fields st) ->
  text_output sign st precision = text_output sign' st precision
  /\ json_output_text sign st precision = json_output_text sign' st precision.
Proof.
  intros Hnn. rewrite Forall_forall in Hnn.
  assert (Hf : forall (label : string) (f : field * float),
            In (label, f) (combine text_labels (printed_fields st))
            \/ In (label, f) (combine json_keys (printed_fields st)) ->
            printf_field sign precision f = printf_field sign' precision f).
  { intros label f Hin. unfold printf_field.
    apply printf_f_sign_irrelevant, Hnn.
    destruct Hin as [Hin|Hin]; exact (in_combine_r _ _ _ _ Hin). }
  assert (Ht : map (text_line sign precision) (combine text_labels (printed_fields st))
               = map (text_line sign' precision)
                   (combine text_labels (printed_fields st))).
  { apply map_ext_in. intros [label f] Hin.
    unfold text_line. cbn [fst snd]. now rewrite (Hf label f (or_introl Hin)). }
  assert (Hj : map (json_member sign precision) (combine json_keys (printed_fields st))
               = map (json_member sign' precision)
                   (combine json_keys (printed_fields st))).
  { apply map_ext_in. intros [label f] Hin.
    unfold json_member. cbn [fst snd]. now rewrite (Hf label f (or_intror Hin)). }
  unfold text_output, json_output_text. now rewrite Ht, Hj.
Qed.

(** ** More on the options and the input *)

Local Close Scope float_scope.
Local Open Scope string_scope.

(** X10.  With arguments that parse, an input that opens and starts with at least
    one number, no NaN among the leading numbers and every allocation
    granted, the run ends with status 0 and prints, in the selected format
    and precision, the statistics of exactly the numbers before the first
    token that is no number; standard error holds only what [parse_args]
    wrote.  When these numbers are finite (and at most [2^51]) no printed
    field is a NaN, so that the output is the same whatever sign bit a NaN
    would have. *)
Theorem main_prints_stats_of_leading_numbers :
  forall (env : Env) (argv : list string) (config : Config) (s0 : Streams)
         (file : list token),
    parse_args argv default_config no_output = Returns config s0 ->
    selected_input env config = Some file ->
    let nums := leading_numbers file in
    nums <> [] -> (Z.of_nat (List.length nums) <= 2 ^ 60)%Z ->
    no_nan nums = true ->
    (forall n, alloc_ok env n = true) ->
    exists (sorted_values : list float) (st : Stats float),
      calculate_stats nums (Z.of_nat (List.length nums)) = Some (sorted_values, st)
      /\ run env argv
         = Some (0%Z,
                 {| out := if (json_output config =? 0)%Z
                           then text_output (nan_sign env) st (precision config)
                           else json_output_text (nan_sign env) st (precision config);
                    err := err s0 |})
      /\ (forallb is_finite nums = true ->
          (Z.of_nat (List.length nums) <= 2 ^ 51)%Z ->
          Forall (fun f => PrimFloat.is_nan (snd f) = false) (printed_fields st)
          /\ forall sign : field -> bool,
               text_output sign st (precision config)
               = text_output (nan_sign env) st (precision config)
               /\ json_output_text sign st (precision config)
                  = json_output_text (nan_sign env) st (precision config)).
Proof.
  intros env argv config s0 file Hparse Hsel nums Hne Hlen Hnn Hall.
  destruct (run_on_valid_input env argv config s0 file Hparse Hsel Hne Hlen Hnn Hall)
    as (sorted_values & st & E & Hrun).
  exists sorted_values, st. split; [exact E|]. split; [exact Hrun|].
  intros Hfin Hsmall.
  pose proof (finite_stats_not_nan _ _ _ Hfin Hsmall E) as Hfields.
  split; [exact Hfields|]. intros sign.
  now apply output_sign_irrelevant.
Qed.

Lemma main_prints_stats_of_leading_numbers_witness :
  exists (sorted_values : list float) (st : Stats float),
    calculate_stats [1; 2]%float 2 = Some (sorted_values, st)
    /\ run (stdin_env [Number 1%float; Number 2%float; Garbage; Number 3%float])
          ["numstat"; "-j"]
       = Some (0%Z, {| out := json_output_text (fun _ => false) st 4; err := "" |})
    /\ (forallb is_finite [1; 2]%float = true ->
        (2 <= 2 ^ 51)%Z ->
        Forall (fun f => PrimFloat.is_nan (snd f) = false) (printed_fields st)
        /\ forall sign : field -> bool,
             text_output sign st 4 = text_output (fun _ => false) st 4
             /\ json_output_text sign st 4 = json_output_text (fun _ => false) st 4).
Proof.
  apply (main_prints_stats_of_leading_numbers
           (stdin_env [Number 1%float; Number 2%float; Garbage; Number 3%float])
           ["numstat"; "-j"]
           {| json_output := 1; precision := 4; input_file := None |} no_output
           [Number 1%float; Number 2%float; Garbage; Number 3%float] eq_refl eq_refl).
  - discriminate.
  - vm_compute. discriminate.
  - reflexivity.
  - reflexivity.
Defined.

(** X19.  A precision argument whose integer value lies in 0..10 is stored
    without a warning and replaces whatever precision was set before; the
    run that has only this option prints the statistics of a stream of
    numbers without NaN in text mode with that precision and nothing on
    standard error. *)
Theorem in_range_precision_is_used :
  forall (program_name flag value : string) (n : Z) (args : list string),
    is_precision_flag flag -> atoi value = Some n -> (0 <= n <= 10)%Z ->
    (forall (config : Config) (s : Streams) (p0 : Z),
       parse_args_from program_name (flag :: value :: args) (with_precision config p0) s
       = parse_args_from program_name args (with_precision config n) s)
    /\ (forall (env : Env),
          leading_numbers (stdin env) <> [] ->
          (Z.of_nat (List.length (leading_numbers (stdin env))) <= 2 ^ 60)%Z ->
          no_nan (leading_numbers (stdin env)) = true ->
          (forall b, alloc_ok env b = true) ->
          exists (sorted_values : list float) (st : Stats float),
            calculate_stats (leading_numbers (stdin env))
              (Z.of_nat (List.length (leading_numbers (stdin env))))
            = Some (sorted_values, st)
            /\ run env [program_name; flag; value]
               = Some (0%Z, {| out := text_output (nan_sign env) st n; err := "" |})).
Proof.
  intros program_name flag value n args Hflag Hatoi Hn.
  assert (Hstep : forall (args : list string) (config : Config) (s : Streams),
            parse_args_from program_name (flag :: value :: args) config s
            = parse_args_from program_name args (with_precision config n) s).
  { intros args' config s. rewrite (parse_precision_step _ _ _ n _ _ _ Hflag Hatoi).
    destruct (Z.ltb_spec n 0); [lia|]. rewrite Z.gtb_ltb.
    destruct (Z.ltb_spec 10 n); [lia|]. reflexivity. }
  split.
  - intros config s p0. rewrite Hstep. reflexivity.
  - intros env Hne Hlen Hnn Hall.
    apply (run_on_valid_input env [program_name; flag; value]
             (with_precision default_config n) no_output (stdin env)).
    + cbn [parse_args]. rewrite Hstep. reflexivity.
    + reflexivity.
    + exact Hne.
    + exact Hlen.
    + exact Hnn.
    + exact Hall.
Qed.

Lemma in_range_precision_is_used_witness :
  exists (sorted_values : list float) (st : Stats float),
    calculate_stats [1; 2]%float 2 = Some (sorted_values, st)
    /\ run (stdin_env [Number 1; Number 2]) ["numstat"; "--precision"; " +7x"]
       = Some (0%Z, {| out := text_output (fun _ => false) st 7; err := "" |}).
Proof.
  refine (proj2 (in_range_precision_is_used "numstat" "--precision" " +7x" 7 []
                   (or_intror eq_refl) eq_refl ltac:(lia))
            (stdin_env [Number 1; Number 2]) _ _ _ _).
  - discriminate.
  - vm_compute. discriminate.
  - reflexivity.
  - reflexivity.
Defined.

(** X20.  Nothing unsets the JSON format.  When [-j] or [--json] stands where
    an option is looked for, that is after arguments that the loop of
    [parse_args] has consumed whole, and the arguments parse, the
    configuration has [json_output = 1] whatever follows, and the statistics
    of a valid input without NaN are printed as the JSON document.  Directly
    after [-p] it is no option but the precision value: [-p -j] leaves text
    mode and precision 0. *)
Theorem json_flag_selects_json :
  forall (program_name flag : string) (before after : list string)
         (config1 config : Config) (s1 s0 : Streams),
    is_json_flag flag ->
    parse_args_from program_name before default_config no_output = Returns config1 s1 ->
    parse_args_from program_name (before ++ flag :: after) default_config no_output
    = Returns config s0 ->
    json_output config = 1%Z
    /\ (forall (env : Env) (file : list token),
          selected_input env config = Some file ->
          leading_numbers file <> [] ->
          (Z.of_nat (List.length (leading_numbers file)) <= 2 ^ 60)%Z ->
          no_nan (leading_numbers file) = true ->
          (forall b, alloc_ok env b = true) ->
          exists (sorted_values : list float) (st : Stats float),
            calculate_stats (leading_numbers file)
              (Z.of_nat (List.length (leading_numbers file)))
            = Some (sorted_values, st)
            /\ run env (program_name :: before ++ flag :: after)
               = Some (0%Z,
                       {| out := json_output_text (nan_sign env) st (precision config);
                          err := err s0 |}))
    /\ parse_args_from program_name ["-p"; flag] default_config no_output
       = Returns {| json_output := 0; precision := 0; input_file := None |} no_output.
Proof.
  intros program_name flag before after config1 config s1 s0 Hflag Hpre Hall.
  assert (Hjson : json_output config = 1%Z).
  { rewrite (parse_args_from_app _ _ _ _ _ _ _ Hpre) in Hall.
    cbn [parse_args_from] in Hall.
    assert (H1 : (flag =? "-h") || (flag =? "--help") = false)
      by (destruct Hflag as [-> | ->]; reflexivity).
    rewrite H1, (eqb_flag_true _ _ _ Hflag) in Hall.
    destruct (parse_args_from_config _ _ _ _ _ _ _ (le_n _) Hall) as (_ & H & _).
    cbn [json_output] in H. destruct H; assumption. }
  split; [exact Hjson|]. split.
  - intros env file Hsel Hne Hlen Hnn Halloc.
    destruct (run_on_valid_input env (program_name :: before ++ flag :: after)
                config s0 file Hall Hsel Hne Hlen Hnn Halloc)
      as (sorted_values & st & E & Hrun).
    exists sorted_values, st. split; [exact E|].
    rewrite Hrun, Hjson. reflexivity.
  - destruct Hflag as [-> | ->]; reflexivity.
Qed.

Lemma json_flag_selects_json_witness :
  exists (sorted_values : list float) (st : Stats float),
    calculate_stats [3; 1]%float 2 = Some (sorted_values, st)
    /\ run (stdin_env [Number 3%float; Number 1%float; Garbage])
          ("numstat" :: ["-p"; "2"] ++ "--json" :: ["-p"; "1"])
       = Some (0%Z, {| out := json_output_text (fun _ => false) st 1; err := "" |}).
Proof.
  refine (proj1 (proj2 (json_flag_selects_json "numstat" "--json" ["-p"; "2"] ["-p"; "1"]
                  {| json_output := 0; precision := 2; input_file := None |}
                  {| json_output := 1; precision := 1; input_file := None |}
                  no_output no_output (or_intror eq_refl) eq_refl eq_refl))
            (stdin_env [Number 3%float; Number 1%float; Garbage])
            [Number 3%float; Number 1%float; Garbage] eq_refl _ _ _ _).
  - discriminate.
  - vm_compute. discriminate.
  - reflexivity.
  - reflexivity.
Defined.

(** [read_numbers] sees of the environment the allocator only. *)
Lemma read_loop_alloc_ext (env env' : Env) :
  (forall b, alloc_ok env b = alloc_ok env' b) ->
  forall (fuel : nat) (file : list token) (values : list float)
         (count capacity allocated : Z),
    read_loop env fuel file values count capacity allocated
    = read_loop env' fuel file values count capacity allocated.
Proof.
  intros Hext. induction fuel as [|fuel IH]; intros; [reflexivity|].
  cbn [read_loop]. destruct (fscanf_lf file) as [[r num] file'].
  destruct (r =? 1)%Z; [|reflexivity]. destruct num as [num|]; [|reflexivity].
  rewrite Hext. destruct (_ && _); [reflexivity|].
  destruct (_ <=? _)%Z; [apply IH | reflexivity].
Qed.

Lemma read_numbers_alloc_ext (env env' : Env) (file : list token) :
  (forall b, alloc_ok env b = alloc_ok env' b) ->
  read_numbers env file = read_numbers env' file.
Proof.
  intros Hext. unfold read_numbers. rewrite Hext.
  destruct (negb _); [reflexivity|]. now apply read_loop_alloc_ext.
Qed.

(** X21.  A run reads one input only: with a file named on the command line that
    opens, standard input plays no part; with none named, no file is
    opened. *)
Theorem one_input_is_read :
  forall (env : Env) (argv : list string) (config : Config) (s0 : Streams),
    parse_args argv default_config no_output = Returns config s0 ->
    (forall (name : string) (file input : list token),
       input_file config = Some name -> fopen_r env name = Some file ->
       run {| stdin := input; fopen_r := fopen_r env; alloc_ok := alloc_ok env;
              nan_sign := nan_sign env |} argv
       = run env argv)
    /\ (input_file config = None ->
        forall files : string -> option (list token),
          run {| stdin := stdin env; fopen_r := files; alloc_ok := alloc_ok env;
                 nan_sign := nan_sign env |} argv
          = run env argv).
Proof.
  intros env argv config s0 Hparse. split.
  - intros name file input Hname Hopen. unfold run.
    rewrite (main_after_parse env argv config s0 file Hparse)
      by (unfold selected_input; rewrite Hname; exact Hopen).
    rewrite (main_after_parse _ argv config s0 file Hparse)
      by (unfold selected_input; rewrite Hname; exact Hopen).
    rewrite (read_numbers_alloc_ext _ env file) by reflexivity.
    reflexivity.
  - intros Hnone files. unfold run.
    rewrite (main_after_parse env argv config s0 (stdin env) Hparse)
      by (unfold selected_input; rewrite Hnone; reflexivity).
    rewrite (main_after_parse _ argv config s0 (stdin env) Hparse)
      by (unfold selected_input; rewrite Hnone; reflexivity).
    rewrite (read_numbers_alloc_ext _ env (stdin env)) by reflexivity.
    reflexivity.
Qed.

Lemma one_input_is_read_witness :
  run {| stdin := [Number 5%float];
         fopen_r := fun _ => Some [Number 1%float; Number 2%float];
         alloc_ok := fun _ => true; nan_sign := fun _ => false |}
    ["numstat"; "data.txt"]
  = run {| stdin := [Garbage];
           fopen_r := fun _ => Some [Number 1%float; Number 2%float];
           alloc_ok := fun _ => true; nan_sign := fun _ => false |}
      ["numstat"; "data.txt"].
Proof.
  apply (proj1 (one_input_is_read
                  {| stdin := [Garbage];
                     fopen_r := fun _ => Some [Number 1%float; Number 2%float];
                     alloc_ok := fun _ => true; nan_sign := fun _ => false |}
                  ["numstat"; "data.txt"]
                  {| json_output := 0; precision := 4; input_file := Some "data.txt" |}
                  no_output eq_refl)
           "data.txt" [Number 1%float; Number 2%float] [Number 5%float] eq_refl eq_refl).
Defined.

Local Close Scope string_scope.
Local Open Scope float_scope.

(** X22.  For finite values the sum and the mean are never a NaN; they are an
    infinity when the sum overflows. *)
Theorem sum_and_mean_are_not_nan :
  forall (values sorted_values : list float) (st : Stats float),
    forallb is_finite values = true ->
    (Z.of_nat (List.length values) <= 2 ^ 60)%Z ->
    calculate_stats values (Z.of_nat (List.length values)) = Some (sorted_values, st) ->
    sum st = fold_left PrimFloat.add values 0
    /\ mean st = sum st / size_t_to_double (Z.of_nat (List.length values))
    /\ PrimFloat.is_nan (sum st) = false
    /\ PrimFloat.is_nan (mean st) = false.
Proof.
  intros values sorted_values st Hfin Hlen H.
  destruct values as [|v0 rest]; [discriminate|].
  destruct (calculate_stats_inv v0 rest sorted_values st H) as [_ (m & a & b & _ & _ & _ & Hst)].
  assert (Hsum : sum st = fold_left PrimFloat.add (v0 :: rest) 0) by (rewrite Hst; reflexivity).
  assert (Hmean : mean st = sum st / size_t_to_double (Z.of_nat (List.length (v0 :: rest))))
    by (rewrite Hst; reflexivity).
  pose proof (float_fold_add_not_nan (v0 :: rest) Hfin 0) as Hs.
  rewrite Prim2SF_zero in Hs. specialize (Hs I). rewrite <- Hsum in Hs.
  destruct (size_t_to_double_positive (Z.of_nat (List.length (v0 :: rest))))
    as (mn & en & Hn).
  { split; [cbn [List.length]; lia | exact Hlen]. }
  split; [exact Hsum|]. split; [exact Hmean|]. split.
  - now apply not_nan_Prim2SF.
  - apply not_nan_Prim2SF. rewrite Hmean, div_spec, Hn.
    destruct (sf_not_nan_signed _ Hs) as [s Hsg].
    eapply sf_signed_not_nan, SFdiv_signed; [exact Hsg | eauto].
Qed.

Lemma sum_and_mean_are_not_nan_witness :
  exists st : Stats float,
    sum st = fold_left PrimFloat.add [0x1p+1023; 0x1p+1023] 0
    /\ mean st = sum st / size_t_to_double 2
    /\ PrimFloat.is_nan (sum st) = false
    /\ PrimFloat.is_nan (mean st) = false.
Proof.
  destruct (calculate_stats [0x1p+1023; 0x1p+1023] 2)
    as [[sorted_values st]|] eqn:E; [|vm_compute in E; discriminate].
  exists st.
  apply (sum_and_mean_are_not_nan [0x1p+1023; 0x1p+1023] sorted_values st eq_refl
           ltac:(vm_compute; discriminate) E).
Defined.

(** ** The values of the JSON output *)

Local Close Scope float_scope.
Local Open Scope string_scope.

(** The number grammar of JSON, without exponent part: an optional minus
    sign, an integer part that is [0] or starts with a digit from 1 to 9, and
    an optional fraction of a point and at least one digit. *)
Fixpoint span_digits (s : string) : string * string :=
  match s with
  | String c r =>
      if isdigit c then let (d, rest) := span_digits r in (String c d, rest)
      else ("", s)
  | EmptyString => ("", "")
  end.

Definition json_int (d : string) : bool :=
  match d with
  | EmptyString => false
  | String c r => negb (Ascii.eqb c "0") || (r =? "")
  end.

Definition json_frac (r : string) : bool :=
  match r with
  | EmptyString => true
  | String c f => Ascii.eqb c "." && negb (f =? "") && all_digits f
  end.

Definition json_number (s : string) : bool :=
  let s := match s with String "-" r => r | _ => s end in
  let (d, rest) := span_digits s in
  json_int d && json_frac rest.

Lemma append_empty_r (s : string) : s ++ "" = s.
Proof. induction s as [|c s IH]; cbn [append]; [reflexivity | now rewrite IH]. Qed.

Lemma span_digits_app (d r : string) :
  all_digits d = true ->
  match r with String c _ => isdigit c = false | EmptyString => True end ->
  span_digits (d ++ r) = (d, r).
Proof.
  intros Hd Hr. induction d as [|c d IH]; cbn [append span_digits].
  - destruct r as [|c r]; [reflexivity|]. cbn [span_digits]. now rewrite Hr.
  - cbn [all_digits] in Hd. apply andb_prop in Hd. destruct Hd as [Hc Hd].
    rewrite Hc, (IH Hd). reflexivity.
Qed.

Lemma digit_char_nonzero (d : Z) : (1 <= d <= 9)%Z -> Ascii.eqb (digit_char d) "0" = false.
Proof.
  intros H.
  assert (d = 1 \/ d = 2 \/ d = 3 \/ d = 4 \/ d = 5 \/ d = 6 \/ d = 7 \/ d = 8 \/ d = 9)%Z
    as [->|[->|[->|[->|[->|[->|[->|[->| ->]]]]]]]] by lia; reflexivity.
Qed.

(** With enough fuel the first digit written for a positive number is not
    [0]. *)
Lemma decimal_digits_head (fuel : nat) :
  forall (n : Z) (acc : string),
    (0 < n < 2 ^ Z.of_nat (S fuel))%Z ->
    exists (c : ascii) (r : string),
      decimal_digits (S fuel) n acc = String c r /\ Ascii.eqb c "0" = false.
Proof.
  induction fuel as [|fuel IH]; intros n acc Hn.
  - cbn [decimal_digits]. change (2 ^ Z.of_nat 1)%Z with 2%Z in Hn.
    destruct (Z.ltb_spec n 10); [|lia].
    eexists; eexists. split; [reflexivity|].
    rewrite Z.mod_small by lia. apply digit_char_nonzero. lia.
  - cbn [decimal_digits]. destruct (Z.ltb_spec n 10).
    + eexists; eexists. split; [reflexivity|].
      rewrite Z.mod_small by lia. apply digit_char_nonzero. lia.
    + apply IH. rewrite Nat2Z.inj_succ, Z.pow_succ_r in Hn by lia.
      split; [apply Z.div_str_pos; lia|].
      apply Z.div_lt_upper_bound; lia.
Qed.

Lemma printf_zu_json_int (n : Z) : (0 <= n)%Z -> json_int (printf_zu n) = true.
Proof.
  intros Hn. destruct (Z.eq_dec n 0) as [->|Hne]; [reflexivity|].
  unfold printf_zu.
  destruct (decimal_digits_head (Z.to_nat (Z.log2 n)) n "") as (c & r & E & Hc).
  - split; [lia|]. rewrite Nat2Z.inj_succ, Z2Nat.id by apply Z.log2_nonneg.
    apply Z.log2_spec. lia.
  - rewrite E. cbn [json_int]. now rewrite Hc.
Qed.

Lemma all_digits_head (s : string) :
  all_digits s = true -> s <> "" ->
  match s with String "-" _ => False | _ => True end.
Proof.
  destruct s as [|c r]; [auto|]. cbn [all_digits]. intros H _.
  apply andb_prop in H. destruct H as [H _].
  destruct c as [[] [] [] [] [] [] [] []]; try exact I. discriminate.
Qed.

Lemma format_fixed_json (neg : bool) (n p : Z) :
  (0 <= n)%Z -> (0 <= p)%Z -> json_number (format_fixed neg n p) = true.
Proof.
  intros Hn Hp. unfold format_fixed.
  destruct (printf_zu_digits (n / 10 ^ p)) as [Hd Hne].
  pose proof (printf_zu_json_int (n / 10 ^ p)
                ltac:(apply Z.div_pos; [lia | apply Z.pow_pos_nonneg; lia])) as Hint.
  destruct (fixed_digits_spec (Z.to_nat p) (n mod 10 ^ p) "" eq_refl) as [Hf Hlen].
  set (int := printf_zu (n / 10 ^ p)) in *.
  set (frac := fixed_digits (Z.to_nat p) (n mod 10 ^ p) "") in *.
  set (tail := if (p =? 0)%Z then "" else "." ++ frac).
  assert (Htail : json_frac tail = true
                  /\ match tail with String c _ => isdigit c = false
                                | EmptyString => True end).
  { unfold tail. destruct (Z.eqb_spec p 0) as [->|Hp0]; [split; [reflexivity | exact I]|].
    cbn [append json_frac]. split; [|reflexivity].
    rewrite Hf. destruct frac as [|c f]; [|reflexivity].
    cbn [String.length] in Hlen. lia. }
  destruct Htail as [Hfrac Hstop].
  assert (Hbody : (let (d, rest) := span_digits (int ++ tail) in
                   json_int d && json_frac rest) = true).
  { rewrite (span_digits_app int tail Hd Hstop). now rewrite Hint, Hfrac. }
  unfold json_number. destruct neg.
  - cbn [append]. exact Hbody.
  - cbn [append]. pose proof (all_digits_head int Hd Hne) as Hh.
    destruct int as [|c r]; [congruence|]. cbn [append].
    destruct c as [[] [] [] [] [] [] [] []]; try exact Hbody. contradiction.
Qed.

Lemma round_half_even_nonneg (num den : Z) :
  (0 <= num)%Z -> (0 < den)%Z -> (0 <= round_half_even num den)%Z.
Proof.
  intros Hn Hd. unfold round_half_even.
  pose proof (Z.div_pos num den Hn Hd).
  destruct (_ ?= _)%Z; [destruct (Z.even _)| |]; lia.
Qed.

Lemma scaled_decimal_nonneg (m : positive) (e p : Z) :
  (0 <= p)%Z -> (0 <= scaled_decimal m e p)%Z.
Proof.
  intros Hp. unfold scaled_decimal.
  assert (0 < 10 ^ p)%Z by (apply Z.pow_pos_nonneg; lia).
  destruct (Z.leb_spec 0 e).
  - assert (0 < 2 ^ e)%Z by (apply Z.pow_pos_nonneg; lia). nia.
  - apply round_half_even_nonneg; [nia|]. apply Z.pow_pos_nonneg; lia.
Qed.

(** [%.*f] writes a JSON number exactly for the finite values. *)
Lemma printf_f_json (b : bool) (precision : Z) (x : float) :
  (0 <= precision)%Z -> json_number (printf_f b precision x) = is_finite x.
Proof.
  intros Hp. unfold printf_f, is_finite.
  destruct (Z.ltb_spec precision 0); [lia|].
  destruct (Prim2SF x) as [s|[|]| |s m e]; try reflexivity.
  - apply format_fixed_json; lia.
  - destruct b; reflexivity.
  - apply format_fixed_json; [apply scaled_decimal_nonneg|]; lia.
Qed.

(** X23.  [print_stats_json] writes every field as [%.*f] leaves it: the value of
    a finite field is a JSON number; the value of an infinite field is the
    bare word [inf] or [-inf] and that of a NaN field [nan] or [-nan]
    (according to its sign bit), none of which is one.  So all the values of
    the document are JSON numbers exactly when every field is finite;
    [count] always is one. *)
Theorem json_values_are_numbers_iff_finite :
  forall (sign : field -> bool) (stats : Stats float) (precision : Z) (s : Streams),
    (0 <= precision)%Z -> (0 <= count stats)%Z ->
    print_stats_json sign stats precision s
    = Returns tt {| out := out s ++ json_output_text sign stats precision;
                    err := err s |}
    /\ json_number (printf_zu (count stats)) = true
    /\ (forall (f : field) (x : float),
          json_number (printf_f (sign f) precision x) = is_finite x)
    /\ (forall (f : field) (x : float),
          is_finite x = false ->
          (PrimFloat.is_nan x = false
           /\ (printf_f (sign f) precision x = "inf"
               \/ printf_f (sign f) precision x = "-inf"))
          \/ (PrimFloat.is_nan x = true
              /\ printf_f (sign f) precision x = if sign f then "-nan" else "nan"))
    /\ forallb json_number (map (printf_field sign precision) (printed_fields stats))
       = forallb is_finite (map snd (printed_fields stats)).
Proof.
  intros sign stats precision s Hp Hc.
  split; [apply print_stats_json_output|]. split; [|split; [|split]].
  - unfold json_number.
    destruct (printf_zu_digits (count stats)) as [Hd Hne].
    pose proof (all_digits_head _ Hd Hne) as Hh.
    pose proof (printf_zu_json_int _ Hc) as Hint.
    assert (Hbody : (let (d, rest) := span_digits (printf_zu (count stats)) in
                     json_int d && json_frac rest) = true).
    { rewrite <- (append_empty_r (printf_zu (count stats))) at 1.
      rewrite (span_digits_app _ "" Hd I). now rewrite Hint. }
    destruct (printf_zu (count stats)) as [|c r]; [congruence|].
    destruct c as [[] [] [] [] [] [] [] []]; try exact Hbody. contradiction.
  - intros f x. now apply printf_f_json.
  - intros f x Hfin. now apply printf_f_not_finite.
  - induction (printed_fields stats) as [|[f x] l IH]; [reflexivity|].
    cbn [map forallb snd]. unfold printf_field at 1. cbn [fst snd].
    now rewrite printf_f_json, IH.
Qed.

Lemma json_values_are_numbers_iff_finite_witness :
  json_number (printf_f true 2 infinity) = is_finite infinity
  /\ json_number (printf_f true 2 nan) = is_finite nan
  /\ json_number (printf_f true 2 1.5%float) = is_finite 1.5%float
  /\ printf_f true 2 nan = "-nan".
Proof.
  pose proof (json_values_are_numbers_iff_finite (fun _ => true)
                {| count := 2; sum := infinity; mean := infinity; min := 1; max := 2;
                   range := 1; median := 1.5; q1 := 1.25; q3 := 1.75;
                   variance := nan; stddev := nan |}%float 2 no_output
                ltac:(lia) ltac:(cbn; lia)) as (_ & _ & H & H' & _).
  split; [apply (H FSum)|]. split; [apply (H FStdDev)|]. split; [apply (H FMean)|].
  destruct (H' FStdDev nan eq_refl) as [[N _]|[_ E]]; [discriminate N | exact E].
Defined.

(** ** The mean and the variance in exact arithmetic and in binary64 *)

Local Close Scope string_scope.
Local Open Scope R_scope.

Lemma real_fold_sum_bounds (a b : R) (l : list R) :
  Forall (fun x => a <= x <= b) l ->
  forall acc : R,
    acc + IZR (Z.of_nat (List.length l)) * a <= fold_left Rplus l acc
    <= acc + IZR (Z.of_nat (List.length l)) * b.
Proof.
  induction 1 as [|x l Hx Hl IH]; intros acc; cbn [fold_left List.length].
  - cbn. lra.
  - specialize (IH (acc + x)). rewrite Nat2Z.inj_succ, succ_IZR. lra.
Qed.

Lemma real_fold_variance_zero (mean : R) (l : list R) :
  forall acc : R,
    0 <= acc ->
    fold_left (variance_step mean) l acc = 0
    <-> acc = 0 /\ Forall (fun x => x = mean) l.
Proof.
  induction l as [|x l IH]; intros acc Hacc; cbn [fold_left].
  - split; [intros ->; split; [reflexivity | constructor] | intros [-> _]; reflexivity].
  - pose proof (Rle_0_sqr (x - mean)) as Hsq. unfold Rsqr in Hsq.
    change (variance_step mean acc x) with (acc + (x - mean) * (x - mean)).
    rewrite IH by lra. split.
    + intros [H0 Hall].
      assert (Hz : (x - mean) * (x - mean) = 0) by lra.
      apply Rmult_integral in Hz.
      split; [lra|]. constructor; [lra | exact Hall].
    + intros [-> Hall]. inversion Hall as [|x' l' Hx Hl]; subst.
      split; [lra | exact Hl].
Qed.

(** X24.  In exact arithmetic the mean lies between [min] and [max] and the
    variance is zero exactly when all the values are equal.  In binary64
    neither holds: for the three values 0.1 the mean is above [max] and the
    variance is positive. *)
Theorem mean_between_min_and_max_when_exact :
  (forall values : list R,
     values <> [] -> (Z.of_nat (List.length values) <= 2 ^ 60)%Z ->
     exists (sorted_values : list R) (st : Stats R),
       calculate_stats values (Z.of_nat (List.length values)) = Some (sorted_values, st)
       /\ min st <= mean st <= max st
       /\ (variance st = 0 <-> forall x, In x values -> x = mean st))
  /\ (exists (sorted_values : list float) (st : Stats float),
        calculate_stats [0x1.999999999999ap-4; 0x1.999999999999ap-4; 0x1.999999999999ap-4]%float 3 = Some (sorted_values, st)
        /\ (max st <? mean st)%float = true
        /\ (0 <? variance st)%float = true).
Proof.
  split.
  - intros values Hne Hlen. destruct values as [|v0 rest]; [congruence|].
    pose proof (real_calculate_stats v0 rest Hlen) as Hcs. cbv zeta in Hcs.
    eexists; eexists. split; [exact Hcs|].
    cbn [min max mean variance stats_record].
    set (values := v0 :: rest) in *.
    set (n := Z.of_nat (List.length values)) in *.
    assert (Hn : 0 < IZR n).
    { apply IZR_lt. unfold n, values. cbn [List.length]. lia. }
    destruct (real_fold_min values v0) as (_ & _ & Hmin).
    destruct (real_fold_max values v0) as (_ & _ & Hmax).
    set (mn := fold_left min_step values v0) in *.
    set (mx := fold_left max_step values v0) in *.
    change (@dadd R real_ops) with Rplus. change (@lit_0 R real_ops) with 0.
    change (@of_size_t R real_ops n) with (IZR n).
    change (@ddiv R real_ops) with Rdiv.
    assert (Hb : Forall (fun x => mn <= x <= mx) values).
    { rewrite Forall_forall in *. intros x Hx. split; [apply Hmin | apply Hmax]; exact Hx. }
    pose proof (real_fold_sum_bounds mn mx values Hb 0) as Hsum. fold n in Hsum.
    set (sum := fold_left Rplus values 0) in *.
    assert (Hmean : sum / IZR n * IZR n = sum) by (field; lra).
    set (mean := sum / IZR n) in *.
    split; [split; nra|].
    pose proof (real_fold_variance_zero mean values 0 ltac:(lra)) as Hz.
    split.
    + intros Hv.
      assert (Hf : fold_left (variance_step mean) values 0 = 0).
      { unfold Rdiv in Hv. apply Rmult_integral in Hv. destruct Hv as [Hv|Hv]; [exact Hv|].
        pose proof (Rinv_0_lt_compat _ Hn). lra. }
      apply Hz in Hf. destruct Hf as [_ Hall]. rewrite Forall_forall in Hall. exact Hall.
    + intros Hall.
      assert (Hf : fold_left (variance_step mean) values 0 = 0).
      { apply Hz. split; [reflexivity|]. apply Forall_forall. exact Hall. }
      rewrite Hf. unfold Rdiv. ring.
  - eexists; eexists. split; [vm_compute; reflexivity|].
    split; vm_compute; reflexivity.
Qed.

Lemma mean_between_min_and_max_when_exact_witness :
  exists (sorted_values : list R) (st : Stats R),
    calculate_stats [3; 1; 2] 3 = Some (sorted_values, st)
    /\ min st <= mean st <= max st
    /\ (variance st = 0 <-> forall x, In x [3; 1; 2] -> x = mean st).
Proof.
  apply (proj1 mean_between_min_and_max_when_exact [3; 1; 2]).
  - discriminate.
  - vm_compute. discriminate.
Defined.

Local Close Scope R_scope.

(** ** The order of the quartiles in binary64 when the ranks are integers *)

Local Open Scope Z_scope.
Local Open Scope float_scope.

(** At a rank that is an integer the interpolation is the element at the
    rank, when the next element is finite. *)
Lemma quartile_value_at_integer_rank (sorted_values : list float) (j : Z) :
  let n := Z.of_nat (List.length sorted_values) in
  ((j * (n - 1)) mod 4 = 0)%Z ->
  not_nan (nth (Z.to_nat (j * (n - 1) / 4)) sorted_values 0) ->
  is_finite (nth (Z.to_nat (j * (n - 1) / 4 + 1)) sorted_values 0) = true ->
  (quartile_value sorted_values j =? nth (Z.to_nat (j * (n - 1) / 4)) sorted_values 0)
  = true.
Proof.
  intros n Hr Ha Hb. unfold quartile_value. fold n. rewrite Hr.
  change (quartile_weight 0) with 0. change (1 - 0) with 1.
  rewrite float_mul_one.
  apply float_add_zero_eqb; [exact Ha|]. now apply float_mul_zero_finite.
Qed.

Lemma float_eqb_le (a b : float) :
  not_nan a -> not_nan b -> (a =? b) = true -> float_le a b /\ float_le b a.
Proof.
  intros Ha Hb H. unfold float_le.
  apply (float_eqb_rank a b Ha Hb) in H.
  rewrite (float_leb_rank a b Ha Hb), (float_leb_rank b a Hb Ha).
  rewrite (lex_compare_antisym (sf_rank (Prim2SF a)) (sf_rank (Prim2SF b))), H.
  split; discriminate.
Qed.

Lemma eqb_not_nan_l (a b : float) : (a =? b) = true -> not_nan a.
Proof.
  intros H. unfold not_nan. destruct (PrimFloat.is_nan a) eqn:E; [|reflexivity].
  rewrite is_nan_Prim2SF in E. rewrite FloatAxioms.eqb_spec, E in H. discriminate.
Qed.

Lemma sorted_float_nth (l : list float) :
  StronglySorted float_le l -> Forall not_nan l ->
  forall i j : nat, (i <= j < List.length l)%nat -> float_le (nth i l 0) (nth j l 0).
Proof.
  induction 1 as [|x l Hs IH Hall]; intros Hnn i j Hij; [cbn in Hij; lia|].
  inversion Hnn as [|x' l' Hx Hl]; subst.
  destruct i as [|i], j as [|j]; cbn [nth]; cbn [List.length] in Hij.
  - apply float_leb_refl, not_nan_Prim2SF, Hx.
  - rewrite Forall_forall in Hall. apply Hall, nth_In. lia.
  - lia.
  - apply IH; [exact Hl | lia].
Qed.

(** X25.  When the count is [4 * k + 1] the three ranks are integers: for finite
    values the quartiles are then equal to the elements of the sorted array
    at the positions [k], [2 * k] and [3 * k], and
    [min <= q1 <= median <= q3 <= max] holds in binary64. *)
Theorem quartile_order_at_integer_ranks :
  forall (values sorted_values : list float) (st : Stats float) (k : Z),
    forallb is_finite values = true ->
    (1 <= k)%Z -> Z.of_nat (List.length values) = (4 * k + 1)%Z ->
    (4 * k + 1 <= 2 ^ 51)%Z ->
    calculate_stats values (Z.of_nat (List.length values)) = Some (sorted_values, st) ->
    (q1 st =? nth (Z.to_nat k) sorted_values 0) = true
    /\ (median st =? nth (Z.to_nat (2 * k)) sorted_values 0) = true
    /\ (q3 st =? nth (Z.to_nat (3 * k)) sorted_values 0) = true
    /\ (min st <=? q1 st) = true /\ (q1 st <=? median st) = true
    /\ (median st <=? q3 st) = true /\ (q3 st <=? max st) = true.
Proof.
  intros values sorted_values st k Hfin Hk Hn Hbig H.
  destruct values as [|v0 rest]; [discriminate|].
  destruct (calculate_stats_inv v0 rest sorted_values st H)
    as [Hsorted (m & a & b & Hm & Ha & Hb & Hst)].
  destruct (float_min_max_in v0 rest Hfin) as (_ & _ & Lmn & Lmx).
  cbv zeta in Lmn, Lmx.
  assert (Hmin : min st = fold_left min_step (v0 :: rest) v0) by (rewrite Hst; reflexivity).
  assert (Hmax : max st = fold_left max_step (v0 :: rest) v0) by (rewrite Hst; reflexivity).
  assert (Hq1 : q1 st = a) by (rewrite Hst; reflexivity).
  assert (Hmed : median st = m) by (rewrite Hst; reflexivity).
  assert (Hq3 : q3 st = b) by (rewrite Hst; reflexivity).
  rewrite <- Hmin in Lmn. rewrite <- Hmax in Lmx.
  assert (Hperm : Permutation (v0 :: rest) sorted_values)
    by (rewrite Hsorted; apply insertion_sort_perm).
  assert (Hlen : Z.of_nat (List.length sorted_values) = (4 * k + 1)%Z).
  { rewrite <- Hn, Hsorted, insertion_sort_length. reflexivity. }
  assert (Hfin' : forall i, (0 <= i < 4 * k + 1)%Z ->
                    is_finite (nth (Z.to_nat i) sorted_values 0) = true
                    /\ In (nth (Z.to_nat i) sorted_values 0) (v0 :: rest)).
  { intros i Hi.
    assert (Hin : In (nth (Z.to_nat i) sorted_values 0) (v0 :: rest)).
    { apply (Permutation_in _ (Permutation_sym Hperm)). apply nth_In. lia. }
    split; [|exact Hin]. rewrite forallb_forall in Hfin. now apply Hfin. }
  assert (Hnn : Forall not_nan sorted_values).
  { apply (Permutation_Forall Hperm). apply Forall_forall. intros x Hx.
    rewrite forallb_forall in Hfin. now apply finite_not_nan, Hfin. }
  assert (Hs : StronglySorted float_le sorted_values).
  { rewrite Hsorted. apply insertion_sort_float_sorted. rewrite Hsorted in Hnn.
    apply (Permutation_Forall (Permutation_sym (insertion_sort_perm compare_double (v0 :: rest)))).
    exact Hnn. }
  rewrite Hn in Hm, Ha, Hb. clear H Hst Hsorted Hmin Hmax.
  assert (Hq : forall j, (1 <= j <= 3)%Z ->
                 get_percentile sorted_values (4 * k + 1) (quartile_literal j)
                 = Some (quartile_value sorted_values j)
                 /\ (quartile_value sorted_values j
                     =? nth (Z.to_nat (j * k)) sorted_values 0) = true).
  { intros j Hj.
    pose proof (quartile_interpolation sorted_values j) as Hi.
    pose proof (quartile_value_at_integer_rank sorted_values j) as Hv.
    cbv zeta in Hi, Hv. rewrite Hlen in Hi, Hv.
    replace (j * (4 * k + 1 - 1))%Z with (j * k * 4)%Z in Hi, Hv by lia.
    rewrite Z.div_mul in Hi, Hv by lia. rewrite Z.mod_mul in Hv by lia.
    split; [apply Hi; lia|].
    apply Hv; [reflexivity | | apply Hfin'; nia].
    apply finite_not_nan, Hfin'. nia. }
  change (@lit_0_50 float float_ops) with (quartile_literal 2) in Hm.
  change (@lit_0_25 float float_ops) with (quartile_literal 1) in Ha.
  change (@lit_0_75 float float_ops) with (quartile_literal 3) in Hb.
  destruct (Hq 1%Z ltac:(lia)) as [G1 E1]. destruct (Hq 2%Z ltac:(lia)) as [G2 E2].
  destruct (Hq 3%Z ltac:(lia)) as [G3 E3].
  rewrite G1 in Ha. rewrite G2 in Hm. rewrite G3 in Hb.
  apply some_eq in Ha. apply some_eq in Hm. apply some_eq in Hb.
  rewrite Hq1, Hmed, Hq3, <- Ha, <- Hm, <- Hb.
  rewrite Z.mul_1_l in E1.
  set (x1 := nth (Z.to_nat k) sorted_values 0) in *.
  set (x2 := nth (Z.to_nat (2 * k)) sorted_values 0) in *.
  set (x3 := nth (Z.to_nat (3 * k)) sorted_values 0) in *.
  set (v1 := quartile_value sorted_values 1) in *.
  set (v2 := quartile_value sorted_values 2) in *.
  set (v3 := quartile_value sorted_values 3) in *.
  assert (N1 : not_nan x1) by (apply finite_not_nan, Hfin'; lia).
  assert (N2 : not_nan x2) by (apply finite_not_nan, Hfin'; lia).
  assert (N3 : not_nan x3) by (apply finite_not_nan, Hfin'; lia).
  pose proof (eqb_not_nan_l _ _ E1) as M1. pose proof (eqb_not_nan_l _ _ E2) as M2.
  pose proof (eqb_not_nan_l _ _ E3) as M3.
  destruct (float_eqb_le v1 x1 M1 N1 E1) as [A1 B1].
  destruct (float_eqb_le v2 x2 M2 N2 E2) as [A2 B2].
  destruct (float_eqb_le v3 x3 M3 N3 E3) as [A3 B3].
  assert (S12 : float_le x1 x2).
  { apply (sorted_float_nth sorted_values Hs Hnn). lia. }
  assert (S23 : float_le x2 x3).
  { apply (sorted_float_nth sorted_values Hs Hnn). lia. }
  assert (Smin : float_le (min st) x1) by (apply Lmn, Hfin'; lia).
  assert (Smax : float_le x3 (max st)) by (apply Lmx, Hfin'; lia).
  assert (Nmin : not_nan (min st)).
  { unfold not_nan. destruct (PrimFloat.is_nan (min st)) eqn:E; [|reflexivity].
    unfold float_le in Smin. rewrite FloatAxioms.leb_spec in Smin.
    apply is_nan_Prim2SF in E. rewrite E in Smin. discriminate. }
  assert (Nmax : not_nan (max st)).
  { unfold not_nan. destruct (PrimFloat.is_nan (max st)) eqn:E; [|reflexivity].
    unfold float_le in Smax. rewrite FloatAxioms.leb_spec in Smax.
    apply is_nan_Prim2SF in E. rewrite E in Smax.
    destruct (Prim2SF x3); discriminate. }
  repeat split; try assumption.
  - apply (float_le_trans (min st) x1 v1); assumption.
  - apply (float_le_trans v1 x2 v2); try assumption.
    apply (float_le_trans v1 x1 x2); assumption.
  - apply (float_le_trans v2 x3 v3); try assumption.
    apply (float_le_trans v2 x2 x3); assumption.
  - apply (float_le_trans v3 x3 (max st)); assumption.
Qed.

Lemma quartile_order_at_integer_ranks_witness :
  exists (sorted_values : list float) (st : Stats float),
    (q1 st =? nth (Z.to_nat 1) sorted_values 0) = true
    /\ (median st =? nth (Z.to_nat (2 * 1)) sorted_values 0) = true
    /\ (q3 st =? nth (Z.to_nat (3 * 1)) sorted_values 0) = true
    /\ (min st <=? q1 st) = true /\ (q1 st <=? median st) = true
    /\ (median st <=? q3 st) = true /\ (q3 st <=? max st) = true.
Proof.
  destruct (calculate_stats [5; 0x1p-1074; -3; 0x1p+1023; 0x1p-1074] 5)
    as [[sorted_values st]|] eqn:E; [|vm_compute in E; discriminate].
  exists sorted_values, st.
  apply (quartile_order_at_integer_ranks [5; 0x1p-1074; -3; 0x1p+1023; 0x1p-1074]
           sorted_values st 1%Z eq_refl ltac:(lia) eq_refl
           ltac:(vm_compute; discriminate) E).
Defined.
